(** * Model evaluator API: reference cache, similarity matcher and rule scorer

    A shallow embedding of the evaluator servers of this repository:

    - [src/server.mjs]: the demo server, whose score is read off a hash of
      the photo URLs ([Demo]);
    - [src/unnamed/part_000]: the centroid server with the [LIGHT_MODE]
      switch ([Centroid], variant [Part000]);
    - [src/unnamed/part_001]: the server that embeds through several hosted
      inference endpoints ([tryEmbed], [getEmbedding]) and keeps every
      reference vector ([HF]);
    - [src/unnamed/part_002]: two servers, the older rule-only one (first
      document, [RuleOnly]) and the centroid server with a local CLIP
      extractor (second document, [Centroid], variant [Part002]);
    - the endpoints beside [/evaluate] and [/admin/reload_refs]:
      [/evaluate_mock] of part_000 and part_002 ([Mock]) and
      [/admin/test_embed] ([CentroidAdmin], [HFAdmin]).

    Conventions of the embedding.

    - A JavaScript number is a real number ([R]): rounding of IEEE doubles
      and of [Float32Array] cells, overflow and infinities are not
      modelled.  [NaN] arises in the code from reading an array out of
      range; a cell that may be [NaN] is an [option R] with [None] for
      [NaN].
    - Strings are [string]; [toLowerCase] is the ASCII one.
    - The network (image fetch, embedding back ends, storage listing) is
      the history of the calls made so far; what a service answers is a
      function of that history ([Env]).  A call that throws returns [inl].
    - A handler is a computation in the state and exception monad [M] over
      the state of the process.  [details], the echo of the request fields
      in an answer, is left out. *)

From Stdlib Require Import Reals Lra Lia List String Ascii Bool Arith ZArith.
From Stdlib Require Import Permutation DecimalString DecimalNat.
Import ListNotations.

Local Open Scope R_scope.

(* ================================================================== *)
(** * Utilities shared by all servers *)
(* ================================================================== *)

(** [const clamp = (x, a = 0, b = 1) => Math.max(a, Math.min(b, x))] *)
Definition clamp (x a b : R) : R := Rmax a (Rmin b x).

(** [clamp(x)] with the default bounds. *)
Definition clamp01 (x : R) : R := clamp x 0 1.

(** Truthiness of a number: [0] is falsy. *)
Definition truthy (x : R) : bool := if Req_dec_T x 0 then false else true.

(** ** Strings *)

Definition lower_ascii (c : ascii) : ascii :=
  let n := nat_of_ascii c in
  if ((65 <=? n) && (n <=? 90))%nat then ascii_of_nat (n + 32) else c.

(** [s.toLowerCase()] *)
Fixpoint toLowerCase (s : string) : string :=
  match s with
  | EmptyString => EmptyString
  | String c r => String (lower_ascii c) (toLowerCase r)
  end.

(** [s.startsWith(p)] *)
Fixpoint startsWith (p s : string) : bool :=
  match p, s with
  | EmptyString, _ => true
  | String a p', String b s' => Ascii.eqb a b && startsWith p' s'
  | String _ _, EmptyString => false
  end.

(** [s.includes(p)]: [p] occurs at some position of [s]. *)
Fixpoint includes (p s : string) : bool :=
  startsWith p s ||
  match s with
  | EmptyString => false
  | String _ s' => includes p s'
  end.

(** [xs.join(sep)] *)
Fixpoint join (sep : string) (xs : list string) : string :=
  match xs with
  | [] => EmptyString
  | [x] => x
  | x :: rest => x ++ sep ++ join sep rest
  end.

(** ** Height score

    [heightScoreFactory({min, target, max})(h)] of part_000 (lines 63-72),
    part_001 (40-49) and part_002 (203-212); the older server of part_002
    (64-76) has the same body over [P.height_cm]. *)

Record HeightPref := mkHeight { h_min : R; h_target : R; h_max : R }.

(** The linear part [s] and the bell-shaped [bonus] of the score. *)
Definition height_s (p : HeightPref) (x : R) : R :=
  (x - h_min p) / (h_max p - h_min p).

Definition height_bonus (p : HeightPref) (x : R) : R :=
  let span := (h_max p - h_min p) / 2 in
  exp (- (((x - h_target p) / (span / 2)) ^ 2)) * 0.15.

(** [h] is [None] when the field is absent or [null]; a numeric [0] is
    falsy as well ([!h || !Number(h)]). *)
Definition heightScoreFactory (p : HeightPref) (h : option R) : R :=
  match h with
  | None => 0
  | Some x =>
      if Req_dec_T x 0 then 0
      else if Rle_dec x (h_min p) then 0
      else if Rle_dec (h_max p) x then 1
      else clamp01 (height_s p x + height_bonus p x)
  end.

(** The score as a function of a numeric height. *)
Definition heightScoreAt (p : HeightPref) (x : R) : R :=
  heightScoreFactory p (Some x).

(** The ramp without the bonus: 0 up to [min], 1 from [max], linear between. *)
Definition height_ramp (p : HeightPref) (x : R) : R :=
  if Rle_dec x (h_min p) then 0
  else if Rle_dec (h_max p) x then 1
  else height_s p x.

(** A profile the code is written for: [0 <= min < max]. *)
Definition wf_height (p : HeightPref) : Prop :=
  0 <= h_min p /\ h_min p < h_max p.

(** The height profiles of [PREFS]. *)
Definition female_height : HeightPref := mkHeight 172 177 182.
Definition male_height : HeightPref := mkHeight 182 186 191.
(** The older server of part_002 (line 45) ends the male band at 192. *)
Definition male_height_old : HeightPref := mkHeight 182 186 192.

(** ** Measurements

    [parseMeas] (part_000 46-51): the first three matches of
    [/\d+(\.\d+)?/g], read as bust, waist and hip. *)

Record Meas := mkMeas { m_b : R; m_w : R; m_h : R }.

Definition is_digit (c : ascii) : bool :=
  let n := nat_of_ascii c in ((48 <=? n) && (n <=? 57))%nat.

Definition digit_val (c : ascii) : Z := Z.of_nat (nat_of_ascii c - 48).

(** A match of [\d+(\.\d+)?]: the integer digits, the fraction digits and
    how many fraction digits there are. *)
Record NumTok := mkTok { tok_int : Z; tok_frac : Z; tok_scale : nat }.

(** [Number(tok)] *)
Definition tok_value (t : NumTok) : R :=
  IZR (tok_int t) + IZR (tok_frac t) / IZR (10 ^ Z.of_nat (tok_scale t)).

(** The scanner behind [mStr.match(/\d+(\.\d+)?/g)]: where it stands in
    the current match. *)
Inductive ScanState :=
| Outside
| InInt (i : Z)
| AfterDot (i : Z)
| InFrac (i f : Z) (k : nat).

Definition scan_flush (st : ScanState) : list NumTok :=
  match st with
  | Outside => []
  | InInt i | AfterDot i => [mkTok i 0 0]
  | InFrac i f k => [mkTok i f k]
  end.

Fixpoint scan_numbers (st : ScanState) (s : string) : list NumTok :=
  match s with
  | EmptyString => scan_flush st
  | String c r =>
      if is_digit c then
        match st with
        | Outside => scan_numbers (InInt (digit_val c)) r
        | InInt i => scan_numbers (InInt (10 * i + digit_val c)) r
        | AfterDot i => scan_numbers (InFrac i (digit_val c) 1) r
        | InFrac i f k => scan_numbers (InFrac i (10 * f + digit_val c) (S k)) r
        end
      else
        match st with
        | InInt i =>
            if Ascii.eqb c "."%char then scan_numbers (AfterDot i) r
            else mkTok i 0 0 :: scan_numbers Outside r
        | _ => (scan_flush st ++ scan_numbers Outside r)%list
        end
  end.

(** [measurements] is [None] when the field is absent or not a string. *)
Definition parseMeas (mStr : option string) : option Meas :=
  match mStr with
  | None => None
  | Some s =>
      match scan_numbers Outside s with
      | b :: w :: h :: _ => Some (mkMeas (tok_value b) (tok_value w) (tok_value h))
      | _ => None
      end
  end.

(** ** Preference profiles ([PREFS]) *)

Record Band := mkBand { b_min : R; b_ideal0 : R; b_ideal1 : R; b_max : R }.

Record Bands := mkBands { bands_b : Band; bands_w : Band; bands_h : Band }.

Record Pref := mkPref {
  p_height : HeightPref;
  meas_target : option Meas;
  meas_tol : option Meas;
  meas_bands : option Bands
}.

(** The gender of a submission ([GEN]) and the tag of a reference group. *)
Inductive Gender := Female | Male | Unknown.

Definition Gender_eqb (a b : Gender) : bool :=
  match a, b with
  | Female, Female | Male, Male | Unknown, Unknown => true
  | _, _ => false
  end.

Definition gender_name (g : Gender) : string :=
  match g with
  | Female => "female"
  | Male => "male"
  | Unknown => "unknown"
  end.

(** [(gender || "female").toLowerCase().startsWith("m") ? "male" : "female"];
    [gender] is [None] when the field is absent. *)
Definition GEN_of (gender : option string) : Gender :=
  let g := match gender with
           | None | Some EmptyString => "female"%string
           | Some s => s
           end in
  if startsWith "m" (toLowerCase g) then Male else Female.

(** [PREFS] of part_000 (241-245), part_001 (260-274) and the centroid
    server of part_002 (377-391). *)
Definition male_bands : Bands :=
  mkBands (mkBand 88 90 94 96) (mkBand 71 73 77 82) (mkBand 88 90 94 96).

Definition PREFS (g : Gender) : Pref :=
  match g with
  | Male => mkPref male_height None None (Some male_bands)
  | _ => mkPref female_height (Some (mkMeas 82 60 88)) (Some (mkMeas 6 4 6)) None
  end.

(** [PREFS] of the older server of part_002 (38-49): target and tolerance
    for both genders ([meas_tolerance] there). *)
Definition PREFS_old (g : Gender) : Pref :=
  match g with
  | Male => mkPref male_height_old (Some (mkMeas 96 76 94)) (Some (mkMeas 8 6 8)) None
  | _ => mkPref female_height (Some (mkMeas 82 60 88)) (Some (mkMeas 6 4 6)) None
  end.

(** [bandScore(val, band)] (part_000 252-260); [val] is a parsed number
    and [band] a band of the profile, so the first guard never fires. *)
Definition bandScore (v : R) (band : Band) : R :=
  if Rle_dec v (b_min band) then 0
  else if Rle_dec (b_max band) v then 0
  else if Rle_dec (b_ideal0 band) v then
    if Rle_dec v (b_ideal1 band) then 1
    else (b_max band - v) / (b_max band - b_ideal1 band)
  else (v - b_min band) / (b_ideal0 band - b_min band).

(** The three band scores blended with the waist weighted 1.3. *)
Definition band_blend (m : Meas) (bs : Bands) : R :=
  clamp01 ((bandScore (m_b m) (bands_b bs)
            + 1.3 * bandScore (m_w m) (bands_w bs)
            + bandScore (m_h m) (bands_h bs)) / 3.3).

(** [leanBonus] (part_001 297-299, part_002 415-417). *)
Definition leanBonus (m : Meas) (bs : Bands) : R :=
  if Rle_dec (m_w m) (b_ideal1 (bands_w bs)) then
    if Rle_dec (m_b m) (b_ideal1 (bands_b bs)) then
      if Rle_dec (m_h m) (b_ideal1 (bands_h bs)) then 0.03 else 0
    else 0
  else 0.

(** The server a definition is read from (the demo server of server.mjs
    has no measurement score). *)
Inductive Variant :=
| Part000      (* centroid server with LIGHT_MODE *)
| Part001      (* hosted inference endpoints, every reference vector kept *)
| Part002      (* centroid server with the local extractor *)
| Part002Old.  (* rule-only server *)

(** [measScore] of part_000 (262-273): bands without the lean bonus, and a
    target blend whose three terms are not clamped one by one. *)
Definition measScore_000 (g : Gender) (P : Pref) (m : option Meas) : R :=
  match g, meas_bands P, m with
  | Male, Some bs, Some m => band_blend m bs
  | _, _, _ =>
      match m, meas_target P, meas_tol P with
      | Some m, Some t, Some tol =>
          let dxB := Rabs (m_b m - m_b t) / m_b tol in
          let dxW := Rabs (m_w m - m_w t) / m_w tol in
          let dxH := Rabs (m_h m - m_h t) / m_h tol in
          clamp01 ((1 - dxB + 1.2 * (1 - dxW) + (1 - dxH)) / 3.2)
      | _, _, _ => 0
      end
  end.

(** The target blend with each term clamped (part_001 300-307). *)
Definition target_blend (m t tol : Meas) : R :=
  let dxB := Rabs (m_b m - m_b t) / m_b tol in
  let dxW := Rabs (m_w m - m_w t) / m_w tol in
  let dxH := Rabs (m_h m - m_h t) / m_h tol in
  let sB := clamp01 (1 - dxB) in
  let sW := clamp01 (1 - dxW) in
  let sH := clamp01 (1 - dxH) in
  clamp01 ((sB + 1.2 * sW + sH) / 3.2).

(** [measScore] of part_001 (291-310) and of part_002 (409-426). *)
Definition measScore_001 (g : Gender) (P : Pref) (m : option Meas) : R :=
  match g, meas_bands P, m with
  | Male, Some bs, Some m => clamp01 (band_blend m bs + leanBonus m bs)
  | _, _, _ =>
      match m, meas_target P, meas_tol P with
      | Some m, Some t, Some tol => target_blend m t tol
      | _, _, _ => 0
      end
  end.

(** [measScore] of the older server (part_002 80-91). *)
Definition measScore_old (P : Pref) (m : option Meas) : R :=
  match m, meas_target P, meas_tol P with
  | Some m, Some t, Some tol => target_blend m t tol
  | _, _, _ => 0
  end.

Definition measScore (v : Variant) (g : Gender) (m : option Meas) : R :=
  match v with
  | Part000 => measScore_000 g (PREFS g) m
  | Part001 | Part002 => measScore_001 g (PREFS g) m
  | Part002Old => measScore_old (PREFS_old g) m
  end.

Definition prefs_of (v : Variant) (g : Gender) : Pref :=
  match v with
  | Part002Old => PREFS_old g
  | _ => PREFS g
  end.

(** ** Vectors and cosine similarity *)

(** A cell that may be [NaN] ([None]). *)
Definition num := option R.

(** A [Float32Array] of finite cells. *)
Definition Vec := list R.

(** A vector whose cells may be [NaN]. *)
Definition NVec := list num.

Definition lift_vec (v : Vec) : NVec := map Some v.

(** The pairs [(a[i], b[i])] for [i < Math.min(a.length, b.length)];
    [None] as soon as one of the cells read is [NaN]. *)
Fixpoint overlap (a b : NVec) : option (list (R * R)) :=
  match a, b with
  | x :: a', y :: b' =>
      match x, y, overlap a' b' with
      | Some x, Some y, Some r => Some ((x, y) :: r)
      | _, _, _ => None
      end
  | _, _ => Some []
  end.

(** [cosine(a, b)] (part_000 53-61).  With a [NaN] cell in the overlap
    [na] or [nb] is [NaN], which is falsy, and the result is [0]. *)
Definition cosine (a b : NVec) : R :=
  match overlap a b with
  | None => 0
  | Some ps =>
      let dot := fold_left (fun acc p => acc + fst p * snd p) ps 0 in
      let na := fold_left (fun acc p => acc + fst p * fst p) ps 0 in
      let nb := fold_left (fun acc p => acc + snd p * snd p) ps 0 in
      if truthy na && truthy nb then dot / sqrt (na * nb) else 0
  end.

(** [for (i < v.length) c[i] += v[i]] on a typed array [c]: a write past
    the end of [c] is ignored. *)
Fixpoint add_into (c v : Vec) : Vec :=
  match c, v with
  | ci :: c', vi :: v' => (ci + vi) :: add_into c' v'
  | _, [] => c
  | [], _ => []
  end.

(** [for (i < c.length) c[i] /= n] *)
Definition div_all (c : Vec) (n : nat) : Vec := map (fun x => x / INR n) c.

(** ** Gender tag of a reference folder

    [inferGenderFromFolder] (part_000 94-99, part_001 177-182,
    part_002 268-273). *)
Definition inferGenderFromFolder (name : string) : Gender :=
  let n := toLowerCase name in
  if includes "female" n then Female
  else if includes "male" n then Male
  else Unknown.

(* ================================================================== *)
(** * Effects: a state and exception monad *)
(* ================================================================== *)

(** A computation over a state [S] that returns a value or throws an
    error message. *)
Definition M (S A : Type) : Type := S -> (string + A) * S.

Definition ret {S A} (a : A) : M S A := fun s => (inr a, s).

Definition throw {S A} (e : string) : M S A := fun s => (inl e, s).

Definition bind {S A B} (c : M S A) (k : A -> M S B) : M S B :=
  fun s =>
    match c s with
    | (inl e, s') => (inl e, s')
    | (inr a, s') => k a s'
    end.

(** [try { c } catch (e) { h(e) }] *)
Definition try_catch {S A} (c : M S A) (h : string -> M S A) : M S A :=
  fun s =>
    match c s with
    | (inl e, s') => h e s'
    | (inr a, s') => (inr a, s')
    end.

Definition get_state {S} : M S S := fun s => (inr s, s).

Definition modify {S} (f : S -> S) : M S unit := fun s => (inr tt, f s).

Declare Scope monad_scope.
Delimit Scope monad_scope with monad.
Notation "x <- c ;; k" := (bind c (fun x => k))
  (at level 61, c at next level, right associativity) : monad_scope.
Notation "c ;;; k" := (bind c (fun _ => k))
  (at level 61, right associativity) : monad_scope.
Local Open Scope monad_scope.

(** A line written with [console.error] or [console.log]. *)
Inductive LogEntry :=
| LogError (tag : string) (args : list string)
| LogLoaded (groups : list (string * nat)).

(* ================================================================== *)
(** * The outside world *)
(* ================================================================== *)

(** A call that leaves the process.  The history of such calls is the
    state of the world: what a service answers may depend on everything
    that was asked before. *)
Inductive Event :=
| EvEmbed (url : string)         (* embedOne: image fetch and local extractor *)
| EvImage (url : string)         (* fetchImageBuffer of the hosted variant *)
| EvPost (route : string)        (* POST to an inference route *)
| EvSleep (ms : nat)             (* setTimeout(r, ms) *)
| EvSearch (folder : string)     (* searchFolderAssets *)
| EvFolders                      (* listRootFolders *)
| EvHead (url : string).         (* fetch(url, { method: "HEAD" }) *)

Definition History := list Event.

(** The JSON a route answers with, as [poolToVector] reads it.  A cell
    that is not a number is [NaN]; a value that is not an array is read as
    the empty array. *)
Inductive Json :=
| JVector (cells : NVec)              (* an array of numbers *)
| JMatrix (rows : list NVec)          (* an array whose first element is an array *)
| JInvalid.                           (* resp.json() throws *)

(** The outcome of one [fetch] of a route. *)
Inductive FetchResult :=
| NetworkError (msg : string)                 (* fetch rejects *)
| Resp (status : nat) (body : Json) (text : string).

(** What the services answer, as functions of the history so far. *)
Record Env := mkEnv {
  embed_reply : History -> string -> string + Vec;
  image_reply : History -> string -> string + string;
  post_reply : History -> string -> FetchResult;
  search_reply : History -> string -> string + list string;
  folders_reply : History -> string + list string;
  (** [parseInt(sha256(s).digest("hex").slice(0, k), 16)] *)
  sha256_prefix : nat -> string -> N;
  (** The order in which the embeddings of a worker pool complete. *)
  completion_order : list string -> list string
}.

(** [REFERENCE_FOLDERS_JSON]: empty after [trim], not JSON, or an array
    of folder names. *)
Inductive RefFolders :=
| RefUnset
| RefInvalid
| RefList (names : list string).

(** The environment variables the servers read. *)
Record Config := mkConfig {
  LIGHT_MODE : bool;
  EVALUATOR_API_KEY : string;
  CLOUDINARY_CLOUD_NAME : string;
  CLOUDINARY_API_KEY : string;
  CLOUDINARY_API_SECRET : string;
  ADMIN_TOKEN : string;
  REFERENCE_FOLDERS_JSON : RefFolders;
  MAX_REFS_PER_FOLDER : nat;
  MAX_EMBEDS_CONCURRENCY : nat;
  HUGGINGFACE_API_KEY : string;
  HF_MODEL_ENV : string
}.

(** A string is falsy when empty. *)
Definition nonempty (s : string) : bool :=
  match s with EmptyString => false | _ => true end.

(** The state of a server process: the history of the world, the console,
    the reference cache [clusters] and (hosted variant) [embedCache]. *)
Record State (C : Type) := mkState {
  history : History;
  console : list LogEntry;
  clusters : list C;
  embedCache : list (string * NVec)
}.
Arguments mkState {C}.
Arguments history {C}.
Arguments console {C}.
Arguments clusters {C}.
Arguments embedCache {C}.

Definition init_state {C} : State C := mkState [] [] [] [].

Definition record {C} (e : Event) : M (State C) unit :=
  modify (fun s => mkState (history s ++ [e]) (console s) (clusters s) (embedCache s)).

Definition console_error {C} (tag : string) (args : list string) : M (State C) unit :=
  modify (fun s => mkState (history s) (console s ++ [LogError tag args])
                           (clusters s) (embedCache s)).

Definition console_log {C} (l : LogEntry) : M (State C) unit :=
  modify (fun s => mkState (history s) (console s ++ [l]) (clusters s) (embedCache s)).

(** [clusters.length = 0; clusters.push(...out)] *)
Definition replace_clusters {C} (out : list C) : M (State C) unit :=
  modify (fun s => mkState (history s) (console s) out (embedCache s)).

(** ** Requests and responses of [POST /evaluate] *)

(** The header and the JSON body of a request.  [photos] is the array of
    URLs (empty when the field is absent or not an array); a field that
    is absent or [null] is [None]; [height_cm] and [age] are JSON
    numbers and [gender], [measurements] JSON strings. *)
Record Request := mkRequest {
  authorization : string;
  photos : list string;
  gender : option string;
  height_cm : option R;
  age : option R;
  measurements : option string
}.

Inductive Decision := proceed | review | reject.

(** The JSON of a 200 answer; [details], an echo of the request fields,
    is left out. *)
Record EvalBody := mkBody {
  decision : Decision;
  confidence : R;
  reason : string;
  face_similarity : R;
  face_cluster : string
}.

(** The JSON of a 200 answer of the older server: no face fields. *)
Record RuleBody := mkRuleBody {
  rule_decision : Decision;
  rule_confidence : R;
  rule_reason : string
}.

(** The answers of [POST /evaluate], over the body of a 200. *)
Inductive Response (B : Type) :=
| Unauthorized                 (* 401 *)
| BadRequest                   (* 400 *)
| ServerError (msg : string)   (* 500 *)
| Ok (body : B).               (* 200 *)
Arguments Unauthorized {B}.
Arguments BadRequest {B}.
Arguments ServerError {B}.
Arguments Ok {B}.

(** The answers of [GET /admin/reload_refs]. *)
Inductive AdminResponse :=
| AdminUnauthorized                                   (* 401 *)
| AdminSkipped                                        (* { ok, skipped: "LIGHT_MODE" } *)
| AdminOk (groups : list (string * Gender * nat))     (* { ok, clusters } *)
| AdminError (msg : string).                          (* 500 *)

(** [!KEY || !auth.startsWith("Bearer ") || auth.slice(7) !== KEY] *)
Definition auth_fails (key auth : string) : bool :=
  negb (nonempty key)
  || negb (startsWith "Bearer " auth)
  || negb (String.eqb (substring 7 (String.length auth - 7) auth) key).

(** [Number(x.toFixed(3))] for [x >= 0]: the nearest multiple of 0.001,
    the larger one on a tie. *)
Definition toFixed3 (x : R) : R := IZR (Int_part (x * 1000 + / 2)) / 1000.

(** [clamp((nPhotos - 2) * 0.04, 0, 0.12)] *)
Definition photoBoost (nPhotos : nat) : R :=
  clamp ((INR nPhotos - 2) * 0.04) 0 0.12.

(** [(n % 100) / 10000] with [n] read from the hash of the joined URLs. *)
Definition tinyNoise (E : Env) (photos : list string) : R :=
  IZR (Z.of_N (sha256_prefix E 6 (join "|" photos) mod 100)) / 10000.

(** [nPhotos ? 0.6 : 0] *)
Definition photo_term (nPhotos : nat) : R :=
  match nPhotos with O => 0 | _ => 0.6 end.

(** The blend of the servers with face similarity (part_000 317-324,
    part_001 359-366, part_002 473-480). *)
Definition blend (measScore heightScore faceScore : R) (nPhotos : nat) (noise : R) : R :=
  clamp01 (0.40 * measScore + 0.25 * heightScore + 0.30 * faceScore
           + 0.05 * photo_term nPhotos + photoBoost nPhotos + noise).

(** The blend of the older server (part_002 103-109). *)
Definition blend_old (measScore heightScore : R) (nPhotos : nat) (noise : R) : R :=
  clamp01 (0.55 * measScore + 0.35 * heightScore
           + 0.10 * photo_term nPhotos + photoBoost nPhotos + noise).

(** [confidence >= 0.70 ? "proceed" : confidence >= 0.45 ? "review" : "reject"] *)
Definition decide (confidence : R) : Decision :=
  if Rle_dec 0.70 confidence then proceed
  else if Rle_dec 0.45 confidence then review
  else reject.

(** The phrase for the height, pushed when [height_cm] is truthy. *)
Definition height_reason (h : option R) (hs : R) : list string :=
  match h with
  | None => []
  | Some x =>
      if Req_dec_T x 0 then []
      else if Rle_dec 0.75 hs then ["height in editorial sweet spot"%string]
      else if Rle_dec 0.45 hs then ["height within range"%string]
      else ["height below preferred range"%string]
  end.

(** The phrase for the measurements, pushed when they parsed. *)
Definition meas_reason (old : bool) (m : option Meas) (ms : R) : list string :=
  match m with
  | None => []
  | Some _ =>
      if Rle_dec 0.75 ms then
        [if old then "measurements close to target" else "measurements in ideal window"]%string
      else if Rle_dec 0.45 ms then
        [if old then "measurements acceptable"
         else "measurements within acceptable band"]%string
      else ["measurements outside preferred band"%string]
  end.

(** The phrase for the photo count (part_001 382-383, part_002 127-128 and
    496-497); part_000 has none. *)
Definition photo_reason (nPhotos : nat) : list string :=
  if (3 <=? nPhotos)%nat then ["enough digitals provided"%string]
  else if (nPhotos <? 2)%nat then ["insufficient digitals"%string]
  else [].

(** The phrase for a face score. *)
Definition face_phrase (faceScore : R) : string :=
  if Rle_dec 0.70 faceScore then "face matches reference look"
  else if Rle_dec 0.55 faceScore then "some similarity to reference look"
  else "low similarity to reference look".

(** The outcome of the face-similarity block. *)
Record Face := mkFace { faceScore : R; faceCluster : string; faceReason : string }.

Definition face_neutral : Face := mkFace 0.5 "none" "face similarity neutral".

(** [`${faceReason} (${faceCluster})`] *)
Definition face_line (f : Face) : string :=
  (faceReason f ++ " (" ++ faceCluster f ++ ")")%string.

(** [fetchImageBuffer]: the URL actually fetched, with the downscaling
    transform put after the first ["/image/upload/"] unless one is there. *)
Fixpoint insert_after (marker ins s : string) : string :=
  if startsWith marker s then
    (marker ++ ins ++ substring (String.length marker)
                                (String.length s - String.length marker) s)%string
  else
    match s with
    | EmptyString => EmptyString
    | String c r => String c (insert_after marker ins r)
    end.

Definition resized_url (url : string) : string :=
  if includes "/image/upload/" url && negb (includes "/image/upload/f_jpg" url)
  then insert_after "/image/upload/" "f_jpg,q_auto,w_512,c_limit/" url
  else url.

(** [/^reference\s/i.test(n)] *)
Definition is_space (c : ascii) : bool :=
  let n := nat_of_ascii c in
  ((9 <=? n) && (n <=? 13) || (n =? 32))%nat.

Definition is_reference_folder (n : string) : bool :=
  startsWith "reference" (toLowerCase n) &&
  match get 9 n with
  | Some c => is_space c
  | None => false
  end.

(* ================================================================== *)
(** * The centroid servers (part_000, and part_002 from line 143) *)
(* ================================================================== *)

Module Centroid.

(** A reference group: [{ label, gender, size, centroid }]. *)
Record Cluster := mkCluster {
  label : string;
  gender_tag : Gender;
  size : nat;
  centroid : Vec
}.

Definition St := State Cluster.

Section Server.

Variable E : Env.
Variable cfg : Config.
(** [Part000] or [Part002]. *)
Variable v : Variant.

(** Only part_000 reads [LIGHT_MODE]. *)
Definition light : bool :=
  match v with Part000 => LIGHT_MODE cfg | _ => false end.

(** [embedOne(url)] (part_000 118-124): the image is fetched from the
    resized URL and run through the extractor. *)
Definition embedOne (url : string) : M St Vec :=
  s <- get_state ;;
  record (EvEmbed (resized_url url)) ;;;
  match embed_reply E (history s) (resized_url url) with
  | inl e => throw e
  | inr vec => ret vec
  end.

(** [listRootFolders] (part_000 75-81) *)
Definition listRootFolders : M St (list string) :=
  s <- get_state ;;
  record EvFolders ;;;
  match folders_reply E (history s) with
  | inl e => throw ("cloudinary_list_folders_failed:" ++ e)
  | inr names => ret names
  end.

(** [searchFolderAssets] (part_000 82-93) *)
Definition searchFolderAssets (folderName : string) : M St (list string) :=
  s <- get_state ;;
  record (EvSearch folderName) ;;;
  match search_reply E (history s) folderName with
  | inl e => throw ("cloudinary_search_failed:" ++ e)
  | inr urls => ret urls
  end.

(** [discoverReferenceFolders] (part_000 129-136) *)
Definition discoverReferenceFolders : M St (list string) :=
  match REFERENCE_FOLDERS_JSON cfg with
  | RefList names => ret names
  | RefInvalid => throw "Invalid REFERENCE_FOLDERS_JSON"
  | RefUnset =>
      names <- listRootFolders ;;
      ret (filter is_reference_folder names)
  end.

(** One pass of a worker's loop body over the urls, in the order in which
    the embeddings complete (part_000 157-167): a success is folded into
    the running sum, a failure is logged and skipped. *)
Fixpoint fold_embeds (fname : string) (queue : list string)
    (centroid : option Vec) (count : nat) : M St (option Vec * nat) :=
  match queue with
  | [] => ret (centroid, count)
  | u :: rest =>
      r <- try_catch (vec <- embedOne u ;; ret (Some vec))
                     (fun e => console_error "embed_fail" [fname; u; e] ;;; ret None) ;;
      match r with
      | Some vec =>
          let c := match centroid with
                   | None => repeat 0 (List.length vec)
                   | Some c => c
                   end in
          fold_embeds fname rest (Some (add_into c vec)) (S count)
      | None => fold_embeds fname rest centroid count
      end
  end.

(** The worker pool (part_000 155-169): [Math.min(MAX_EMBEDS_CONCURRENCY,
    urls.length)] workers drain the queue; with no worker nothing is
    embedded. *)
Definition run_pool (fname : string) (urls : list string) : M St (option Vec * nat) :=
  match Nat.min (MAX_EMBEDS_CONCURRENCY cfg) (List.length urls) with
  | O => ret (None, O)
  | _ => fold_embeds fname (completion_order E urls) None O
  end.

(** The body of [for (const fname of folderNames)] (part_000 145-176). *)
Definition build_folder (fname : string) (out : list Cluster) : M St (list Cluster) :=
  urlsAll <- searchFolderAssets fname ;;
  match urlsAll with
  | [] => ret out
  | _ =>
      let urls := firstn (MAX_REFS_PER_FOLDER cfg) urlsAll in
      let gender := inferGenderFromFolder fname in
      r <- run_pool fname urls ;;
      match r with
      | (Some c, S n) => ret (out ++ [mkCluster fname gender (S n) (div_all c (S n))])
      | _ => ret out
      end
  end.

Fixpoint build_folders (folderNames : list string) (out : list Cluster)
    : M St (list Cluster) :=
  match folderNames with
  | [] => ret out
  | fname :: rest =>
      out' <- build_folder fname out ;;
      build_folders rest out'
  end.

(** [loadClusters] (part_000 138-181) *)
Definition loadClusters : M St unit :=
  if negb (nonempty (CLOUDINARY_CLOUD_NAME cfg))
     || negb (nonempty (CLOUDINARY_API_KEY cfg))
     || negb (nonempty (CLOUDINARY_API_SECRET cfg))
  then throw "Cloudinary credentials missing"
  else
    folderNames <- discoverReferenceFolders ;;
    out <- build_folders folderNames [] ;;
    replace_clusters out ;;;
    console_log (LogLoaded (map (fun c => (label c, size c)) out)).

(** [GET /admin/reload_refs] (part_000 184-194) *)
Definition reload_refs (token : string) : M St AdminResponse :=
  if negb (String.eqb token (ADMIN_TOKEN cfg)) then ret AdminUnauthorized
  else if light then ret AdminSkipped
  else
    try_catch
      (loadClusters ;;;
       s <- get_state ;;
       ret (AdminOk (map (fun c => (label c, gender_tag c, size c)) (clusters s))))
      (fun e => console_error "error" [e] ;;; ret (AdminError e)).

(** The submission's photos, embedded one after the other; a failure is
    logged and the photo left out (part_000 279-282). *)
Fixpoint embed_photos (urls : list string) : M St (list Vec) :=
  match urls with
  | [] => ret []
  | url :: rest =>
      r <- try_catch (vec <- embedOne url ;; ret (Some vec))
                     (fun e => console_error "app_embed_fail" [url; e] ;;; ret None) ;;
      vs <- embed_photos rest ;;
      ret (match r with Some vec => vec :: vs | None => vs end)
  end.

(** Cell [i] of [avg] (part_000 284-287): the mean of the cells [v[i]];
    [NaN] when a vector is shorter than [dim]. *)
Definition avg_cell (photoVecs : list Vec) (i : nat) : num :=
  if forallb (fun vec => (i <? List.length vec)%nat) photoVecs
  then Some (fold_left (fun acc vec => acc + nth i vec 0) photoVecs 0
             / INR (List.length photoVecs))
  else None.

Definition average (photoVecs : list Vec) : NVec :=
  match photoVecs with
  | [] => []
  | first :: _ => map (avg_cell photoVecs) (seq 0 (List.length first))
  end.

(** The scan for the best centroid (part_000 289-293): a candidate wins
    only when strictly more similar. *)
Fixpoint best_match (avg : NVec) (cs : list Cluster) (maxSim : R) (bestLabel : string)
    : R * string :=
  match cs with
  | [] => (maxSim, bestLabel)
  | c :: rest =>
      let s := cosine avg (lift_vec (centroid c)) in
      if Rlt_dec maxSim s then best_match avg rest s (label c)
      else best_match avg rest maxSim bestLabel
  end.

(** The face-similarity block (part_000 276-309). *)
Definition face_block (photos : list string) : M St Face :=
  try_catch
    (s <- get_state ;;
     match clusters s with
     | [] => ret (mkFace 0.5 "none" "no reference faces loaded")
     | _ =>
         photoVecs <- embed_photos (firstn 5 photos) ;;
         match photoVecs with
         | [] => ret (mkFace 0.5 "none" "no valid photos to analyze")
         | _ =>
             s' <- get_state ;;
             let '(maxSim, bestLabel) :=
               best_match (average photoVecs) (clusters s') (-1) "none" in
             let score := clamp01 ((maxSim + 1) / 2) in
             ret (mkFace score bestLabel (face_phrase score))
         end
     end)
    (fun e => console_error "face_similarity_error" [e] ;;;
              ret (mkFace 0.5 "none" "face similarity unavailable")).

(** The answer of [LIGHT_MODE] (part_000 224-238). *)
Definition mock_body : EvalBody :=
  mkBody review 0.75 "Endpoint OK; mock (LIGHT_MODE)." 0.5 "none".

(** The phrases of [reason] (part_000 328-342, part_002 484-500). *)
Definition reasons (req : Request) (hs ms : R) (m : option Meas) (f : Face) : list string :=
  (height_reason (height_cm req) hs
   ++ meas_reason false m ms
   ++ match v with Part000 => [] | _ => photo_reason (List.length (photos req)) end
   ++ [face_line f])%list.

(** [POST /evaluate] (part_000 210-354, part_002 364-512). *)
Definition evaluate (req : Request) : M St (Response EvalBody) :=
  if auth_fails (EVALUATOR_API_KEY cfg) (authorization req) then ret Unauthorized
  else
    match photos req with
    | [] => ret BadRequest
    | _ =>
        if light then ret (Ok mock_body)
        else
          try_catch
            (let GEN := GEN_of (gender req) in
             let P := PREFS GEN in
             let hs := heightScoreFactory (p_height P) (height_cm req) in
             let m := parseMeas (measurements req) in
             let ms := measScore v GEN m in
             f <- face_block (photos req) ;;
             let nPhotos := List.length (photos req) in
             let conf := blend ms hs (faceScore f) nPhotos (tinyNoise E (photos req)) in
             ret (Ok (mkBody (decide conf) conf
                             (join "; " (reasons req hs ms m f))
                             (toFixed3 (faceScore f)) (faceCluster f))))
            (fun e => console_error "error" [e] ;;; ret (ServerError e))
    end.

End Server.

End Centroid.

(* ================================================================== *)
(** * The hosted-inference server (part_001) *)
(* ================================================================== *)

Module HF.

(** A reference group: [{ label, gender, urls, vecs }]. *)
Record Cluster := mkCluster {
  label : string;
  gender_tag : Gender;
  urls : list string;
  vecs : list NVec
}.

Definition St := State Cluster.

(** Decimal digits of a number, as a template literal prints them. *)
Definition show_nat (n : nat) : string := NilEmpty.string_of_uint (Nat.to_uint n).

(** Cell [j] of the pooled vector: the mean over the rows; [NaN] when a
    row has no cell [j] or holds [NaN] there. *)
Definition pool_cell (rows : list NVec) (j : nat) : num :=
  let cells := map (fun row => nth j row None) rows in
  if forallb (fun c => match c with Some _ => true | None => false end) cells
  then Some (fold_left (fun acc c => acc + match c with Some x => x | None => 0 end) cells 0
             / INR (List.length rows))
  else None.

(** [poolToVector] (part_001 88-100) *)
Definition poolToVector (jsonOut : Json) : NVec :=
  match jsonOut with
  | JMatrix (first :: rest) =>
      map (pool_cell (first :: rest)) (seq 0 (List.length first))
  | JMatrix [] => []
  | JVector cells => cells
  | JInvalid => []
  end.

(** [resp.ok] *)
Definition status_ok (status : nat) : bool := ((200 <=? status) && (status <=? 299))%nat.

(** [[500, 502, 503, 504].includes(resp.status)] *)
Definition transient (status : nat) : bool :=
  ((status =? 500) || (status =? 502) || (status =? 503) || (status =? 504))%nat.

Definition maxAttempts : nat := 3.

(** [HF_ROUTES(modelId)] (part_001 63-67) *)
Definition HF_ROUTES (modelId : string) : list string :=
  [ "https://api-inference.huggingface.co/pipeline/image-feature-extraction/" ++ modelId;
    "https://api-inference.huggingface.co/pipeline/feature-extraction/" ++ modelId;
    "https://api-inference.huggingface.co/models/" ++ modelId ]%string.

Section Server.

Variable E : Env.
Variable cfg : Config.

(** [HF_MODELS] (part_001 56-60) *)
Definition HF_MODELS : list string :=
  [ if nonempty (HF_MODEL_ENV cfg) then HF_MODEL_ENV cfg
    else "sentence-transformers/clip-ViT-B-32";
    "laion/CLIP-ViT-B-32-laion2B-s34B-b79K";
    "openai/clip-vit-base-patch32" ]%string.

(** The back ends in the order [getEmbedding] walks them: every route of
    the first model, then of the second, then of the third. *)
Definition backends : list (string * string) :=
  flat_map (fun model => map (fun route => (model, route)) (HF_ROUTES model)) HF_MODELS.

(** [fetchImageBuffer] (part_001 70-84) *)
Definition fetchImageBuffer (url : string) : M St string :=
  s <- get_state ;;
  record (EvImage (resized_url url)) ;;;
  match image_reply E (history s) (resized_url url) with
  | inl status => throw ("image_fetch_failed:" ++ status)
  | inr buf => ret buf
  end.

(** One [fetch(route, { method: "POST", body: buf, ... })]; the bytes
    posted are those of the image fetched last. *)
Definition post (route : string) : M St FetchResult :=
  s <- get_state ;;
  record (EvPost route) ;;;
  ret (post_reply E (history s) route).

(** The loop of [tryEmbed] (part_001 106-128) over the attempt numbers
    still to run. *)
Fixpoint tryEmbed_loop (attempts : list nat) (last : string) (route : string)
    : M St NVec :=
  match attempts with
  | [] => throw last
  | attempt :: rest =>
      resp <- post route ;;
      match resp with
      | NetworkError msg => throw msg
      | Resp status body txt =>
          if status_ok status then
            match body with
            | JInvalid => throw "invalid json response body"
            | data => ret (poolToVector data)
            end
          else
            let last := ("hf_" ++ show_nat status ++ "_" ++ route ++ ":"
                         ++ (if nonempty txt then txt else "error"))%string in
            if transient status && (attempt <? maxAttempts)%nat then
              record (EvSleep (400 * attempt)) ;;;
              tryEmbed_loop rest last route
            else throw last
      end
  end.

(** [tryEmbed(route, buf)] (part_001 103-130) *)
Definition tryEmbed (route : string) : M St NVec :=
  tryEmbed_loop (seq 1 maxAttempts) "undefined" route.

Definition cache_get (url : string) (cache : list (string * NVec)) : option NVec :=
  match find (fun kv => String.eqb (fst kv) url) cache with
  | Some kv => Some (snd kv)
  | None => None
  end.

(** [embedCache.set(url, vec)] *)
Definition cache_set (url : string) (vec : NVec) : M St unit :=
  modify (fun s =>
    mkState (history s) (console s) (clusters s)
            ((url, vec) :: filter (fun kv => negb (String.eqb (fst kv) url)) (embedCache s))).

(** The two loops of [getEmbedding] (part_001 139-152). *)
Fixpoint try_backends (bs : list (string * string)) (url : string)
    (lastErr : option string) : M St NVec :=
  match bs with
  | [] => throw (match lastErr with
                 | Some e => e
                 | None => "hf_all_endpoints_failed"%string
                 end)
  | (model, route) :: rest =>
      r <- try_catch (vec <- tryEmbed route ;; ret (inr vec)) (fun e => ret (inl e)) ;;
      match r with
      | inr vec => cache_set url vec ;;; ret vec
      | inl e =>
          console_error "hf_try_fail" [model; e] ;;;
          try_backends rest url (Some e)
      end
  end.

(** [getEmbedding(url)] (part_001 132-153) *)
Definition getEmbedding (url : string) : M St NVec :=
  s <- get_state ;;
  match cache_get url (embedCache s) with
  | Some vec => ret vec
  | None =>
      if negb (nonempty (HUGGINGFACE_API_KEY cfg)) then throw "HUGGINGFACE_API_KEY missing"
      else
        fetchImageBuffer url ;;;
        try_backends backends url None
  end.

(** [listRootFolders] (part_001 156-162) *)
Definition listRootFolders : M St (list string) :=
  s <- get_state ;;
  record EvFolders ;;;
  match folders_reply E (history s) with
  | inl e => throw ("cloudinary_list_folders_failed:" ++ e)
  | inr names => ret names
  end.

(** [searchFolderAssets] (part_001 164-175) *)
Definition searchFolderAssets (folderName : string) : M St (list string) :=
  s <- get_state ;;
  record (EvSearch folderName) ;;;
  match search_reply E (history s) folderName with
  | inl e => throw ("cloudinary_search_failed:" ++ e)
  | inr urls => ret urls
  end.

(** [discoverReferenceFolders] (part_001 184-191) *)
Definition discoverReferenceFolders : M St (list string) :=
  match REFERENCE_FOLDERS_JSON cfg with
  | RefList names => ret names
  | RefInvalid => throw "Invalid REFERENCE_FOLDERS_JSON"
  | RefUnset =>
      names <- listRootFolders ;;
      ret (filter is_reference_folder names)
  end.

(** [for (const u of urls) try { vecs.push(await getEmbedding(u)) } catch ...]
    (part_001 204-207; with [tag] ["app_embed_fail"], 321-324). *)
Fixpoint embed_all (tag : string) (ctx : list string) (us : list string)
    : M St (list NVec) :=
  match us with
  | [] => ret []
  | u :: rest =>
      r <- try_catch (vec <- getEmbedding u ;; ret (Some vec))
                     (fun e => console_error tag (ctx ++ [u; e]) ;;; ret None) ;;
      vs <- embed_all tag ctx rest ;;
      ret (match r with Some vec => vec :: vs | None => vs end)
  end.

(** The body of [for (const fname of folderNames)] (part_001 199-209). *)
Definition build_folder (fname : string) (out : list Cluster) : M St (list Cluster) :=
  us <- searchFolderAssets fname ;;
  match us with
  | [] => ret out
  | _ =>
      let gender := inferGenderFromFolder fname in
      vs <- embed_all "embed_fail" [fname] us ;;
      match vs with
      | [] => ret out
      | _ => ret (out ++ [mkCluster fname gender us vs])
      end
  end.

Fixpoint build_folders (folderNames : list string) (out : list Cluster)
    : M St (list Cluster) :=
  match folderNames with
  | [] => ret out
  | fname :: rest =>
      out' <- build_folder fname out ;;
      build_folders rest out'
  end.

(** [loadClusters] (part_001 193-213) *)
Definition loadClusters : M St unit :=
  if negb (nonempty (CLOUDINARY_CLOUD_NAME cfg))
     || negb (nonempty (CLOUDINARY_API_KEY cfg))
     || negb (nonempty (CLOUDINARY_API_SECRET cfg))
  then throw "Cloudinary credentials missing"
  else
    folderNames <- discoverReferenceFolders ;;
    out <- build_folders folderNames [] ;;
    replace_clusters out ;;;
    console_log (LogLoaded (map (fun c => (label c, List.length (vecs c))) out)).

(** [GET /admin/reload_refs] (part_001 216-228) *)
Definition reload_refs (token : string) : M St AdminResponse :=
  if negb (String.eqb token (ADMIN_TOKEN cfg)) then ret AdminUnauthorized
  else
    try_catch
      (loadClusters ;;;
       s <- get_state ;;
       ret (AdminOk (map (fun c => (label c, gender_tag c, List.length (vecs c)))
                         (clusters s))))
      (fun e => console_error "error" [e] ;;; ret (AdminError e)).

(** The callback of [app.listen] (part_001 402-409). *)
Definition boot : M St unit :=
  try_catch loadClusters
            (fun e => console_error "Initial reference load failed:" [e]).

(** The candidate pool (part_001 316-318). *)
Definition candidate_pool (GEN : Gender) (cs : list Cluster) : list Cluster :=
  if existsb (fun c => negb (Gender_eqb (gender_tag c) Unknown)) cs
  then filter (fun c => Gender_eqb (gender_tag c) GEN
                        || Gender_eqb (gender_tag c) Unknown) cs
  else cs.

(** The comparisons of one photo vector, in the order of the two inner
    loops (part_001 328-333): each reference vector with its group. *)
Definition candidates (pool : list Cluster) : list (Cluster * NVec) :=
  flat_map (fun c => map (fun rv => (c, rv)) (vecs c)) pool.

Fixpoint scan_candidates (pv : NVec) (cands : list (Cluster * NVec))
    (maxSim : R) (bestLabel : string) : R * string :=
  match cands with
  | [] => (maxSim, bestLabel)
  | (c, rv) :: rest =>
      let s := cosine pv rv in
      if Rlt_dec maxSim s then scan_candidates pv rest s (label c)
      else scan_candidates pv rest maxSim bestLabel
  end.

(** The three nested loops (part_001 326-334). *)
Fixpoint best_match (photoVecs : list NVec) (pool : list Cluster)
    (maxSim : R) (bestLabel : string) : R * string :=
  match photoVecs with
  | [] => (maxSim, bestLabel)
  | pv :: rest =>
      let '(m, l) := scan_candidates pv (candidates pool) maxSim bestLabel in
      best_match rest pool m l
  end.

(** The face-similarity block (part_001 313-349). *)
Definition face_block (GEN : Gender) (photos : list string) : M St Face :=
  try_catch
    (s <- get_state ;;
     match clusters s with
     | [] => ret (mkFace 0.5 "none" "no reference faces loaded")
     | _ =>
         let pool := candidate_pool GEN (clusters s) in
         photoVecs <- embed_all "app_embed_fail" [] photos ;;
         let '(maxSim, bestLabel) := best_match photoVecs pool (-1) "none" in
         if Rle_dec (-1) maxSim then
           let score := clamp01 ((maxSim + 1) / 2) in
           ret (mkFace score bestLabel (face_phrase score))
         else ret face_neutral
     end)
    (fun e => console_error "face_similarity_error" [e] ;;;
              ret (mkFace 0.5 "none" "face similarity unavailable")).

(** The phrases of [reason] (part_001 370-386). *)
Definition reasons (req : Request) (hs ms : R) (m : option Meas) (f : Face) : list string :=
  (height_reason (height_cm req) hs
   ++ meas_reason false m ms
   ++ photo_reason (List.length (photos req))
   ++ [face_line f])%list.

(** [POST /evaluate] (part_001 247-398) *)
Definition evaluate (req : Request) : M St (Response EvalBody) :=
  if auth_fails (EVALUATOR_API_KEY cfg) (authorization req) then ret Unauthorized
  else
    match photos req with
    | [] => ret BadRequest
    | _ =>
        try_catch
          (let GEN := GEN_of (gender req) in
           let P := PREFS GEN in
           let hs := heightScoreFactory (p_height P) (height_cm req) in
           let m := parseMeas (measurements req) in
           let ms := measScore Part001 GEN m in
           f <- face_block GEN (photos req) ;;
           let nPhotos := List.length (photos req) in
           let conf := blend ms hs (faceScore f) nPhotos (tinyNoise E (photos req)) in
           ret (Ok (mkBody (decide conf) conf
                           (join "; " (reasons req hs ms m f))
                           (toFixed3 (faceScore f)) (faceCluster f))))
          (fun e => console_error "error" [e] ;;; ret (ServerError e))
    end.

End Server.

End HF.

(* ================================================================== *)
(** * The older rule-only server (part_002, lines 1-141) *)
(* ================================================================== *)

Module RuleOnly.

Definition St := State unit.

Section Server.

Variable E : Env.
Variable cfg : Config.

(** The phrases of [reason] (part_002 115-130). *)
Definition reasons (req : Request) (hs ms : R) (m : option Meas) : list string :=
  (height_reason (height_cm req) hs
   ++ meas_reason true m ms
   ++ photo_reason (List.length (photos req)))%list.

(** [POST /evaluate] (part_002 15-138) *)
Definition evaluate (req : Request) : M St (Response RuleBody) :=
  if auth_fails (EVALUATOR_API_KEY cfg) (authorization req) then ret Unauthorized
  else
    match photos req with
    | [] => ret BadRequest
    | first :: _ =>
        (* the reachability check; its failure is ignored *)
        record (EvHead first) ;;;
        let GENDER := GEN_of (gender req) in
        let P := PREFS_old GENDER in
        let hs := heightScoreFactory (p_height P) (height_cm req) in
        let m := parseMeas (measurements req) in
        let ms := measScore Part002Old GENDER m in
        let photoCount := List.length (photos req) in
        let conf := blend_old ms hs photoCount (tinyNoise E (photos req)) in
        ret (Ok (mkRuleBody (decide conf) conf (join "; " (reasons req hs ms m))))
    end.

End Server.

End RuleOnly.

(* ================================================================== *)
(** * The demo server (server.mjs) *)
(* ================================================================== *)

Module Demo.

Definition St := State unit.

Section Server.

Variable E : Env.
Variable cfg : Config.

(** [x && Number(x) >= 175] and [x && Number(x) < 19] on an optional
    number. *)
Definition tall (h : option R) : bool :=
  match h with
  | Some x => if Req_dec_T x 0 then false else if Rle_dec 175 x then true else false
  | None => false
  end.

Definition young (a : option R) : bool :=
  match a with
  | Some x => if Req_dec_T x 0 then false else if Rlt_dec x 19 then true else false
  | None => false
  end.

(** The score of server.mjs (lines 37-43): the hash of the URLs, nudged
    by height and age. *)
Definition demo_confidence (req : Request) : R :=
  let n := sha256_prefix E 8 (join "|" (photos req)) in
  let c0 := IZR (Z.of_N (n mod 10000)) / 10000 in
  let c1 := if tall (height_cm req) then Rmax c0 0.35 else c0 in
  if young (age req) then Rmin (c1 + 0.05) 0.99 else c1.

(** [confidence >= 0.65 ? "proceed" : confidence >= 0.35 ? "review" : "reject"] *)
Definition demo_decide (confidence : R) : Decision :=
  if Rle_dec 0.65 confidence then proceed
  else if Rle_dec 0.35 confidence then review
  else reject.

(** [POST /evaluate] (server.mjs 15-54) *)
Definition evaluate (req : Request) : M St (Response RuleBody) :=
  if auth_fails (EVALUATOR_API_KEY cfg) (authorization req) then ret Unauthorized
  else
    match photos req with
    | [] => ret BadRequest
    | first :: _ =>
        record (EvHead first) ;;;
        let conf := demo_confidence req in
        ret (Ok (mkRuleBody (demo_decide conf) conf
                            "Demo: score derived from hashed photo URLs."))
    end.

End Server.

End Demo.

(* ================================================================== *)
(** * Reload requests on the event loop *)
(* ================================================================== *)

(** [GET /admin/reload_refs] awaits [loadClusters], and [loadClusters]
    awaits the storage and the embedder: between two awaits a handler
    runs alone, at an await any other handler may run.  A build in flight
    is the continuation of its [loadClusters]: the folders still to
    visit and its local [out].  The work on one folder is taken as one
    step; it touches the world and the locals of its build only.  (With
    a configured folder list the first await resolves inside the process
    and the build goes on right after its arrival; the schedules below
    include that one.) *)

Module EventLoop.

Import Centroid.

(** A build that is waiting at an await. *)
Inductive Task :=
| Discovering                                           (* await discoverReferenceFolders() *)
| Building (remaining : list string) (out : list Cluster).
                                                        (* inside the for loop *)

(** The process: its state, the builds in flight, and (for the statements
    below, not a variable of the source) the [out] of every build that
    ran to its end, oldest first. *)
Record Loop := mkLoop {
  st : St;
  tasks : list Task;
  finished : list (list Cluster)
}.

(** What the event loop does next. *)
Inductive Action :=
| Arrive (token : string)      (* a reload request comes in *)
| Resume (i : nat).            (* the i-th build in flight goes on *)

Section Server.

Variable E : Env.
Variable cfg : Config.
Variable v : Variant.

Definition credentials_missing : bool :=
  negb (nonempty (CLOUDINARY_CLOUD_NAME cfg))
  || negb (nonempty (CLOUDINARY_API_KEY cfg))
  || negb (nonempty (CLOUDINARY_API_SECRET cfg)).

(** The end of [loadClusters] (part_000 178-180), which runs in the same
    turn as the end of the loop. *)
Definition publish (out : list Cluster) : M St unit :=
  replace_clusters out ;;;
  console_log (LogLoaded (map (fun c => (label c, size c)) out)).

Fixpoint remove_nth {A} (i : nat) (l : list A) : list A :=
  match i, l with
  | _, [] => []
  | O, _ :: r => r
  | S i', x :: r => x :: remove_nth i' r
  end.

Fixpoint replace_nth {A} (i : nat) (x : A) (l : list A) : list A :=
  match i, l with
  | _, [] => []
  | O, _ :: r => x :: r
  | S i', y :: r => y :: replace_nth i' x r
  end.

(** A build that has its folder names goes on to the next await: it ends
    (and publishes) when no folder is left, and waits otherwise. *)
Definition continue_build (l : Loop) (i : nat) (s : St)
    (remaining : list string) (out : list Cluster) : Loop :=
  match remaining with
  | [] => mkLoop (snd (publish out s)) (remove_nth i (tasks l)) (finished l ++ [out])
  | _ => mkLoop s (replace_nth i (Building remaining out) (tasks l)) (finished l)
  end.

(** The handler of the request up to its first await (part_000 185-188,
    139-142): nothing looks at the builds in flight. *)
Definition arrive (l : Loop) (token : string) : Loop :=
  if negb (String.eqb token (ADMIN_TOKEN cfg)) then l
  else if light cfg v then l
  else if credentials_missing then
    mkLoop (snd (console_error "error" ["Cloudinary credentials missing"%string] (st l)))
           (tasks l) (finished l)
  else mkLoop (st l) (tasks l ++ [Discovering]) (finished l).

(** The i-th build in flight runs from its await to the next one.  A
    build that throws ends with a 500 and leaves [clusters] alone. *)
Definition resume (l : Loop) (i : nat) : option Loop :=
  match nth_error (tasks l) i with
  | None => None
  | Some Discovering =>
      match discoverReferenceFolders E cfg (st l) with
      | (inl e, s) =>
          Some (mkLoop (snd (console_error "error" [e] s)) (remove_nth i (tasks l))
                       (finished l))
      | (inr names, s) => Some (continue_build l i s names [])
      end
  | Some (Building [] out) => Some (continue_build l i (st l) [] out)
  | Some (Building (fname :: rest) out) =>
      match build_folder E cfg fname out (st l) with
      | (inl e, s) =>
          Some (mkLoop (snd (console_error "error" [e] s)) (remove_nth i (tasks l))
                       (finished l))
      | (inr out', s) => Some (continue_build l i s rest out')
      end
  end.

Definition step (l : Loop) (a : Action) : option Loop :=
  match a with
  | Arrive token => Some (arrive l token)
  | Resume i => resume l i
  end.

(** A schedule, action after action; [None] when it resumes a build that
    is not there. *)
Fixpoint run (l : Loop) (acts : list Action) : option Loop :=
  match acts with
  | [] => Some l
  | a :: rest =>
      match step l a with
      | Some l' => run l' rest
      | None => None
      end
  end.

(** A freshly started process. *)
Definition boot : Loop := mkLoop init_state [] [].

(** The states the process can be in. *)
Definition reachable (l : Loop) : Prop := exists acts, run boot acts = Some l.

(** The number of builds that have started and not ended. *)
Definition builds_in_flight (l : Loop) : nat := List.length (tasks l).

End Server.

End EventLoop.

(* ================================================================== *)
(** * Notions the statements below are phrased in *)
(* ================================================================== *)

(** A band is usable when [min < ideal[0] <= ideal[1] < max]. *)
Definition wf_band (band : Band) : Prop :=
  b_min band < b_ideal0 band /\ b_ideal0 band <= b_ideal1 band /\ b_ideal1 band < b_max band.

(** A value inside the inner range of a band. *)
Definition in_band_ideal (x : R) (band : Band) : Prop :=
  b_ideal0 band <= x <= b_ideal1 band.

(** The measurements a profile holds for ideal: inside the three inner
    ranges of a banded profile; for a profile with target and tolerance,
    which has no plateau, the target itself. *)
Definition in_ideal_range (P : Pref) (g : Gender) (m : Meas) : Prop :=
  match g, meas_bands P with
  | Male, Some bs =>
      in_band_ideal (m_b m) (bands_b bs) /\
      in_band_ideal (m_w m) (bands_w bs) /\
      in_band_ideal (m_h m) (bands_h bs)
  | _, _ =>
      match meas_target P, meas_tol P with
      | Some t, Some _ => m_b m = m_b t /\ m_w m = m_w t /\ m_h m = m_h t
      | _, _ => False
      end
  end.

(** ** Worlds and configurations the examples run in *)

(** A world in which nothing is reachable: every embedding and every
    fetch fails, the storage lists nothing. *)
Definition dead_env : Env :=
  mkEnv (fun _ _ => inl "image_fetch_failed:404"%string)
        (fun _ _ => inl "404"%string)
        (fun _ _ => NetworkError "ECONNREFUSED")
        (fun _ _ => inr [])
        (fun _ => inr [])
        (fun _ _ => 4660%N)
        (fun urls => urls).

Definition test_config (light : bool) : Config :=
  mkConfig light "secret" "cloud" "key" "s3cr3t" "admin"
           (RefList ["Reference Female A"; "Reference Male A"]%string)
           40 2 "hf_key" "".

(** A submission with one photo and nothing else. *)
Definition bare_request : Request :=
  mkRequest "Bearer secret" ["https://cdn.example/p1.jpg"%string] None None None None.

(** Scenario 1 of the specification: three photos, female, 177 cm,
    82-60-88. *)
Definition scenario1_request : Request :=
  mkRequest "Bearer secret"
            ["https://cdn.example/p1.jpg"; "https://cdn.example/p2.jpg";
             "https://cdn.example/p3.jpg"]%string
            (Some "female"%string) (Some 177) None (Some "82-60-88"%string).

(** A cache of the hosted-inference server with one group, and a cache of
    a centroid server with one group. *)
Definition hf_loaded : HF.St :=
  mkState [] []
          [HF.mkCluster "Reference Female A" Female
                        ["https://cdn.example/ref1.jpg"%string] [[Some 1; Some 0]]]
          [].

Definition centroid_loaded : Centroid.St :=
  mkState [] []
          [Centroid.mkCluster "Reference Female A" Female 1 [1; 0]]
          [].

(** A cache of the hosted-inference server with a female, a male and an
    untagged group. *)
Definition hf_female_group : HF.Cluster :=
  HF.mkCluster "Reference Female A" Female ["https://cdn.example/f1.jpg"%string]
               [[Some 1; Some 0]].
Definition hf_male_group : HF.Cluster :=
  HF.mkCluster "Reference Male A" Male ["https://cdn.example/m1.jpg"%string]
               [[Some 0; Some 1]].
Definition hf_untagged_group : HF.Cluster :=
  HF.mkCluster "Reference Kids" Unknown ["https://cdn.example/k1.jpg"%string]
               [[Some 1; Some 1]].

Definition hf_mixed : HF.St :=
  mkState [] [] [hf_female_group; hf_male_group; hf_untagged_group] [].

(** ** Retries of one back end, as the statements describe them *)

(** How [tryEmbed] reads the outcome of one [fetch]. *)
Inductive Outcome :=
| Success (vec : NVec)     (* 2xx with a JSON body *)
| Transient                (* 500, 502, 503 or 504 *)
| Fatal.                   (* anything else *)

Definition classify (r : FetchResult) : Outcome :=
  match r with
  | NetworkError _ => Fatal
  | Resp status body _ =>
      if HF.status_ok status then
        match body with
        | JInvalid => Fatal
        | data => Success (HF.poolToVector data)
        end
      else if HF.transient status then Transient
      else Fatal
  end.

(** The calls [tryEmbed] has made on a route before its i-th try: the
    tries 1 .. i-1, each followed by a pause of 400 ms times its number. *)
Definition trace_before (route : string) (i : nat) : History :=
  flat_map (fun j => [EvPost route; EvSleep (400 * j)]) (seq 1 (i - 1)).

(** What the route answers to the i-th try of [tryEmbed] started in [s]. *)
Definition attempt_reply {C} (E : Env) (route : string) (s : State C) (i : nat)
    : FetchResult :=
  post_reply E (history s ++ trace_before route i) route.

(** The routes posted to, in order. *)
Fixpoint posted_routes (h : History) : list string :=
  match h with
  | [] => []
  | EvPost route :: rest => route :: posted_routes rest
  | _ :: rest => posted_routes rest
  end.

(** The pauses taken, in order. *)
Fixpoint pauses (h : History) : list nat :=
  match h with
  | [] => []
  | EvSleep ms :: rest => ms :: pauses rest
  | _ :: rest => pauses rest
  end.

(** [k_1] posts to the first route, then [k_2] to the second, ... *)
Fixpoint visits (routes : list string) (ks : list nat) : list string :=
  match routes, ks with
  | route :: routes', k :: ks' => (repeat route k ++ visits routes' ks')%list
  | _, _ => []
  end.

Definition is_inl {A B} (x : A + B) : Prop :=
  match x with inl _ => True | inr _ => False end.

Definition is_inr {A B} (x : A + B) : Prop :=
  match x with inl _ => False | inr _ => True end.

(** A world whose inference routes answer 503 to the first two posts and
    a vector afterwards, and a world whose routes refuse the key (401). *)
Definition flaky_env : Env :=
  mkEnv (fun _ _ => inl "unused"%string)
        (fun _ _ => inr "bytes"%string)
        (fun h _ => if (List.length (posted_routes h) <? 2)%nat
                    then Resp 503 JInvalid "loading"
                    else Resp 200 (JVector [Some 1; Some 0]) "")
        (fun _ _ => inr [])
        (fun _ => inr [])
        (fun _ _ => 4660%N)
        (fun urls => urls).

Definition refusing_env : Env :=
  mkEnv (fun _ _ => inl "unused"%string)
        (fun _ _ => inr "bytes"%string)
        (fun _ _ => Resp 401 JInvalid "Invalid credentials")
        (fun _ _ => inr [])
        (fun _ => inr [])
        (fun _ _ => 4660%N)
        (fun urls => urls).

(** ** A cache build, as the statements describe it *)

(** The urls a pool works through, in the order its embeddings complete;
    none when the pool has no worker. *)
Definition pool_queue (E : Env) (cfg : Config) (urls : list string) : list string :=
  match Nat.min (MAX_EMBEDS_CONCURRENCY cfg) (List.length urls) with
  | O => []
  | _ => completion_order E urls
  end.

(** The state after one call of [embedOne] on [u]. *)
Definition after_embed (u : string) (s : Centroid.St) : Centroid.St :=
  mkState (history s ++ [EvEmbed (resized_url u)]) (console s) (clusters s) (embedCache s).

(** The images of a queue that embed, with the state the run ends in:
    every url is tried, a vector that comes back is kept, a failure is
    written to the console. *)
Fixpoint pool_successes (E : Env) (fname : string) (queue : list string)
    (s : Centroid.St) : list Vec * Centroid.St :=
  match queue with
  | [] => ([], s)
  | u :: rest =>
      match embed_reply E (history s) (resized_url u) with
      | inr vec =>
          let '(vs, s') := pool_successes E fname rest (after_embed u s) in
          (vec :: vs, s')
      | inl e =>
          pool_successes E fname rest
            (mkState (history s ++ [EvEmbed (resized_url u)])
                     (console s ++ [LogError "embed_fail" [fname; u; e]])
                     (clusters s) (embedCache s))
      end
  end.

(** The sum of the cells [i] of some vectors. *)
Definition sum_cells (vs : list Vec) (i : nat) : R :=
  fold_right Rplus 0 (map (fun vec => nth i vec 0) vs).

(** The dimension-wise arithmetic mean of vectors of dimension [d]: the
    vector sum divided by their number. *)
Definition mean_vec (vs : list Vec) (d : nat) : Vec :=
  map (fun i => sum_cells vs i / INR (List.length vs)) (seq 0 d).

(** A group as a build leaves it: the folder was listed, the pool ran over
    its first [MAX_REFS_PER_FOLDER] urls, [vs] are the vectors of the
    images that embedded, there is at least one, [size] counts them and
    [centroid] is their mean. *)
Definition built_from (E : Env) (cfg : Config) (c : Centroid.Cluster) : Prop :=
  exists (s0 s1 s2 : Centroid.St) (urlsAll : list string) (vs : list Vec),
    Centroid.searchFolderAssets E (Centroid.label c) s0 = (inr urlsAll, s1) /\
    pool_successes E (Centroid.label c)
                   (pool_queue E cfg (firstn (MAX_REFS_PER_FOLDER cfg) urlsAll)) s1
      = (vs, s2) /\
    vs <> [] /\
    Centroid.size c = List.length vs /\
    Centroid.gender_tag c = inferGenderFromFolder (Centroid.label c) /\
    (forall d, Forall (fun vec => List.length vec = d) vs ->
               Centroid.centroid c = mean_vec vs d).

(** Scenario 4 of the specification: one folder with two images, the
    second of which does not embed. *)
Definition scenario4_env : Env :=
  mkEnv (fun _ u => if String.eqb u "https://cdn.example/a1.jpg"
                    then inr [0.6; 0.8] else inl "image_fetch_failed:404"%string)
        (fun _ _ => inl "404"%string)
        (fun _ _ => NetworkError "unused")
        (fun _ folder => inr ["https://cdn.example/a1.jpg"; "https://cdn.example/a2.jpg"]%string)
        (fun _ => inr ["Reference Female A"%string])
        (fun _ _ => 4660%N)
        (fun urls => rev urls).

Definition scenario4_config : Config :=
  mkConfig false "secret" "cloud" "key" "s3cr3t" "admin"
           (RefList ["Reference Female A"%string]) 40 2 "" "".

(** A storage that fails to list the first of two folders. *)
Definition listing_fails_env : Env :=
  mkEnv (fun _ _ => inr [1; 0])
        (fun _ _ => inr "bytes"%string)
        (fun _ _ => NetworkError "unused")
        (fun _ folder => if String.eqb folder "Reference Female A"
                         then inl "Rate limit exceeded"%string
                         else inr ["https://cdn.example/m1.jpg"%string])
        (fun _ => inr ["Reference Female A"; "Reference Male A"]%string)
        (fun _ _ => 4660%N)
        (fun urls => urls).

(** One fold of the streaming sum (part_000 161-162): the first vector
    sizes the accumulator. *)
Definition fold_step (centroid : option Vec) (vec : Vec) : option Vec :=
  Some (add_into (match centroid with
                  | None => repeat 0 (List.length vec)
                  | Some c => c
                  end) vec).

(** The group a pool run leaves behind: none without a success. *)
Definition group_of (fname : string) (vs : list Vec) : list Centroid.Cluster :=
  match fold_left fold_step vs None, List.length vs with
  | Some c, S n =>
      [Centroid.mkCluster fname (inferGenderFromFolder fname) (S n) (div_all c (S n))]
  | _, _ => []
  end.

(* ================================================================== *)
(** * The other endpoints *)
(* ================================================================== *)

(** ** More of the string methods *)

(** [s.split(sep)] for a separator of one character: the pieces between
    the separators, at least one. *)
Fixpoint split_on (sep : ascii) (s : string) : list string :=
  match s with
  | EmptyString => [EmptyString]
  | String c r =>
      if Ascii.eqb c sep then EmptyString :: split_on sep r
      else
        match split_on sep r with
        | piece :: pieces => String c piece :: pieces
        | [] => [String c EmptyString]
        end
  end.

(** [s.trim()], over the ASCII white space. *)
Fixpoint trim_start (s : string) : string :=
  match s with
  | EmptyString => EmptyString
  | String c r => if is_space c then trim_start r else s
  end.

Fixpoint trim_end (s : string) : string :=
  match s with
  | EmptyString => EmptyString
  | String c r =>
      match trim_end r with
      | EmptyString => if is_space c then EmptyString else String c EmptyString
      | r' => String c r'
      end
  end.

Definition trim (s : string) : string := trim_end (trim_start s).

(** ** [POST /evaluate_mock] (part_000 357-371, part_002 529-547) *)

Module Mock.

(** The [photos] field of the body, as the handlers look at it. *)
Inductive PhotosField :=
| PhotosArray (items : list string)    (* an array, of strings *)
| PhotosString (s : string)            (* a string *)
| PhotosOther.                         (* absent, or any other value *)

(** The JSON answered: [details] holds one entry
    [{ url, desc: "provided", best_similarity: 0 }] per url listed here;
    [parsed_measurements_cm] is always [null]. *)
Record MockBody := mkMockBody {
  mock_decision : Decision;
  mock_confidence : R;
  mock_reason : string;
  mock_details : list string;
  details_text : string
}.

(** [.map(s => s.trim()).filter(Boolean)] *)
Definition clean (items : list string) : list string :=
  filter nonempty (map trim items).

(** part_000 (357-371): an array is cleaned like the pieces of a string. *)
Definition evaluate_mock_000 (photos : PhotosField) : MockBody :=
  let photos := match photos with
                | PhotosArray items => items
                | PhotosString s => split_on "," s
                | PhotosOther => []
                end in
  let photos := clean photos in
  mkMockBody review 0.75 "Endpoint OK; mock evaluation response."
             (firstn 2 photos) (join "; " (firstn 2 photos)).

(** part_002 (529-547): only a string is split and cleaned. *)
Definition evaluate_mock_002 (photos : PhotosField) : MockBody :=
  let photos := match photos with
                | PhotosString s => PhotosArray (clean (split_on "," s))
                | other => other
                end in
  let detailsArr := match photos with
                    | PhotosArray items => firstn 2 items
                    | _ => []
                    end in
  mkMockBody review 0.75 "Endpoint OK; mock evaluation response."
             detailsArr (join "; " detailsArr).

End Mock.

(** ** [GET /admin/test_embed] *)

(** The answers of [GET /admin/test_embed]. *)
Inductive TestResponse :=
| TestUnauthorized               (* 401 *)
| TestSkipped                    (* { ok, skipped: "LIGHT_MODE" } *)
| TestMissingUrl                 (* 400, "missing ?url=" *)
| TestOk (dim : nat)             (* { ok, dim } *)
| TestError (msg : string).      (* 500 *)

Module CentroidAdmin.

Section Server.

Variable E : Env.
Variable cfg : Config.
Variable v : Variant.

(** part_000 (196-207) and part_002 (351-361); [url] is [None] when the
    query has none. *)
Definition test_embed (token : string) (url : option string)
    : M Centroid.St TestResponse :=
  if negb (String.eqb token (ADMIN_TOKEN cfg)) then ret TestUnauthorized
  else if Centroid.light cfg v then ret TestSkipped
  else
    match url with
    | None | Some EmptyString => ret TestMissingUrl
    | Some u =>
        try_catch (vec <- Centroid.embedOne E u ;; ret (TestOk (List.length vec)))
                  (fun e => ret (TestError e))
    end.

End Server.

End CentroidAdmin.

Module HFAdmin.

Section Server.

Variable E : Env.
Variable cfg : Config.

(** part_001 (231-241) *)
Definition test_embed (token : string) (url : option string)
    : M HF.St TestResponse :=
  if negb (String.eqb token (ADMIN_TOKEN cfg)) then ret TestUnauthorized
  else
    match url with
    | None | Some EmptyString => ret TestMissingUrl
    | Some u =>
        try_catch (vec <- HF.getEmbedding E cfg u ;; ret (TestOk (List.length vec)))
                  (fun e => ret (TestError e))
    end.

End Server.

End HFAdmin.

(* ================================================================== *)
(** * More notions the statements are phrased in *)
(* ================================================================== *)

(** A vector scaled by [k]. *)
Definition scale_vec (k : R) (a : Vec) : Vec := map (Rmult k) a.

(** The decisions in their order: reject, review, proceed. *)
Definition decision_rank (d : Decision) : nat :=
  match d with
  | reject => 0
  | review => 1
  | proceed => 2
  end.

(** A character that ends a number of [parseMeas]: no digit and no dot. *)
Definition ends_number (c : ascii) : bool :=
  negb (is_digit c) && negb (Ascii.eqb c ".").

(** A string without a digit. *)
Fixpoint digit_free (s : string) : bool :=
  match s with
  | EmptyString => true
  | String c r => negb (is_digit c) && digit_free r
  end.

(** A separator between two numbers: it starts with a character that
    ends a number and holds no digit. *)
Definition separates (s : string) : bool :=
  match s with
  | EmptyString => false
  | String c _ => ends_number c && digit_free s
  end.

(** What may follow the last number: nothing, or a character that ends a
    number and then anything. *)
Definition closes_number (s : string) : bool :=
  match s with
  | EmptyString => true
  | String c _ => ends_number c
  end.

(** The sum of [f] over a list. *)
Definition sum_over {A} (f : A -> R) (l : list A) : R :=
  fold_right (fun p acc => f p + acc) 0 l.

(** The similarity of an averaged photo vector to a reference group. *)
Definition group_similarity (avg : NVec) (c : Centroid.Cluster) : R :=
  cosine avg (lift_vec (Centroid.centroid c)).

(** A submission with another height. *)
Definition with_height (req : Request) (h : option R) : Request :=
  mkRequest (authorization req) (photos req) (gender req) h (age req) (measurements req).

(** [s.includes(c)] for one character. *)
Fixpoint has_char (c : ascii) (s : string) : bool :=
  match s with
  | EmptyString => false
  | String a r => Ascii.eqb a c || has_char c r
  end.

(** Every reference vector of the groups is the cache entry of one of
    the urls of its group. *)
Definition vectors_cached (cache : list (string * NVec)) (groups : list HF.Cluster) : Prop :=
  forall c, In c groups ->
  forall vec, In vec (HF.vecs c) ->
  exists u, In u (HF.urls c) /\ HF.cache_get u cache = Some vec.

(** ** More worlds the examples run in *)

(** A process of the hosted-inference server that has embedded one url
    and holds no reference group. *)
Definition hf_warm : HF.St :=
  mkState [] [] [] [("https://cdn.example/p1.jpg"%string, [Some 1; Some 0])].

(** A world whose embedder and inference routes always answer. *)
Definition live_env : Env :=
  mkEnv (fun _ _ => inr [0.6; 0.8])
        (fun _ _ => inr "bytes"%string)
        (fun _ _ => Resp 200 (JVector [Some 0.6; Some 0.8]) "")
        (fun _ _ => inr ["https://cdn.example/a1.jpg"%string])
        (fun _ => inr ["Reference Female A"%string])
        (fun _ _ => 4660%N)
        (fun urls => urls).

(* ================================================================== *)
(** * Properties *)
(* ================================================================== *)

(** ** Real-number facts used below *)

Lemma exp_neg_sq_le1 u : exp (- (u ^ 2)) <= 1.
Proof.
  rewrite <- exp_0. destruct (Req_dec (u^2) 0) as [H|H].
  - rewrite H, Ropp_0. lra.
  - left. apply exp_increasing. assert (0 <= u^2) by (apply pow2_ge_0). lra.
Qed.

Lemma exp_neg_sq_bound u : exp (- (u ^ 2)) * (1 + u ^ 2) <= 1.
Proof.
  pose proof (exp_ineq1_le (u ^ 2)) as H.
  pose proof (exp_pos (- (u^2))) as Hp.
  pose proof (exp_pos (u^2)) as Hq.
  assert (E : exp (- (u^2)) * exp (u^2) = 1).
  { rewrite <- exp_plus. replace (- u^2 + u^2) with 0 by ring. apply exp_0. }
  nra.
Qed.

Lemma one_minus_exp_neg z : 1 - exp (- z) <= z.
Proof. pose proof (exp_ineq1_le (- z)). lra. Qed.

Lemma gauss_lipschitz u v : u <= v -> exp (- (u ^ 2)) - exp (- (v ^ 2)) <= 5 / 3 * (v - u).
Proof.
  intros Huv.
  pose proof (exp_neg_sq_le1 u) as Hu1.
  pose proof (exp_pos (- (u ^ 2))) as Hu0.
  pose proof (exp_pos (- (v ^ 2))) as Hv0.
  destruct (Rle_dec 1 (v - u)) as [Hbig|Hsmall].
  - lra.
  - assert (Hd : v - u < 1) by lra.
    destruct (Rle_dec (v ^ 2) (u ^ 2)) as [Hle|Hgt].
    + assert (exp (- (u ^ 2)) <= exp (- (v ^ 2))).
      { destruct (Req_dec (u^2) (v^2)) as [->|Hne]; [lra|].
        left. apply exp_increasing. lra. }
      lra.
    + assert (Hz : exp (- (v ^ 2)) = exp (- (u ^ 2)) * exp (- (v ^ 2 - u ^ 2))).
      { rewrite <- exp_plus. f_equal. ring. }
      pose proof (one_minus_exp_neg (v ^ 2 - u ^ 2)) as H1.
      pose proof (exp_neg_sq_bound u) as Hb.
      assert (Hstep : exp (- (u ^ 2)) - exp (- (v ^ 2)) <= exp (- (u ^ 2)) * (v ^ 2 - u ^ 2)).
      { rewrite Hz. nra. }
      (* exp(-u^2) * (v-u) * (v+u) <= 5/3 (v-u) *)
      assert (Hk : exp (- (u ^ 2)) * (v + u) <= 5 / 3).
      { assert (Hvu : v + u <= 2 * Rabs u + 1).
        { unfold Rabs. destruct (Rcase_abs u); lra. }
        assert (Habs : 3 * (2 * Rabs u + 1) <= 5 * (1 + u ^ 2)).
        { pose proof (pow2_ge_0 (u - 3 / 5)). pose proof (pow2_ge_0 (u + 3 / 5)).
          unfold Rabs. destruct (Rcase_abs u); lra. }
        assert (H2 : exp (- (u ^ 2)) * (v + u) <= exp (- (u ^ 2)) * (2 * Rabs u + 1)).
        { apply Rmult_le_compat_l; lra. }
        assert (H3 : exp (- (u ^ 2)) * (3 * (2 * Rabs u + 1))
                     <= exp (- (u ^ 2)) * (5 * (1 + u ^ 2))).
        { apply Rmult_le_compat_l; lra. }
        lra. }
      assert (H4 : exp (- (u ^ 2)) * (v ^ 2 - u ^ 2)
                   = (exp (- (u ^ 2)) * (v + u)) * (v - u)) by ring.
      assert (H5 : (exp (- (u ^ 2)) * (v + u)) * (v - u) <= 5 / 3 * (v - u)).
      { apply Rmult_le_compat_r; lra. }
      lra.
Qed.

(** ** Facts about [clamp01] *)

Lemma clamp01_bounds x : 0 <= clamp01 x <= 1.
Proof.
  unfold clamp01, clamp, Rmax, Rmin.
  destruct (Rle_dec 1 x); destruct (Rle_dec 0 _); lra.
Qed.

Lemma clamp01_id x : 0 <= x <= 1 -> clamp01 x = x.
Proof.
  intros H. unfold clamp01, clamp, Rmax, Rmin.
  destruct (Rle_dec 1 x); destruct (Rle_dec 0 _); lra.
Qed.

Lemma clamp01_mono x y : x <= y -> clamp01 x <= clamp01 y.
Proof.
  intros H. unfold clamp01, clamp, Rmax, Rmin.
  destruct (Rle_dec 1 x); destruct (Rle_dec 1 y);
    repeat match goal with |- context [Rle_dec ?a ?b] => destruct (Rle_dec a b) end; lra.
Qed.

Lemma clamp01_lipschitz x y : Rabs (clamp01 x - clamp01 y) <= Rabs (x - y).
Proof.
  unfold clamp01, clamp, Rmax, Rmin.
  destruct (Rle_dec 1 x); destruct (Rle_dec 1 y);
    repeat match goal with |- context [Rle_dec ?a ?b] => destruct (Rle_dec a b) end;
    unfold Rabs;
    repeat match goal with |- context [Rcase_abs ?a] => destruct (Rcase_abs a) end; lra.
Qed.

Lemma clamp01_ge_one x : 1 <= x -> clamp01 x = 1.
Proof.
  intros H. unfold clamp01, clamp, Rmax, Rmin.
  destruct (Rle_dec 1 x); destruct (Rle_dec 0 _); lra.
Qed.

(** ** The height score *)

Section HeightScore.

Variable p : HeightPref.
Hypothesis wf : wf_height p.

Lemma height_bonus_bounds x : 0 < height_bonus p x <= 0.15.
Proof.
  unfold height_bonus. cbv zeta.
  set (u := (x - h_target p) / ((h_max p - h_min p) / 2 / 2)).
  pose proof (exp_pos (- (u ^ 2))). pose proof (exp_neg_sq_le1 u). lra.
Qed.

Lemma heightScore_below x : x <= h_min p -> heightScoreAt p x = 0.
Proof.
  intros H. unfold heightScoreAt, heightScoreFactory.
  destruct (Req_dec_T x 0); [reflexivity|].
  destruct (Rle_dec x (h_min p)); [reflexivity|lra].
Qed.

Lemma heightScore_above x : h_max p <= x -> heightScoreAt p x = 1.
Proof.
  destruct wf as [H0 Hlt]. intros H. unfold heightScoreAt, heightScoreFactory.
  destruct (Req_dec_T x 0); [lra|].
  destruct (Rle_dec x (h_min p)); [lra|].
  destruct (Rle_dec (h_max p) x); [reflexivity|lra].
Qed.

Lemma heightScore_inside x :
  h_min p < x < h_max p ->
  heightScoreAt p x = clamp01 (height_s p x + height_bonus p x).
Proof.
  destruct wf as [H0 Hlt]. intros H. unfold heightScoreAt, heightScoreFactory.
  destruct (Req_dec_T x 0); [lra|].
  destruct (Rle_dec x (h_min p)); [lra|].
  destruct (Rle_dec (h_max p) x); [lra|reflexivity].
Qed.

Lemma heightScore_range x : 0 <= heightScoreAt p x <= 1.
Proof.
  unfold heightScoreAt, heightScoreFactory.
  destruct (Req_dec_T x 0); [lra|].
  destruct (Rle_dec x (h_min p)); [lra|].
  destruct (Rle_dec (h_max p) x); [lra|apply clamp01_bounds].
Qed.

Lemma height_s_range x : h_min p < x < h_max p -> 0 < height_s p x < 1.
Proof.
  destruct wf as [H0 Hlt]. intros H. unfold height_s.
  split.
  - apply Rdiv_lt_0_compat; lra.
  - apply Rmult_lt_reg_r with (h_max p - h_min p); [lra|].
    unfold Rdiv. rewrite Rmult_assoc, Rinv_l; lra.
Qed.

(** Between [min] and [max] the sum of ramp and bonus does not decrease:
    the bonus falls by at most [(y - x) / (max - min)]. *)
Lemma ramp_plus_bonus_mono x y :
  x <= y ->
  height_s p x + height_bonus p x <= height_s p y + height_bonus p y.
Proof.
  destruct wf as [H0 Hlt]. intros Hxy.
  unfold height_s, height_bonus. cbv zeta.
  set (D := h_max p - h_min p).
  assert (HD : 0 < D) by (unfold D; lra).
  set (u := (x - h_target p) / (D / 2 / 2)).
  set (w := (y - h_target p) / (D / 2 / 2)).
  assert (Hwu : w - u = 4 * (y - x) / D).
  { unfold u, w. field. lra. }
  assert (Huw : u <= w).
  { assert (0 <= 4 * (y - x) / D).
    { apply Rmult_le_pos; [lra|]. left. apply Rinv_0_lt_compat. exact HD. }
    lra. }
  pose proof (gauss_lipschitz u w Huw) as HL.
  assert (Hs : (y - h_min p) / D - (x - h_min p) / D = (y - x) / D).
  { field. lra. }
  assert (Hq : 5 / 3 * (w - u) * 0.15 = (y - x) / D).
  { rewrite Hwu. unfold Rdiv. lra. }
  lra.
Qed.

Lemma heightScore_mono x y : x <= y -> heightScoreAt p x <= heightScoreAt p y.
Proof.
  destruct wf as [H0 Hlt]. intros Hxy.
  destruct (Rle_dec x (h_min p)) as [Hx|Hx].
  - rewrite (heightScore_below x Hx). apply heightScore_range.
  - destruct (Rle_dec (h_max p) y) as [Hy|Hy].
    + rewrite (heightScore_above y Hy). apply heightScore_range.
    + rewrite (heightScore_inside x), (heightScore_inside y) by lra.
      apply clamp01_mono. apply ramp_plus_bonus_mono. exact Hxy.
Qed.

Lemma height_ramp_mono x y : x <= y -> height_ramp p x <= height_ramp p y.
Proof.
  destruct wf as [H0 Hlt]. intros Hxy. unfold height_ramp.
  destruct (Rle_dec x (h_min p)); destruct (Rle_dec y (h_min p));
  destruct (Rle_dec (h_max p) x); destruct (Rle_dec (h_max p) y); try lra;
  try (pose proof (height_s_range x ltac:(lra)));
  try (pose proof (height_s_range y ltac:(lra))); try lra.
  unfold height_s. apply Rmult_le_compat_r; [|lra].
  left. apply Rinv_0_lt_compat. lra.
Qed.

(** The score is the ramp plus at most the bonus. *)
Lemma heightScore_near_ramp x :
  height_ramp p x <= heightScoreAt p x <= height_ramp p x + 0.15.
Proof.
  destruct wf as [H0 Hlt]. unfold height_ramp.
  destruct (Rle_dec x (h_min p)) as [Hx|Hx].
  - rewrite heightScore_below by exact Hx. lra.
  - destruct (Rle_dec (h_max p) x) as [Hy|Hy].
    + rewrite heightScore_above by exact Hy. lra.
    + rewrite heightScore_inside by lra.
      pose proof (height_s_range x ltac:(lra)) as Hs.
      pose proof (height_bonus_bounds x) as Hb.
      pose proof (clamp01_bounds (height_s p x + height_bonus p x)) as Hc.
      unfold clamp01, clamp, Rmax, Rmin in *.
      destruct (Rle_dec 1 (height_s p x + height_bonus p x));
        destruct (Rle_dec 0 _); lra.
Qed.

End HeightScore.

Lemma continuity_pt_clamp01 (k : R -> R) x :
  continuity_pt k x -> continuity_pt (fun y => clamp01 (k y)) x.
Proof.
  unfold continuity_pt, continue_in, limit1_in, limit_in. simpl.
  intros Hk eps Heps. destruct (Hk eps Heps) as [alp [Halp Hd]].
  exists alp. split; [exact Halp|].
  intros y Hy. specialize (Hd y Hy).
  unfold Rdist in *. eapply Rle_lt_trans; [apply clamp01_lipschitz|exact Hd].
Qed.

Lemma continuity_pt_sum_bonus (p : HeightPref) x :
  continuity_pt (fun y => height_s p y + height_bonus p y) x.
Proof.
  unfold height_s, height_bonus. cbv zeta. reg.
Qed.

Lemma heightScore_continuous (p : HeightPref) x :
  wf_height p -> x <> h_min p -> continuity_pt (heightScoreAt p) x.
Proof.
  intros wf Hne. destruct wf as [H0 Hlt].
  destruct (Rlt_dec x (h_min p)) as [Hlo|Hlo].
  - (* below the minimum the score is 0 all around *)
    apply continuity_pt_locally_ext with (f := fun _ => 0) (a := h_min p - x); [lra| |].
    + intros y Hy. symmetry. apply heightScore_below.
      unfold Rdist in Hy. apply Rabs_def2 in Hy. lra.
    + apply continuity_pt_const. intros a b. reflexivity.
  - destruct (Rlt_dec (h_max p) x) as [Hhi|Hhi].
    + (* above the maximum it is 1 all around *)
      apply continuity_pt_locally_ext with (f := fun _ => 1) (a := x - h_max p); [lra| |].
      * intros y Hy. symmetry. apply heightScore_above; [split; lra|].
        unfold Rdist in Hy. apply Rabs_def2 in Hy. lra.
      * apply continuity_pt_const. intros a b. reflexivity.
    + destruct (Req_dec x (h_max p)) as [Heq|Hmax].
      * (* at the maximum: from the left the score is at least the ramp *)
        subst x.
        unfold continuity_pt, continue_in, limit1_in, limit_in. simpl.
        intros eps Heps.
        set (D := h_max p - h_min p).
        assert (HD : 0 < D) by (unfold D; lra).
        exists (Rmin D (eps * D)). split.
        { apply Rmin_pos; [exact HD|]. apply Rmult_lt_0_compat; assumption. }
        intros y [_ Hy]. unfold Rdist in *.
        assert (Hy1 : Rabs (y - h_max p) < D).
        { eapply Rlt_le_trans; [exact Hy|apply Rmin_l]. }
        assert (Hy2 : Rabs (y - h_max p) < eps * D).
        { eapply Rlt_le_trans; [exact Hy|apply Rmin_r]. }
        apply Rabs_def2 in Hy1. apply Rabs_def2 in Hy2.
        rewrite (heightScore_above p (conj H0 Hlt) (h_max p)) by lra.
        destruct (Rle_dec (h_max p) y) as [Hge|Hlt'].
        { rewrite (heightScore_above p (conj H0 Hlt) y Hge).
          replace (1 - 1) with 0 by ring. rewrite Rabs_R0. exact Heps. }
        assert (Hin : h_min p < y < h_max p) by (unfold D in *; lra).
        pose proof (heightScore_near_ramp p (conj H0 Hlt) y) as [Hr _].
        pose proof (heightScore_range p y) as [_ Hle1].
        unfold height_ramp in Hr.
        destruct (Rle_dec y (h_min p)); [lra|].
        destruct (Rle_dec (h_max p) y); [lra|].
        assert (Hs : 1 - height_s p y = (h_max p - y) / D).
        { unfold height_s, D. field. lra. }
        assert (Hq : (h_max p - y) / D < eps).
        { apply Rmult_lt_reg_r with D; [exact HD|].
          unfold Rdiv. rewrite Rmult_assoc, Rinv_l; lra. }
        apply Rabs_def1; lra.
      * (* strictly inside: the clamped sum of ramp and bonus *)
        assert (Hin : h_min p < x < h_max p) by lra.
        apply continuity_pt_locally_ext
          with (f := fun y => clamp01 (height_s p y + height_bonus p y))
               (a := Rmin (x - h_min p) (h_max p - x)).
        { apply Rmin_pos; lra. }
        { intros y Hy. symmetry. apply heightScore_inside; [split; lra|].
          unfold Rdist in Hy.
          assert (Rabs (y - x) < x - h_min p)
            by (eapply Rlt_le_trans; [exact Hy|apply Rmin_l]).
          assert (Rabs (y - x) < h_max p - x)
            by (eapply Rlt_le_trans; [exact Hy|apply Rmin_r]).
          repeat match goal with H : Rabs _ < _ |- _ => apply Rabs_def2 in H end. lra. }
        { apply continuity_pt_clamp01. apply continuity_pt_sum_bonus. }
Qed.

(** The ramp itself has no break. *)
Lemma height_ramp_continuous (p : HeightPref) x :
  wf_height p -> continuity_pt (height_ramp p) x.
Proof.
  intros [H0 Hlt].
  assert (Hfun : forall y, height_ramp p y = clamp01 (height_s p y)).
  { intros y. unfold height_ramp.
    destruct (Rle_dec y (h_min p)) as [Hy|Hy].
    - unfold clamp01, clamp, Rmax, Rmin.
      assert (height_s p y <= 0).
      { unfold height_s, Rdiv.
        assert (0 < / (h_max p - h_min p)) by (apply Rinv_0_lt_compat; lra).
        nra. }
      destruct (Rle_dec 1 (height_s p y)); destruct (Rle_dec 0 _); lra.
    - destruct (Rle_dec (h_max p) y) as [Hz|Hz].
      + symmetry. apply clamp01_ge_one.
        unfold height_s. apply Rmult_le_reg_r with (h_max p - h_min p); [lra|].
        unfold Rdiv. rewrite Rmult_assoc, Rinv_l; lra.
      + symmetry. apply clamp01_id.
        pose proof (height_s_range p (conj H0 Hlt) y). lra. }
  apply continuity_pt_locally_ext with (f := fun y => clamp01 (height_s p y)) (a := 1);
    [lra| |].
  - intros y _. symmetry. apply Hfun.
  - apply continuity_pt_clamp01. unfold height_s. reg.
Qed.

(** Right of the minimum the score stays above a positive constant, while
    it is 0 at the minimum: the bonus does not vanish there. *)
Lemma heightScore_jump (p : HeightPref) :
  wf_height p ->
  exists eps, 0 < eps /\
    forall alp, 0 < alp ->
      exists y, Rabs (y - h_min p) < alp /\
                eps <= Rabs (heightScoreAt p y - heightScoreAt p (h_min p)).
Proof.
  intros [H0 Hlt].
  set (D := h_max p - h_min p).
  assert (HD : 0 < D) by (unfold D; lra).
  set (c := D / 2 / 2).
  assert (Hc : 0 < c) by (unfold c; lra).
  set (K := ((Rabs (h_min p - h_target p) + D) / c) ^ 2).
  exists (0.15 * exp (- K)). split.
  { pose proof (exp_pos (- K)). lra. }
  intros alp Halp.
  set (d := Rmin (alp / 2) (D / 2)).
  assert (Hd0 : 0 < d) by (apply Rmin_pos; lra).
  assert (Hd1 : d <= alp / 2) by apply Rmin_l.
  assert (Hd2 : d <= D / 2) by apply Rmin_r.
  exists (h_min p + d). split.
  { replace (h_min p + d - h_min p) with d by ring.
    rewrite Rabs_pos_eq; lra. }
  rewrite (heightScore_below p (h_min p)) by lra.
  rewrite (heightScore_inside p (conj H0 Hlt)) by (unfold D in *; lra).
  rewrite Rminus_0_r.
  pose proof (height_s_range p (conj H0 Hlt) (h_min p + d) ltac:(unfold D in *; lra)) as Hs.
  assert (Hb : 0.15 * exp (- K) <= height_bonus p (h_min p + d)).
  { unfold height_bonus. cbv zeta. fold D. fold c.
    set (u := (h_min p + d - h_target p) / c).
    assert (Hu : u ^ 2 <= K).
    { unfold K. rewrite <- (pow2_abs u). apply pow_incr. split; [apply Rabs_pos|].
      unfold u, Rdiv. rewrite Rabs_mult, (Rabs_pos_eq (/ c)).
      2:{ left. apply Rinv_0_lt_compat. exact Hc. }
      apply Rmult_le_compat_r; [left; apply Rinv_0_lt_compat; exact Hc|].
      replace (h_min p + d - h_target p) with ((h_min p - h_target p) + d) by ring.
      eapply Rle_trans; [apply Rabs_triang|]. rewrite (Rabs_pos_eq d); lra. }
    assert (exp (- K) <= exp (- (u ^ 2))).
    { destruct (Req_dec (u ^ 2) K) as [->|Hne]; [lra|].
      left. apply exp_increasing. lra. }
    lra. }
  pose proof (height_bonus_bounds p (h_min p + d)) as Hbb.
  pose proof (exp_pos (- K)) as HK.
  rewrite Rabs_pos_eq by apply clamp01_bounds.
  unfold clamp01, clamp, Rmax, Rmin.
  destruct (Rle_dec 1 _); destruct (Rle_dec 0 _); lra.
Qed.

Lemma jump_not_continuous (f : R -> R) (x : R) :
  (exists eps, 0 < eps /\
     forall alp, 0 < alp -> exists y, Rabs (y - x) < alp /\ eps <= Rabs (f y - f x)) ->
  ~ continuity_pt f x.
Proof.
  intros [eps [Heps Hj]] Hc.
  unfold continuity_pt, continue_in, limit1_in, limit_in in Hc. simpl in Hc.
  destruct (Hc eps Heps) as [alp [Halp Hd]].
  destruct (Hj alp Halp) as [y [Hy Hbig]].
  destruct (Req_dec x y) as [Heq|Hne].
  - subst y. replace (f x - f x) with 0 in Hbig by ring. rewrite Rabs_R0 in Hbig. lra.
  - specialize (Hd y). unfold Rdist, D_x, no_cond in Hd.
    assert (Rabs (f y - f x) < eps) by (apply Hd; repeat split; assumption).
    lra.
Qed.

Lemma female_height_wf : wf_height female_height.
Proof. unfold wf_height, female_height. simpl. lra. Qed.

Lemma male_height_wf : wf_height male_height.
Proof. unfold wf_height, male_height. simpl. lra. Qed.

Lemma male_height_old_wf : wf_height male_height_old.
Proof. unfold wf_height, male_height_old. simpl. lra. Qed.

(** C4, as amended.  For a profile with [0 <= min < max] (all profiles of
    [PREFS] are such): a missing or non-numeric height scores 0; the score
    is 0 at or below the minimum and 1 at or above the maximum; it never
    decreases when the height grows, over the whole real line; it is
    continuous at every height other than the minimum; and it lies between
    the linear ramp and the ramp plus 0.15, being the clamped sum of ramp
    and bonus strictly between minimum and maximum, with a bonus in
    (0, 0.15]. *)
Theorem heightScore_shape (p : HeightPref) (Hwf : wf_height p) :
  heightScoreFactory p None = 0 /\
  (forall x, x <= h_min p -> heightScoreAt p x = 0) /\
  (forall x, h_max p <= x -> heightScoreAt p x = 1) /\
  (forall x y, x <= y -> heightScoreAt p x <= heightScoreAt p y) /\
  (forall x, x <> h_min p -> continuity_pt (heightScoreAt p) x) /\
  (forall x, continuity_pt (height_ramp p) x) /\
  (forall x, height_ramp p x <= heightScoreAt p x <= height_ramp p x + 0.15) /\
  (forall x, h_min p < x < h_max p ->
     heightScoreAt p x = clamp01 (height_ramp p x + height_bonus p x) /\
     0 < height_bonus p x <= 0.15).
Proof.
  split; [reflexivity|].
  split; [intros x; apply heightScore_below|].
  split; [intros x; apply heightScore_above; exact Hwf|].
  split; [intros x y; apply heightScore_mono; exact Hwf|].
  split; [intros x; apply heightScore_continuous; exact Hwf|].
  split; [intros x; apply height_ramp_continuous; exact Hwf|].
  split; [intros x; apply heightScore_near_ramp; exact Hwf|].
  intros x Hx. split; [|apply height_bonus_bounds].
  rewrite heightScore_inside by assumption.
  unfold height_ramp.
  destruct (Rle_dec x (h_min p)); [lra|].
  destruct (Rle_dec (h_max p) x); [lra|reflexivity].
Qed.

(** The female profile (172, 177, 182) meets the hypothesis of
    [heightScore_shape]; some of its values. *)
Lemma heightScore_shape_female :
  wf_height female_height /\
  heightScoreAt female_height 170 = 0 /\
  heightScoreAt female_height 172 = 0 /\
  heightScoreAt female_height 182 = 1 /\
  heightScoreAt female_height 190 = 1 /\
  heightScoreAt female_height 174 <= heightScoreAt female_height 180 /\
  continuity_pt (heightScoreAt female_height) 177 /\
  0.5 <= heightScoreAt female_height 177 <= 0.65.
Proof.
  pose proof (heightScore_shape female_height female_height_wf)
    as (_ & Hlo & Hhi & Hmono & Hcont & _ & Hramp & _).
  split; [exact female_height_wf|].
  split; [apply Hlo; simpl; lra|].
  split; [apply Hlo; simpl; lra|].
  split; [apply Hhi; simpl; lra|].
  split; [apply Hhi; simpl; lra|].
  split; [apply Hmono; lra|].
  split; [apply Hcont; simpl; lra|].
  specialize (Hramp 177). unfold height_ramp, height_s in Hramp. simpl in Hramp.
  destruct (Rle_dec 177 172); [lra|].
  destruct (Rle_dec 182 177); [lra|]. lra.
Defined.

(** C4, counterexample.  The score of the female profile is 0 at the
    minimum 172 and stays above a positive constant on every height just
    above it: the function is not continuous at the minimum. *)
Lemma heightScore_female_breaks_at_min :
  heightScoreAt female_height 172 = 0 /\
  exists eps, 0 < eps /\
    forall alp, 0 < alp ->
      exists y, Rabs (y - 172) < alp /\
                eps <= Rabs (heightScoreAt female_height y - heightScoreAt female_height 172).
Proof.
  split.
  - apply heightScore_below. simpl. lra.
  - exact (heightScore_jump female_height female_height_wf).
Qed.

(** In the terms of the library: no continuity at 172. *)
Lemma heightScore_female_not_continuous_at_min :
  ~ continuity_pt (heightScoreAt female_height) 172.
Proof.
  apply jump_not_continuous.
  exact (heightScore_jump female_height female_height_wf).
Qed.

(** ** Gender tag of a folder name *)

Lemma startsWith_cons a p s :
  startsWith (String a p) s = true ->
  exists s', s = String a s' /\ startsWith p s' = true.
Proof.
  destruct s as [|b s']; simpl; [discriminate|].
  intros H. apply andb_true_iff in H as [Hab Hp].
  apply Ascii.eqb_eq in Hab. subst b. exists s'. split; [reflexivity|exact Hp].
Qed.

Lemma includes_here p s : startsWith p s = true -> includes p s = true.
Proof. intros H. destruct s; simpl in *; rewrite H; reflexivity. Qed.

Lemma includes_later p c s : includes p s = true -> includes p (String c s) = true.
Proof.
  intros H.
  change (includes p (String c s)) with (startsWith p (String c s) || includes p s).
  rewrite H. apply orb_true_r.
Qed.

Lemma startsWith_female_male_later s :
  startsWith "female" s = true -> includes "male" s = true.
Proof.
  intros H.
  apply startsWith_cons in H as [s1 [-> H]].
  apply startsWith_cons in H as [s2 [-> H]].
  apply includes_later, includes_later, includes_here. exact H.
Qed.

(** A name that contains "female" contains "male" as well. *)
Lemma includes_female_male s :
  includes "female" s = true -> includes "male" s = true.
Proof.
  induction s as [|c s IH]; intros H.
  - simpl in H. discriminate.
  - change (includes "female" (String c s))
      with (startsWith "female" (String c s) || includes "female" s) in H.
    apply orb_true_iff in H as [H|H].
    + apply startsWith_female_male_later. exact H.
    + change (includes "male" (String c s))
        with (startsWith "male" (String c s) || includes "male" s).
      rewrite (IH H). apply orb_true_r.
Qed.

(** C5, as amended.  The tag is read off the lower-cased name alone:
    "female" when that contains "female", "male" when it contains "male"
    but not "female", "unknown" when it contains neither.  A name that
    contains "female" always contains "male" too, so a name matching both
    patterns is tagged "female", never "unknown". *)
Theorem inferGenderFromFolder_cases (name : string) :
  (includes "female" (toLowerCase name) = true ->
     inferGenderFromFolder name = Female) /\
  (includes "female" (toLowerCase name) = false ->
   includes "male" (toLowerCase name) = true ->
     inferGenderFromFolder name = Male) /\
  (includes "male" (toLowerCase name) = false ->
     inferGenderFromFolder name = Unknown) /\
  (includes "female" (toLowerCase name) = true ->
     includes "male" (toLowerCase name) = true) /\
  (inferGenderFromFolder name = Unknown <->
     includes "female" (toLowerCase name) = false /\
     includes "male" (toLowerCase name) = false) /\
  (forall other, toLowerCase other = toLowerCase name ->
     inferGenderFromFolder other = inferGenderFromFolder name).
Proof.
  unfold inferGenderFromFolder.
  pose proof (includes_female_male (toLowerCase name)) as Hfm.
  destruct (includes "female" (toLowerCase name)) eqn:Hf;
    destruct (includes "male" (toLowerCase name)) eqn:Hm;
    repeat split; intros; try reflexivity; try discriminate;
    try (specialize (Hfm eq_refl); discriminate);
    try (destruct H; discriminate);
    try (rewrite H, Hf, ?Hm; reflexivity).
Qed.

(** C5, counterexample.  "Reference Female and Male" matches both
    patterns and is tagged "female", not "unknown"; so is every name with
    "female" in it, "Reference Female A" included. *)
Lemma inferGender_both_patterns_is_female :
  includes "female" (toLowerCase "Reference Female and Male") = true /\
  includes "male" (toLowerCase "Reference Female and Male") = true /\
  inferGenderFromFolder "Reference Female and Male" = Female /\
  inferGenderFromFolder "Reference Female and Male" <> Unknown /\
  inferGenderFromFolder "Reference Female A" = Female.
Proof. repeat split; try reflexivity. discriminate. Qed.

Example inferGender_examples :
  inferGenderFromFolder "Reference MALE Classic" = Male /\
  inferGenderFromFolder "reference kids" = Unknown /\
  inferGenderFromFolder "Reference FeMale B" = Female.
Proof. repeat split; reflexivity. Qed.

(** ** Measurement score *)

Lemma bandScore_ideal x band :
  wf_band band -> in_band_ideal x band -> bandScore x band = 1.
Proof.
  intros (H1 & H2 & H3) [Ha Hb]. unfold bandScore.
  destruct (Rle_dec x (b_min band)); [lra|].
  destruct (Rle_dec (b_max band) x); [lra|].
  destruct (Rle_dec (b_ideal0 band) x); [|lra].
  destruct (Rle_dec x (b_ideal1 band)); [reflexivity|lra].
Qed.

Lemma bandScore_outside x band :
  x <= b_min band \/ b_max band <= x -> bandScore x band = 0.
Proof.
  intros H. unfold bandScore.
  destruct (Rle_dec x (b_min band)); [reflexivity|].
  destruct (Rle_dec (b_max band) x); [reflexivity|lra].
Qed.

Lemma male_bands_wf :
  wf_band (bands_b male_bands) /\ wf_band (bands_w male_bands) /\ wf_band (bands_h male_bands).
Proof. unfold wf_band, male_bands; simpl. lra. Qed.

Lemma band_blend_ideal m bs :
  wf_band (bands_b bs) -> wf_band (bands_w bs) -> wf_band (bands_h bs) ->
  in_band_ideal (m_b m) (bands_b bs) ->
  in_band_ideal (m_w m) (bands_w bs) ->
  in_band_ideal (m_h m) (bands_h bs) ->
  band_blend m bs = 1.
Proof.
  intros Wb Ww Wh Ib Iw Ih. unfold band_blend.
  rewrite !bandScore_ideal by assumption.
  rewrite clamp01_id; lra.
Qed.

Lemma leanBonus_range m bs : 0 <= leanBonus m bs <= 0.03.
Proof.
  unfold leanBonus.
  repeat match goal with |- context [Rle_dec ?a ?b] => destruct (Rle_dec a b) end; lra.
Qed.

Lemma target_blend_at_target t tol : target_blend t t tol = 1.
Proof.
  unfold target_blend. cbv zeta.
  rewrite !Rminus_diag, Rabs_R0.
  unfold Rdiv at 2 3 4. rewrite !Rmult_0_l, !Rminus_0_r.
  rewrite (clamp01_id 1) by lra. rewrite clamp01_id; lra.
Qed.

(** C9.  In every server and for every gender profile, measurements inside
    the profile's ideal range score exactly 1: the three inner band ranges
    of the banded (male) profile, and the target itself for a profile with
    target and tolerance. *)
Theorem measScore_ideal_is_one (v : Variant) (g : Gender) (m : Meas) :
  in_ideal_range (prefs_of v g) g m -> measScore v g (Some m) = 1.
Proof.
  destruct male_bands_wf as (Wb & Ww & Wh).
  assert (Ht : forall t tol, m_b m = m_b t /\ m_w m = m_w t /\ m_h m = m_h t ->
            target_blend m t tol = 1).
  { intros t tol (Hb & Hw & Hh).
    rewrite <- (target_blend_at_target m tol).
    unfold target_blend. rewrite Hb, Hw, Hh. reflexivity. }
  assert (H0 : forall t tol, m_b m = m_b t /\ m_w m = m_w t /\ m_h m = m_h t ->
            clamp01 ((1 - Rabs (m_b m - m_b t) / m_b tol
                      + 1.2 * (1 - Rabs (m_w m - m_w t) / m_w tol)
                      + (1 - Rabs (m_h m - m_h t) / m_h tol)) / 3.2) = 1).
  { intros t tol (Hb & Hw & Hh). rewrite Hb, Hw, Hh.
    rewrite !Rminus_diag, Rabs_R0. unfold Rdiv at 2 3 4.
    rewrite !Rmult_0_l, !Rminus_0_r. rewrite clamp01_id; lra. }
  unfold measScore, prefs_of, in_ideal_range.
  destruct v, g;
    cbn [PREFS PREFS_old measScore_000 measScore_001 measScore_old
         meas_bands meas_target meas_tol];
    intros H;
    try (apply H0; exact H); try (apply Ht; exact H);
    destruct H as (Ib & Iw & Ih);
    rewrite band_blend_ideal by assumption;
    try reflexivity;
    pose proof (leanBonus_range m male_bands); apply clamp01_ge_one; lra.
Qed.

(** Measurements 92-75-92 are inside the ideal bands of the male profile,
    and 82-60-88 is the female target. *)
Lemma measScore_ideal_examples :
  in_ideal_range (prefs_of Part000 Male) Male (mkMeas 92 75 92) /\
  measScore Part000 Male (Some (mkMeas 92 75 92)) = 1 /\
  measScore Part002 Male (Some (mkMeas 90 77 94)) = 1 /\
  measScore Part001 Female (Some (mkMeas 82 60 88)) = 1.
Proof.
  assert (H1 : in_ideal_range (prefs_of Part000 Male) Male (mkMeas 92 75 92)).
  { simpl. unfold in_band_ideal; simpl. lra. }
  split; [exact H1|].
  split; [exact (measScore_ideal_is_one Part000 Male (mkMeas 92 75 92) H1)|].
  split.
  - apply (measScore_ideal_is_one Part002 Male (mkMeas 90 77 94)).
    simpl. unfold in_band_ideal; simpl. lra.
  - apply (measScore_ideal_is_one Part001 Female (mkMeas 82 60 88)).
    simpl. repeat split; reflexivity.
Defined.

(** ** The monad *)

Lemma bind_inr {S A B} (c : M S A) (k : A -> M S B) s a s' :
  c s = (inr a, s') -> bind c k s = k a s'.
Proof. intros H. unfold bind. rewrite H. reflexivity. Qed.

Lemma bind_inl {S A B} (c : M S A) (k : A -> M S B) s e s' :
  c s = (inl e, s') -> bind c k s = (inl e, s').
Proof. intros H. unfold bind. rewrite H. reflexivity. Qed.

(** ** The blend *)

Lemma tinyNoise_range E photos : 0 <= tinyNoise E photos < 0.01.
Proof.
  unfold tinyNoise.
  set (n := (sha256_prefix E 6 (join "|" photos) mod 100)%N).
  assert (Hn : (n < 100)%N) by (apply N.mod_lt; discriminate).
  assert (H0 : (0 <= Z.of_N n < 100)%Z) by lia.
  destruct H0 as [Hlo Hhi]. apply IZR_le in Hlo. apply IZR_lt in Hhi. lra.
Qed.

Lemma photoBoost_range n : 0 <= photoBoost n <= 0.12.
Proof.
  unfold photoBoost, clamp, Rmax, Rmin.
  destruct (Rle_dec 0.12 _); destruct (Rle_dec 0 _); lra.
Qed.

Lemma photoBoost_few n : (n <= 2)%nat -> photoBoost n = 0.
Proof.
  intros H. unfold photoBoost, clamp, Rmax, Rmin.
  apply le_INR in H. rewrite (INR_IZR_INZ 2) in H. change (IZR (Z.of_nat 2)) with 2 in H.
  destruct (Rle_dec 0.12 _); destruct (Rle_dec 0 _); lra.
Qed.

Lemma photoBoost_three : photoBoost 3 = 0.04.
Proof.
  unfold photoBoost, clamp, Rmax, Rmin.
  rewrite (INR_IZR_INZ 3). change (IZR (Z.of_nat 3)) with 3.
  destruct (Rle_dec 0.12 _); destruct (Rle_dec 0 _); lra.
Qed.

Lemma measScore_none v g : measScore v g None = 0.
Proof. destruct v, g; reflexivity. Qed.

(** ** The face block never throws *)

Lemma centroid_embed_photos_total E urls s :
  exists vs s', Centroid.embed_photos E urls s = (inr vs, s').
Proof.
  revert s. induction urls as [|u rest IH]; intros s.
  - eexists _, _. reflexivity.
  - simpl. unfold bind at 1, try_catch, bind.
    unfold Centroid.embedOne, bind, get_state, record, modify, ret, throw, console_error.
    destruct (embed_reply E (history s) (resized_url u)) as [e|vec]; simpl.
    + edestruct IH as (vs & s' & ->). eexists _, _. reflexivity.
    + edestruct IH as (vs & s' & ->). eexists _, _. reflexivity.
Qed.

Lemma centroid_face_block_total E photos s :
  exists f s', Centroid.face_block E photos s = (inr f, s').
Proof.
  unfold Centroid.face_block, try_catch, bind, get_state.
  destruct (clusters s) as [|c cs] eqn:Hc.
  - eexists _, _. reflexivity.
  - destruct (centroid_embed_photos_total E (firstn 5 photos) s) as (vs & s' & ->).
    destruct vs as [|v0 vs].
    + eexists _, _. reflexivity.
    + destruct (Centroid.best_match _ _ _ _) as [maxSim bestLabel].
      eexists _, _. reflexivity.
Qed.

Lemma try_catch_total {S A} (c : M S A) (h : string -> M S A) :
  (forall e s, exists a s', h e s = (inr a, s')) ->
  forall s, exists a s', try_catch c h s = (inr a, s').
Proof.
  intros Hh s. unfold try_catch.
  destruct (c s) as [[e|a] s1].
  - apply Hh.
  - eexists _, _. reflexivity.
Qed.

Lemma hf_embed_all_total E cfg tag ctx us s :
  exists vs s', HF.embed_all E cfg tag ctx us s = (inr vs, s').
Proof.
  revert s. induction us as [|u rest IH]; intros s.
  - eexists _, _. reflexivity.
  - simpl.
    destruct (try_catch_total
                (bind (HF.getEmbedding E cfg u) (fun vec => ret (Some vec)))
                (fun e => bind (console_error tag (ctx ++ [u; e])) (fun _ => ret None))
                ltac:(intros e s0; eexists _, _; reflexivity) s)
      as (r & s1 & Hr).
    rewrite (bind_inr _ _ _ _ _ Hr).
    destruct (IH s1) as (vs & s2 & Hvs).
    rewrite (bind_inr _ _ _ _ _ Hvs).
    eexists _, _. reflexivity.
Qed.

Lemma hf_face_block_total E cfg GEN photos s :
  exists f s', HF.face_block E cfg GEN photos s = (inr f, s').
Proof.
  unfold HF.face_block, try_catch, bind, get_state.
  destruct (clusters s) as [|c cs] eqn:Hc.
  - eexists _, _. reflexivity.
  - destruct (hf_embed_all_total E cfg "app_embed_fail" [] photos s) as (vs & s' & ->).
    destruct (HF.best_match _ _ _ _) as [maxSim bestLabel].
    destruct (Rle_dec (-1) maxSim); eexists _, _; reflexivity.
Qed.

(** ** Confidence *)

(** C1, as amended.  For a submission that passes the key check and
    brings at least one photo: the centroid servers (part_000 with
    LIGHT_MODE off, and part_002) and the hosted-inference server
    (part_001) answer 200 with
    confidence = clamp(0.40 measurementScore + 0.25 heightScore
    + 0.30 faceSimilarity + 0.05 (0.6 if there are photos, else 0)
    + clamp((photoCount - 2) 0.04, 0, 0.12) + tieBreak, 0, 1),
    where faceSimilarity is the score of the face block and tieBreak is
    (n mod 100) / 10000 for the hash prefix n of the joined URLs, a value
    in [0, 0.01).  Part_000 with LIGHT_MODE on answers the fixed mock
    confidence 0.75, the older rule-only server of part_002 blends
    0.55 measurementScore + 0.35 heightScore + 0.10 (0.6 if photos)
    + photoBonus + tieBreak instead, and the demo server of server.mjs
    answers a number read off the hash of the URLs, raised to 0.35 for a
    height of 175 or more and by 0.05 (up to 0.99) for an age below 19. *)
Theorem confidence_blend (E : Env) (cfg : Config) (req : Request) :
  auth_fails (EVALUATOR_API_KEY cfg) (authorization req) = false ->
  photos req <> [] ->
  let GEN := GEN_of (gender req) in
  let m := parseMeas (measurements req) in
  let n := List.length (photos req) in
  let tieBreak := IZR (Z.of_N (sha256_prefix E 6 (join "|" (photos req)) mod 100)) / 10000 in
  let photoBonus := clamp ((INR n - 2) * 0.04) 0 0.12 in
  let hasPhotos := match photos req with [] => 0 | _ => 0.6 end in
  0 <= tieBreak < 0.01 /\
  (forall v s, v = Part000 \/ v = Part002 -> Centroid.light cfg v = false ->
     exists f s1 body,
       Centroid.face_block E (photos req) s = (inr f, s1) /\
       Centroid.evaluate E cfg v req s = (inr (Ok body), s1) /\
       confidence body =
         clamp (0.40 * measScore v GEN m
                + 0.25 * heightScoreFactory (p_height (PREFS GEN)) (height_cm req)
                + 0.30 * faceScore f
                + 0.05 * hasPhotos + photoBonus + tieBreak) 0 1) /\
  (forall s,
     exists f s1 body,
       HF.face_block E cfg GEN (photos req) s = (inr f, s1) /\
       HF.evaluate E cfg req s = (inr (Ok body), s1) /\
       confidence body =
         clamp (0.40 * measScore Part001 GEN m
                + 0.25 * heightScoreFactory (p_height (PREFS GEN)) (height_cm req)
                + 0.30 * faceScore f
                + 0.05 * hasPhotos + photoBonus + tieBreak) 0 1) /\
  (forall s, LIGHT_MODE cfg = true ->
     exists body,
       Centroid.evaluate E cfg Part000 req s = (inr (Ok body), s) /\
       confidence body = 0.75) /\
  (forall s,
     exists s1 body,
       RuleOnly.evaluate E cfg req s = (inr (Ok body), s1) /\
       rule_confidence body =
         clamp (0.55 * measScore Part002Old GEN m
                + 0.35 * heightScoreFactory (p_height (PREFS_old GEN)) (height_cm req)
                + 0.10 * hasPhotos + photoBonus + tieBreak) 0 1) /\
  (forall s,
     exists s1 body,
       Demo.evaluate E cfg req s = (inr (Ok body), s1) /\
       rule_confidence body =
         let c0 := IZR (Z.of_N (sha256_prefix E 8 (join "|" (photos req)) mod 10000))
                   / 10000 in
         let c1 := if Demo.tall (height_cm req) then Rmax c0 0.35 else c0 in
         if Demo.young (age req) then Rmin (c1 + 0.05) 0.99 else c1).
Proof.
  intros Hauth Hphotos GEN m n tieBreak photoBonus hasPhotos.
  assert (Hterm : photo_term n = hasPhotos).
  { unfold n, hasPhotos, photo_term. destruct (photos req); [contradiction|reflexivity]. }
  split; [apply tinyNoise_range|].
  split; [|split; [|split; [|split]]].
  - intros v s Hv Hlight.
    destruct (centroid_face_block_total E (photos req) s) as (f & s1 & Hf).
    exists f, s1.
    unfold Centroid.evaluate. rewrite Hauth, Hlight.
    destruct (photos req) as [|p0 ps] eqn:Hp; [contradiction|].
    unfold try_catch. rewrite (bind_inr _ _ _ _ _ Hf). cbn [ret].
    eexists. split; [exact Hf|]. split; [reflexivity|].
    cbn [confidence]. unfold blend, clamp01. fold n. rewrite Hterm.
    reflexivity.
  - intros s.
    destruct (hf_face_block_total E cfg GEN (photos req) s) as (f & s1 & Hf).
    exists f, s1.
    unfold HF.evaluate. rewrite Hauth.
    destruct (photos req) as [|p0 ps] eqn:Hp; [contradiction|].
    unfold try_catch. rewrite (bind_inr _ _ _ _ _ Hf). cbn [ret].
    eexists. split; [exact Hf|]. split; [reflexivity|].
    cbn [confidence]. unfold blend, clamp01. fold n. rewrite Hterm.
    reflexivity.
  - intros s Hlight.
    exists Centroid.mock_body.
    unfold Centroid.evaluate, Centroid.light. rewrite Hauth, Hlight.
    destruct (photos req) as [|p0 ps] eqn:Hp; [contradiction|].
    split; reflexivity.
  - intros s.
    unfold RuleOnly.evaluate. rewrite Hauth.
    destruct (photos req) as [|p0 ps] eqn:Hp; [contradiction|].
    eexists _, _. split; [reflexivity|].
    cbn [rule_confidence]. unfold blend_old, clamp01. fold n. rewrite Hterm.
    reflexivity.
  - intros s.
    unfold Demo.evaluate. rewrite Hauth.
    destruct (photos req) as [|p0 ps] eqn:Hp; [contradiction|].
    eexists _, _. split; [reflexivity|].
    cbn [rule_confidence]. unfold Demo.demo_confidence. rewrite Hp. reflexivity.
Qed.

(** [confidence_blend] on scenario 1 of the specification, part_000 with
    LIGHT_MODE off and an empty cache. *)
Lemma confidence_blend_scenario1 :
  auth_fails (EVALUATOR_API_KEY (test_config false)) (authorization scenario1_request) = false /\
  photos scenario1_request <> [] /\
  exists f s1 body,
    Centroid.face_block dead_env (photos scenario1_request) init_state = (inr f, s1) /\
    Centroid.evaluate dead_env (test_config false) Part000 scenario1_request init_state
      = (inr (Ok body), s1) /\
    confidence body =
      clamp (0.40 * measScore Part000 Female (parseMeas (Some "82-60-88"%string))
             + 0.25 * heightScoreFactory female_height (Some 177)
             + 0.30 * faceScore f
             + 0.05 * 0.6 + clamp ((INR 3 - 2) * 0.04) 0 0.12
             + 60 / 10000) 0 1.
Proof.
  split; [reflexivity|]. split; [discriminate|].
  pose proof (confidence_blend dead_env (test_config false) scenario1_request
                eq_refl ltac:(discriminate)) as H.
  cbv zeta in H. destruct H as (_ & Hc & _).
  exact (Hc Part000 init_state (or_introl eq_refl) eq_refl).
Defined.

(** C1, counterexample.  With LIGHT_MODE on, part_000 answers a submission
    with one photo and no other field with confidence 0.75 and face
    similarity 0.5, while the blend of its scores (no measurements, no
    height, similarity 0.5, one photo) stays below 0.2. *)
Lemma light_mode_confidence_is_mock :
  exists body,
    Centroid.evaluate dead_env (test_config true) Part000 bare_request init_state
      = (inr (Ok body), init_state) /\
    confidence body = 0.75 /\
    face_similarity body = 0.5 /\
    clamp (0.40 * measScore Part000 (GEN_of (gender bare_request))
                            (parseMeas (measurements bare_request))
           + 0.25 * heightScoreFactory (p_height (PREFS (GEN_of (gender bare_request))))
                                       (height_cm bare_request)
           + 0.30 * face_similarity body
           + 0.05 * 0.6
           + clamp ((INR (List.length (photos bare_request)) - 2) * 0.04) 0 0.12
           + tinyNoise dead_env (photos bare_request)) 0 1 < 0.2.
Proof.
  exists Centroid.mock_body.
  split; [reflexivity|]. split; [reflexivity|]. split; [reflexivity|].
  pose proof (tinyNoise_range dead_env (photos bare_request)) as Hn.
  cbn [bare_request gender measurements height_cm photos parseMeas
       heightScoreFactory Centroid.mock_body face_similarity List.length] in *.
  rewrite measScore_none.
  change (clamp ((INR 1 - 2) * 0.04) 0 0.12) with (photoBoost 1).
  rewrite photoBoost_few by lia.
  unfold clamp, Rmax, Rmin.
  repeat match goal with |- context [Rle_dec ?a ?b] => destruct (Rle_dec a b) end; lra.
Qed.

(** ** Face similarity when no photo can be embedded *)

Lemma toFixed3_exact z : toFixed3 (IZR z / 1000) = IZR z / 1000.
Proof.
  unfold toFixed3. f_equal. f_equal. symmetry. apply Int_part_spec.
  replace (IZR z / 1000 * 1000) with (IZR z) by (field; lra). lra.
Qed.

Lemma toFixed3_zero : toFixed3 0 = 0.
Proof.
  replace 0 with (IZR 0 / 1000) at 1 by lra. rewrite toFixed3_exact. lra.
Qed.

Lemma toFixed3_half : toFixed3 0.5 = 0.5.
Proof.
  replace 0.5 with (IZR 500 / 1000) by lra. apply toFixed3_exact.
Qed.

Lemma face_phrase_zero : face_phrase 0 = "low similarity to reference look"%string.
Proof.
  unfold face_phrase.
  destruct (Rle_dec 0.70 0); [lra|]. destruct (Rle_dec 0.55 0); [lra|]. reflexivity.
Qed.

Lemma clamp01_zero : clamp01 ((-1 + 1) / 2) = 0.
Proof. rewrite clamp01_id; lra. Qed.

(** The centroid servers keep the neutral 0.5 and say that no photo could
    be analyzed (part_000 299-301, part_002 454-456). *)
Lemma centroid_face_no_photo_embeds E photos s s' :
  clusters s <> [] ->
  Centroid.embed_photos E (firstn 5 photos) s = (inr [], s') ->
  Centroid.face_block E photos s
    = (inr (mkFace 0.5 "none" "no valid photos to analyze"), s').
Proof.
  intros Hc He. unfold Centroid.face_block, try_catch, bind, get_state.
  destruct (clusters s) as [|c cs]; [contradiction|].
  rewrite He. reflexivity.
Qed.

(** The hosted-inference server does not: with no photo vector the scan
    leaves [maxSim] at -1, the test [maxSim >= -1] passes, and the score
    becomes clamp((-1 + 1) / 2) = 0 (part_001 326-341). *)
Lemma hf_face_no_photo_embeds E cfg GEN photos s s' :
  clusters s <> [] ->
  HF.embed_all E cfg "app_embed_fail" [] photos s = (inr [], s') ->
  HF.face_block E cfg GEN photos s
    = (inr (mkFace 0 "none" "low similarity to reference look"), s').
Proof.
  intros Hc He. unfold HF.face_block, try_catch, bind, get_state.
  destruct (clusters s) as [|c cs]; [contradiction|].
  rewrite He. cbn [HF.best_match].
  destruct (Rle_dec (-1) (-1)) as [_|Hn]; [|lra].
  rewrite clamp01_zero, face_phrase_zero. reflexivity.
Qed.

(** C2, the failing run.  The hosted-inference server holds one reference
    group; the only photo of the submission cannot be fetched (404), so
    no photo embeds.  The answer carries face similarity 0 and the reason
    "low similarity to reference look (none)", not the neutral 0.5 with a
    note that no photo could be analyzed. *)
Theorem hf_zero_embeds_scores_zero :
  let url := "https://cdn.example/p1.jpg"%string in
  let s' := mkState [EvImage url]
                    [LogError "app_embed_fail" [url; "image_fetch_failed:404"]%string]
                    (clusters hf_loaded) [] in
  clusters hf_loaded <> [] /\
  HF.embed_all dead_env (test_config false) "app_embed_fail" [] (photos bare_request)
               hf_loaded = (inr [], s') /\
  exists body,
    HF.evaluate dead_env (test_config false) bare_request hf_loaded = (inr (Ok body), s') /\
    face_similarity body = 0 /\
    face_cluster body = "none"%string /\
    reason body = "insufficient digitals; low similarity to reference look (none)"%string.
Proof.
  intros url s'.
  assert (He : HF.embed_all dead_env (test_config false) "app_embed_fail" []
                            (photos bare_request) hf_loaded = (inr [], s'))
    by reflexivity.
  split; [discriminate|]. split; [exact He|].
  pose proof (hf_face_no_photo_embeds dead_env (test_config false) Female
                (photos bare_request) hf_loaded s' ltac:(discriminate) He) as Hf.
  unfold HF.evaluate.
  change (auth_fails (EVALUATOR_API_KEY (test_config false)) (authorization bare_request))
    with false.
  cbn [photos bare_request gender GEN_of measurements height_cm parseMeas] in *.
  change (GEN_of None) with Female.
  unfold try_catch. rewrite (bind_inr _ _ _ _ _ Hf). cbn [ret].
  eexists. split; [reflexivity|].
  cbn [face_similarity face_cluster reason faceScore faceCluster].
  split; [apply toFixed3_zero|]. split; reflexivity.
Qed.

(** The same submission on a centroid server with one reference group:
    neutral 0.5, label "none", and the note. *)
Lemma centroid_zero_embeds_stays_neutral :
  let url := "https://cdn.example/p1.jpg"%string in
  let s' := mkState [EvEmbed url]
                    [LogError "app_embed_fail" [url; "image_fetch_failed:404"]%string]
                    (clusters centroid_loaded) [] in
  exists body,
    Centroid.evaluate dead_env (test_config false) Part002 bare_request centroid_loaded
      = (inr (Ok body), s') /\
    face_similarity body = 0.5 /\
    face_cluster body = "none"%string /\
    reason body = "insufficient digitals; no valid photos to analyze (none)"%string.
Proof.
  intros url s'.
  assert (He : Centroid.embed_photos dead_env (firstn 5 (photos bare_request))
                                     centroid_loaded = (inr [], s'))
    by reflexivity.
  pose proof (centroid_face_no_photo_embeds dead_env (photos bare_request)
                centroid_loaded s' ltac:(discriminate) He) as Hf.
  unfold Centroid.evaluate.
  change (auth_fails (EVALUATOR_API_KEY (test_config false)) (authorization bare_request))
    with false.
  cbn [photos bare_request gender GEN_of measurements height_cm parseMeas Centroid.light] in *.
  unfold try_catch. rewrite (bind_inr _ _ _ _ _ Hf). cbn [ret].
  eexists. split; [reflexivity|].
  cbn [face_similarity face_cluster reason faceScore faceCluster].
  split; [apply toFixed3_half|]. split; reflexivity.
Qed.

(** ** The candidate pool of the hosted-inference server *)

Lemma Gender_eqb_eq a b : Gender_eqb a b = true <-> a = b.
Proof. destruct a, b; simpl; split; intros H; try reflexivity; discriminate. Qed.

Lemma candidate_pool_filtered GEN cs :
  (exists c, In c cs /\ HF.gender_tag c <> Unknown) ->
  HF.candidate_pool GEN cs
  = filter (fun c => Gender_eqb (HF.gender_tag c) GEN
                     || Gender_eqb (HF.gender_tag c) Unknown) cs.
Proof.
  intros (c & Hin & Hg). unfold HF.candidate_pool.
  replace (existsb (fun c => negb (Gender_eqb (HF.gender_tag c) Unknown)) cs) with true;
    [reflexivity|].
  symmetry. apply existsb_exists. exists c. split; [exact Hin|].
  destruct (Gender_eqb (HF.gender_tag c) Unknown) eqn:He; [|reflexivity].
  apply Gender_eqb_eq in He. contradiction.
Qed.

Lemma candidates_in pool c rv :
  In (c, rv) (HF.candidates pool) <-> In c pool /\ In rv (HF.vecs c).
Proof.
  unfold HF.candidates. rewrite in_flat_map. split.
  - intros (c' & Hc & Hin). apply in_map_iff in Hin as (rv' & Heq & Hrv).
    inversion Heq; subst. split; assumption.
  - intros [Hc Hrv]. exists c. split; [exact Hc|].
    apply in_map_iff. exists rv. split; [reflexivity|exact Hrv].
Qed.

Lemma scan_candidates_label pv cands maxSim bestLabel :
  snd (HF.scan_candidates pv cands maxSim bestLabel) = bestLabel \/
  exists c rv, In (c, rv) cands /\
               HF.label c = snd (HF.scan_candidates pv cands maxSim bestLabel).
Proof.
  revert maxSim bestLabel. induction cands as [|[c rv] rest IH]; intros maxSim bestLabel.
  - left. reflexivity.
  - cbn [HF.scan_candidates].
    destruct (Rlt_dec maxSim (cosine pv rv)).
    + destruct (IH (cosine pv rv) (HF.label c)) as [H|(c' & rv' & Hin & H)].
      * right. exists c, rv. split; [left; reflexivity|]. symmetry. exact H.
      * right. exists c', rv'. split; [right; exact Hin|exact H].
    + destruct (IH maxSim bestLabel) as [H|(c' & rv' & Hin & H)].
      * left. exact H.
      * right. exists c', rv'. split; [right; exact Hin|exact H].
Qed.

Lemma best_match_label photoVecs pool maxSim bestLabel :
  snd (HF.best_match photoVecs pool maxSim bestLabel) = bestLabel \/
  exists c rv, In (c, rv) (HF.candidates pool) /\
               HF.label c = snd (HF.best_match photoVecs pool maxSim bestLabel).
Proof.
  revert maxSim bestLabel. induction photoVecs as [|pv rest IH]; intros maxSim bestLabel.
  - left. reflexivity.
  - cbn [HF.best_match].
    pose proof (scan_candidates_label pv (HF.candidates pool) maxSim bestLabel) as Hs.
    destruct (HF.scan_candidates pv (HF.candidates pool) maxSim bestLabel) as [m l].
    cbn [snd] in Hs.
    destruct (IH m l) as [H|H].
    + rewrite H. destruct Hs as [Hs|(c & rv & Hin & Hs)].
      * left. exact Hs.
      * right. exists c, rv. split; assumption.
    + right. exact H.
Qed.

(** C10.  In the matcher of the hosted-inference server, when some cached
    group has a tag other than "unknown": the candidate pool is exactly
    the cached groups tagged with the submission's gender or "unknown";
    every comparison of the best-match search takes its reference vector
    from such a group, so a group of the other gender is never compared
    against; and the label the search reports is "none" or the label of
    such a group. *)
Theorem candidate_pool_by_gender (E : Env) (cfg : Config) (GEN : Gender)
    (photos : list string) (s : HF.St) :
  (exists c, In c (clusters s) /\ HF.gender_tag c <> Unknown) ->
  let pool := HF.candidate_pool GEN (clusters s) in
  (forall c, In c pool <->
             In c (clusters s) /\ (HF.gender_tag c = GEN \/ HF.gender_tag c = Unknown)) /\
  (forall c rv, In (c, rv) (HF.candidates pool) ->
                In c (clusters s) /\ In rv (HF.vecs c) /\
                (HF.gender_tag c = GEN \/ HF.gender_tag c = Unknown)) /\
  (forall c, In c (clusters s) -> HF.gender_tag c <> GEN -> HF.gender_tag c <> Unknown ->
             forall rv, ~ In (c, rv) (HF.candidates pool)) /\
  (forall f s', HF.face_block E cfg GEN photos s = (inr f, s') ->
     faceCluster f = "none"%string \/
     exists c, In c (clusters s) /\ HF.label c = faceCluster f /\
               (HF.gender_tag c = GEN \/ HF.gender_tag c = Unknown)).
Proof.
  intros Hknown pool.
  assert (Hpool : forall c, In c pool <->
             In c (clusters s) /\ (HF.gender_tag c = GEN \/ HF.gender_tag c = Unknown)).
  { intros c. unfold pool. rewrite (candidate_pool_filtered GEN _ Hknown).
    rewrite filter_In, orb_true_iff, !Gender_eqb_eq. reflexivity. }
  assert (Hcand : forall c rv, In (c, rv) (HF.candidates pool) ->
                In c (clusters s) /\ In rv (HF.vecs c) /\
                (HF.gender_tag c = GEN \/ HF.gender_tag c = Unknown)).
  { intros c rv Hin. apply candidates_in in Hin as [Hc Hrv].
    apply Hpool in Hc as [Hc Hg]. repeat split; assumption. }
  split; [exact Hpool|]. split; [exact Hcand|]. split.
  - intros c Hc Hne1 Hne2 rv Hin. apply Hcand in Hin as (_ & _ & [Hg|Hg]); contradiction.
  - intros f s' Hf.
    unfold HF.face_block, try_catch, bind, get_state in Hf.
    destruct (clusters s) as [|c0 cs] eqn:Hcl.
    { inversion Hf; subst. left. reflexivity. }
    fold pool in Hf.
    destruct (hf_embed_all_total E cfg "app_embed_fail" [] photos s) as (vs & s1 & Hvs).
    rewrite Hvs in Hf.
    pose proof (best_match_label vs pool (-1) "none") as Hb.
    destruct (HF.best_match vs pool (-1) "none") as [maxSim bestLabel].
    cbn [snd] in Hb.
    destruct (Rle_dec (-1) maxSim); inversion Hf; subst; cbn [faceCluster].
    + destruct Hb as [Hb|(c & rv & Hin & Hb)].
      * left. exact Hb.
      * right. exists c. apply Hcand in Hin as (Hc & _ & Hg).
        repeat split; assumption.
    + left. reflexivity.
Qed.

(** A cache with a female, a male and an untagged group: for a female
    submission the pool is the female and the untagged group. *)
Lemma candidate_pool_mixed_cache :
  (exists c, In c (clusters hf_mixed) /\ HF.gender_tag c <> Unknown) /\
  HF.candidate_pool Female (clusters hf_mixed) = [hf_female_group; hf_untagged_group] /\
  (forall rv, ~ In (hf_male_group, rv)
                   (HF.candidates (HF.candidate_pool Female (clusters hf_mixed)))).
Proof.
  assert (Hk : exists c, In c (clusters hf_mixed) /\ HF.gender_tag c <> Unknown).
  { exists hf_female_group. split; [left; reflexivity|discriminate]. }
  split; [exact Hk|]. split; [reflexivity|].
  pose proof (candidate_pool_by_gender dead_env (test_config false) Female [] hf_mixed Hk)
    as H.
  cbv zeta in H. destruct H as (_ & _ & Hex & _).
  apply Hex.
  - right. left. reflexivity.
  - discriminate.
  - discriminate.
Defined.

(** ** Retries and fallback of the embedding provider *)

Lemma transient_is_5xx status :
  HF.transient status = true ->
  (status = 500 \/ status = 502 \/ status = 503 \/ status = 504)%nat /\
  (500 <= status <= 599)%nat /\ HF.status_ok status = false.
Proof.
  unfold HF.transient, HF.status_ok. intros H.
  repeat (apply orb_true_iff in H; destruct H as [H|H]);
    apply Nat.eqb_eq in H; subst; repeat split; try lia; auto.
Qed.

Lemma classify_transient r :
  classify r = Transient ->
  exists status body txt, r = Resp status body txt /\ (500 <= status <= 599)%nat /\
                          HF.transient status = true.
Proof.
  destruct r as [msg|status body txt]; simpl; [discriminate|].
  destruct (HF.status_ok status) eqn:Hok.
  - destruct body; discriminate.
  - destruct (HF.transient status) eqn:Ht; [|discriminate].
    intros _. exists status, body, txt. split; [reflexivity|].
    split; [apply transient_is_5xx; exact Ht|exact Ht].
Qed.

(** One turn of the loop of [tryEmbed], by the outcome of its fetch. *)
Lemma tryEmbed_loop_step E attempt rest last route (s : HF.St) :
  let s1 := mkState (history s ++ [EvPost route]) (console s) (clusters s) (embedCache s) in
  match classify (post_reply E (history s) route) with
  | Success vec => HF.tryEmbed_loop E (attempt :: rest) last route s = (inr vec, s1)
  | Fatal => exists e, HF.tryEmbed_loop E (attempt :: rest) last route s = (inl e, s1)
  | Transient =>
      if (attempt <? HF.maxAttempts)%nat then
        exists last',
          HF.tryEmbed_loop E (attempt :: rest) last route s
          = HF.tryEmbed_loop E rest last' route
              (mkState (history s ++ [EvPost route; EvSleep (400 * attempt)])
                       (console s) (clusters s) (embedCache s))
      else exists e, HF.tryEmbed_loop E (attempt :: rest) last route s = (inl e, s1)
  end.
Proof.
  intros s1. cbn [HF.tryEmbed_loop].
  unfold bind at 1, HF.post, bind, get_state, record, modify, ret. cbn [history].
  unfold classify.
  destruct (post_reply E (history s) route) as [msg|status body txt].
  - eexists. reflexivity.
  - destruct (HF.status_ok status) eqn:Hok.
    + destruct body; try reflexivity. eexists. reflexivity.
    + destruct (HF.transient status) eqn:Ht; cbn [andb].
      * destruct (attempt <? HF.maxAttempts)%nat.
        -- eexists. unfold bind, record, modify. cbn [history console clusters embedCache].
           rewrite <- app_assoc. reflexivity.
        -- eexists. reflexivity.
      * eexists. reflexivity.
Qed.

Lemma tryEmbed_shape E route (s : HF.St) :
  exists k, (1 <= k <= 3)%nat /\
    history (snd (HF.tryEmbed E route s))
      = (history s ++ trace_before route k ++ [EvPost route])%list /\
    console (snd (HF.tryEmbed E route s)) = console s /\
    clusters (snd (HF.tryEmbed E route s)) = clusters s /\
    embedCache (snd (HF.tryEmbed E route s)) = embedCache s /\
    (forall i, (1 <= i < k)%nat -> classify (attempt_reply E route s i) = Transient) /\
    match classify (attempt_reply E route s k) with
    | Success vec => fst (HF.tryEmbed E route s) = inr vec
    | Fatal => is_inl (fst (HF.tryEmbed E route s))
    | Transient => k = 3%nat /\ is_inl (fst (HF.tryEmbed E route s))
    end.
Proof.
  unfold HF.tryEmbed. cbn [seq HF.maxAttempts].
  assert (R1 : attempt_reply E route s 1 = post_reply E (history s) route).
  { unfold attempt_reply, trace_before. cbn. rewrite app_nil_r. reflexivity. }
  pose proof (tryEmbed_loop_step E 1 [2; 3]%nat "undefined" route s) as H1.
  cbv zeta in H1. rewrite <- R1 in H1.
  destruct (classify (attempt_reply E route s 1)) as [vec| |] eqn:C1.
  - (* first try succeeds *)
    exists 1%nat. rewrite H1, C1. cbn. repeat split; try lia; try reflexivity.
  - (* first try transient: pause 400 and try again *)
    change (1 <? HF.maxAttempts)%nat with true in H1. cbv iota in H1.
    destruct H1 as [last1 H1]. rewrite H1.
    set (s2 := mkState (history s ++ [EvPost route; EvSleep (400 * 1)])
                       (console s) (clusters s) (embedCache s)) in *.
    assert (R2 : attempt_reply E route s 2 = post_reply E (history s2) route)
      by reflexivity.
    pose proof (tryEmbed_loop_step E 2 [3]%nat last1 route s2) as H2.
    cbv zeta in H2. rewrite <- R2 in H2.
    destruct (classify (attempt_reply E route s 2)) as [vec| |] eqn:C2.
    + exists 2%nat. rewrite H2, C2. cbn. rewrite <- app_assoc.
      assert (Hall : forall i, (1 <= i < 2)%nat ->
                classify (attempt_reply E route s i) = Transient).
      { intros i Hi. assert (i = 1)%nat by lia. subst i. exact C1. }
      repeat split; try lia; try reflexivity; try (apply Hall; lia).
    + change (2 <? HF.maxAttempts)%nat with true in H2. cbv iota in H2.
      destruct H2 as [last2 H2]. rewrite H2.
      set (s3 := mkState (history s2 ++ [EvPost route; EvSleep (400 * 2)])
                         (console s2) (clusters s2) (embedCache s2)) in *.
      assert (R3 : attempt_reply E route s 3 = post_reply E (history s3) route).
      { unfold attempt_reply, trace_before, s3, s2. cbn [history seq Nat.sub flat_map].
        rewrite <- app_assoc. reflexivity. }
      pose proof (tryEmbed_loop_step E 3 []%nat last2 route s3) as H3.
      cbv zeta in H3. rewrite <- R3 in H3.
      assert (Hall : forall i, (1 <= i < 3)%nat ->
                classify (attempt_reply E route s i) = Transient).
      { intros i Hi. assert (i = 1 \/ i = 2)%nat as [->| ->] by lia; assumption. }
      exists 3%nat.
      destruct (classify (attempt_reply E route s 3)) as [vec| |] eqn:C3.
      * rewrite H3. cbn. rewrite <- !app_assoc.
        repeat split; try lia; try reflexivity; try (apply Hall; lia).
      * change (3 <? HF.maxAttempts)%nat with false in H3. cbv iota in H3.
        destruct H3 as [e H3]. rewrite H3. cbn. rewrite <- !app_assoc.
        repeat split; try lia; try reflexivity; try (apply Hall; lia).
      * destruct H3 as [e H3]. rewrite H3. cbn. rewrite <- !app_assoc.
        repeat split; try lia; try reflexivity; try (apply Hall; lia).
    + destruct H2 as [e H2].
      exists 2%nat. rewrite H2, C2. cbn. rewrite <- app_assoc.
      assert (Hall : forall i, (1 <= i < 2)%nat ->
                classify (attempt_reply E route s i) = Transient).
      { intros i Hi. assert (i = 1)%nat by lia. subst i. exact C1. }
      repeat split; try lia; try reflexivity; try (apply Hall; lia).
  - destruct H1 as [e H1].
    exists 1%nat. rewrite H1, C1. cbn. repeat split; try lia; try reflexivity.
Qed.

Lemma posted_routes_app h1 h2 :
  posted_routes (h1 ++ h2) = (posted_routes h1 ++ posted_routes h2)%list.
Proof.
  induction h1 as [|e h1 IH]; [reflexivity|].
  destruct e; cbn; rewrite ?IH; reflexivity.
Qed.

Lemma pauses_app h1 h2 : pauses (h1 ++ h2) = (pauses h1 ++ pauses h2)%list.
Proof.
  induction h1 as [|e h1 IH]; [reflexivity|].
  destruct e; cbn; rewrite ?IH; reflexivity.
Qed.

Lemma trace_of_tries route k :
  (1 <= k <= 3)%nat ->
  posted_routes (trace_before route k ++ [EvPost route]) = repeat route k /\
  pauses (trace_before route k ++ [EvPost route]) = map (fun j => 400 * j)%nat (seq 1 (k - 1)).
Proof.
  intros Hk. assert (k = 1 \/ k = 2 \/ k = 3)%nat as [->|[->| ->]] by lia;
    split; reflexivity.
Qed.

(** A back end that fails is logged and the next one is tried; the first
    one that answers ends the walk. *)
Lemma try_backends_next E model route rest url last (s s1 : HF.St) e :
  HF.tryEmbed E route s = (inl e, s1) ->
  HF.try_backends E ((model, route) :: rest) url last s
  = HF.try_backends E rest url (Some e)
      (mkState (history s1) (console s1 ++ [LogError "hf_try_fail" [model; e]])
               (clusters s1) (embedCache s1)).
Proof.
  intros H. cbn [HF.try_backends].
  unfold bind at 1, try_catch, bind at 1. rewrite H. reflexivity.
Qed.

Lemma try_backends_done E model route rest url last (s s1 : HF.St) vec :
  HF.tryEmbed E route s = (inr vec, s1) ->
  HF.try_backends E ((model, route) :: rest) url last s
  = (inr vec,
     mkState (history s1) (console s1) (clusters s1)
             ((url, vec) :: filter (fun kv => negb (String.eqb (fst kv) url))
                                   (embedCache s1))).
Proof.
  intros H. cbn [HF.try_backends].
  unfold bind at 1, try_catch, bind at 1. rewrite H. reflexivity.
Qed.

Lemma try_backends_visits E bs url last (s : HF.St) :
  exists ks ev,
    history (snd (HF.try_backends E bs url last s)) = (history s ++ ev)%list /\
    clusters (snd (HF.try_backends E bs url last s)) = clusters s /\
    (List.length ks <= List.length bs)%nat /\
    Forall (fun k => 1 <= k <= 3)%nat ks /\
    posted_routes ev = visits (map snd bs) ks /\
    Forall (fun ms => ms = 400 \/ ms = 800)%nat (pauses ev) /\
    (is_inl (fst (HF.try_backends E bs url last s)) ->
       List.length ks = List.length bs) /\
    (is_inr (fst (HF.try_backends E bs url last s)) -> ks <> []).
Proof.
  revert last s. induction bs as [|[model route] rest IH]; intros last s.
  - exists [], []. cbn. rewrite app_nil_r.
    repeat split; try reflexivity; try constructor; try lia; try contradiction.
  - destruct (tryEmbed_shape E route s)
      as (k & Hk & Hh & Hcon & Hcl & Hca & _ & Hres).
    assert (Hpause : Forall (fun ms => ms = 400 \/ ms = 800)%nat
                       (pauses (trace_before route k ++ [EvPost route]))).
    { rewrite (proj2 (trace_of_tries route k Hk)).
      assert (k = 1 \/ k = 2 \/ k = 3)%nat as [->|[->| ->]] by lia;
        cbn [Nat.sub seq map].
      - constructor.
      - constructor; [left; reflexivity|constructor].
      - constructor; [left; reflexivity|].
        constructor; [right; reflexivity|constructor]. }
    destruct (HF.tryEmbed E route s) as [[e|vec] s1] eqn:Ht; cbn [fst snd] in *.
    + (* this back end failed: log and go on with the next one *)
      rewrite (try_backends_next E model route rest url last s s1 e Ht).
      set (s2 := mkState (history s1) (console s1 ++ [LogError "hf_try_fail" [model; e]])
                         (clusters s1) (embedCache s1)).
      destruct (IH (Some e) s2) as (ks & ev & Hh2 & Hcl2 & Hlen & Hall & Hposted & Hp2 & Hl & Hr).
      exists (k :: ks), ((trace_before route k ++ [EvPost route]) ++ ev)%list.
      split.
      { rewrite Hh2. cbn [history s2]. rewrite Hh, <- !app_assoc. reflexivity. }
      split; [rewrite Hcl2; exact Hcl|].
      split; [cbn; lia|]. split; [constructor; assumption|].
      split.
      { rewrite posted_routes_app, (proj1 (trace_of_tries route k Hk)), Hposted.
        reflexivity. }
      split.
      { rewrite pauses_app. apply Forall_app. split; assumption. }
      split.
      { intros Hi. cbn. f_equal. apply Hl. exact Hi. }
      intros _. discriminate.
    + (* success: remember the vector and return it *)
      rewrite (try_backends_done E model route rest url last s s1 vec Ht).
      cbn [fst snd history clusters].
      exists [k], (trace_before route k ++ [EvPost route])%list.
      split; [exact Hh|]. split; [exact Hcl|].
      split; [cbn; lia|]. split; [constructor; [exact Hk|constructor]|].
      split.
      { rewrite (proj1 (trace_of_tries route k Hk)). cbn.
        destruct (map snd rest); rewrite app_nil_r; reflexivity. }
      split; [exact Hpause|].
      split; [intros []|]. intros _. discriminate.
Qed.

(** C6.  One back end ([tryEmbed] on a route) is tried k times with
    1 <= k <= 3; before its i-th try the earlier tries were each followed
    by a pause of 400 ms times the number of the try; every try that was
    followed by another one had failed with a status in the 5xx range
    (500, 502, 503 or 504); the k-th try is the last one because it
    succeeded, or failed otherwise (a rejected fetch, a body that is not
    JSON, any other status), or was the third.  A first failure that is
    not transient therefore ends the back end after a single post.  The
    walk over the back ends ([getEmbedding] after a cache miss, with a key
    and a fetched image) posts to the routes in the fixed order of
    [backends], each up to three times with pauses of 400 and 800 ms,
    stops at the first success, and has visited all nine when it fails. *)
Theorem provider_retry_and_fallback (E : Env) (cfg : Config) (route url : string)
    (s : HF.St) :
  (exists k, (1 <= k <= 3)%nat /\
     history (snd (HF.tryEmbed E route s))
       = (history s ++ trace_before route k ++ [EvPost route])%list /\
     posted_routes (trace_before route k ++ [EvPost route]) = repeat route k /\
     pauses (trace_before route k ++ [EvPost route])
       = map (fun j => 400 * j)%nat (seq 1 (k - 1)) /\
     (forall i, (1 <= i < k)%nat ->
        exists status body txt,
          attempt_reply E route s i = Resp status body txt /\
          (500 <= status <= 599)%nat /\ HF.transient status = true) /\
     match classify (attempt_reply E route s k) with
     | Success vec => fst (HF.tryEmbed E route s) = inr vec
     | Fatal => is_inl (fst (HF.tryEmbed E route s))
     | Transient => k = 3%nat /\ is_inl (fst (HF.tryEmbed E route s))
     end) /\
  (classify (post_reply E (history s) route) = Fatal ->
     is_inl (fst (HF.tryEmbed E route s)) /\
     history (snd (HF.tryEmbed E route s)) = (history s ++ [EvPost route])%list) /\
  (List.length (HF.backends cfg) = 9%nat /\
   HF.backends cfg
   = flat_map (fun model => map (fun r => (model, r)) (HF.HF_ROUTES model))
              (HF.HF_MODELS cfg)) /\
  (forall buf s0,
     HF.cache_get url (embedCache s) = None ->
     nonempty (HUGGINGFACE_API_KEY cfg) = true ->
     HF.fetchImageBuffer E url s = (inr buf, s0) ->
     HF.getEmbedding E cfg url s = HF.try_backends E (HF.backends cfg) url None s0) /\
  (forall last s0,
     exists ks ev,
       history (snd (HF.try_backends E (HF.backends cfg) url last s0))
         = (history s0 ++ ev)%list /\
       (List.length ks <= 9)%nat /\
       Forall (fun k => 1 <= k <= 3)%nat ks /\
       posted_routes ev = visits (map snd (HF.backends cfg)) ks /\
       Forall (fun ms => ms = 400 \/ ms = 800)%nat (pauses ev) /\
       (is_inl (fst (HF.try_backends E (HF.backends cfg) url last s0)) ->
          List.length ks = 9%nat) /\
       (is_inr (fst (HF.try_backends E (HF.backends cfg) url last s0)) -> ks <> [])).
Proof.
  split; [|split; [|split; [|split]]].
  - destruct (tryEmbed_shape E route s) as (k & Hk & Hh & _ & _ & _ & Hall & Hres).
    exists k. split; [exact Hk|]. split; [exact Hh|].
    split; [apply trace_of_tries; exact Hk|].
    split; [apply trace_of_tries; exact Hk|].
    split; [|exact Hres].
    intros i Hi. apply classify_transient. apply Hall. exact Hi.
  - intros Hfatal.
    destruct (tryEmbed_shape E route s) as (k & Hk & Hh & _ & _ & _ & Hall & Hres).
    assert (R1 : attempt_reply E route s 1 = post_reply E (history s) route).
    { unfold attempt_reply, trace_before. cbn. rewrite app_nil_r. reflexivity. }
    assert (k = 1)%nat.
    { destruct (Nat.eq_dec k 1) as [|Hne]; [assumption|].
      specialize (Hall 1%nat ltac:(lia)). rewrite R1, Hfatal in Hall. discriminate. }
    subst k. rewrite R1, Hfatal in Hres. split; [exact Hres|].
    rewrite Hh. reflexivity.
  - split; reflexivity.
  - intros buf s0 Hmiss Hkey Himg.
    unfold HF.getEmbedding. unfold bind at 1, get_state. rewrite Hmiss, Hkey. cbn [negb].
    unfold bind. rewrite Himg. reflexivity.
  - intros last s0.
    destruct (try_backends_visits E (HF.backends cfg) url last s0)
      as (ks & ev & Hh & _ & Hlen & Hall & Hp & Hpa & Hl & Hr).
    exists ks, ev. repeat split; assumption.
Qed.

(** A route that answers 503 twice and then a vector: three posts with
    pauses of 400 and 800 ms, and the vector is returned. *)
Example tryEmbed_flaky_route :
  HF.tryEmbed flaky_env "https://api/models/m" init_state
  = (inr [Some 1; Some 0],
     mkState [EvPost "https://api/models/m"; EvSleep 400;
              EvPost "https://api/models/m"; EvSleep 800;
              EvPost "https://api/models/m"] [] [] []).
Proof. reflexivity. Qed.

(** Routes that answer 401: each of the nine is posted to once, in the
    order of [backends], without a pause, and the embedding fails. *)
Example getEmbedding_refused :
  let r := HF.getEmbedding refusing_env (test_config false) "https://cdn.example/p1.jpg"
                           init_state in
  is_inl (fst r) /\
  posted_routes (history (snd r)) = map snd (HF.backends (test_config false)) /\
  pauses (history (snd r)) = [].
Proof. cbv zeta. split; [exact I|]. split; reflexivity. Qed.

(** ** The streaming centroid *)

Lemma add_into_length c vec : List.length (add_into c vec) = List.length c.
Proof.
  revert vec. induction c as [|x c IH]; intros [|y vec]; cbn; try reflexivity.
  rewrite IH. reflexivity.
Qed.

Lemma add_into_nth c vec i :
  List.length vec = List.length c ->
  nth i (add_into c vec) 0 = nth i c 0 + nth i vec 0.
Proof.
  revert vec i. induction c as [|x c IH]; intros [|y vec] i Hlen; cbn in *;
    try discriminate.
  - destruct i; lra.
  - destruct i; [reflexivity|]. apply IH. lia.
Qed.

(** Folding vectors of one dimension into an accumulator of that
    dimension adds up cell by cell. *)
Lemma streamed_sum_nth vs c i :
  Forall (fun vec => List.length vec = List.length c) vs ->
  exists w, fold_left fold_step vs (Some c) = Some w /\
            List.length w = List.length c /\
            nth i w 0 = nth i c 0 + sum_cells vs i.
Proof.
  revert c. induction vs as [|vec vs IH]; intros c Hall.
  - exists c. cbn. unfold sum_cells. cbn. repeat split; lra.
  - inversion Hall as [|? ? Hv Hrest]; subst.
    cbn [fold_left]. unfold fold_step at 2.
    destruct (IH (add_into c vec)) as (w & Hw & Hlen & Hnth).
    { rewrite add_into_length. exact Hrest. }
    exists w. split; [exact Hw|]. split; [rewrite Hlen; apply add_into_length|].
    rewrite Hnth, add_into_nth by exact Hv. unfold sum_cells. cbn. lra.
Qed.

Lemma repeat_zero_nth d i : nth i (repeat 0 d) 0 = 0.
Proof.
  revert i. induction d as [|d IH]; intros [|i]; cbn; try reflexivity. apply IH.
Qed.

Lemma nth_map_lt {A B} (f : A -> B) l i d d' :
  (i < List.length l)%nat -> nth i (map f l) d' = f (nth i l d).
Proof.
  intros H. rewrite (nth_indep _ d' (f d)) by (rewrite length_map; exact H).
  apply map_nth.
Qed.

(** The streamed centroid of vectors of dimension [d] is their mean. *)
Lemma streamed_mean vs d :
  vs <> [] ->
  Forall (fun vec => List.length vec = d) vs ->
  exists w, fold_left fold_step vs None = Some w /\
            div_all w (List.length vs) = mean_vec vs d.
Proof.
  intros Hne Hall. destruct vs as [|v0 vs]; [contradiction|].
  inversion Hall as [|? ? Hv0 Hrest]; subst.
  cbn [fold_left]. unfold fold_step at 2.
  set (c0 := add_into (repeat 0 (List.length v0)) v0).
  assert (Hc0 : List.length c0 = List.length v0).
  { unfold c0. rewrite add_into_length, repeat_length. reflexivity. }
  assert (Hw : forall i, exists w, fold_left fold_step vs (Some c0) = Some w /\
            List.length w = List.length c0 /\ nth i w 0 = nth i c0 0 + sum_cells vs i).
  { intros i. apply streamed_sum_nth. rewrite Hc0. exact Hrest. }
  destruct (Hw O) as (w & Hfold & Hlen & _).
  exists w. split; [exact Hfold|].
  apply nth_ext with (d := 0) (d' := 0).
  - unfold div_all, mean_vec. rewrite !length_map, length_seq. lia.
  - intros i Hi. unfold div_all in Hi. rewrite length_map in Hi.
    unfold div_all, mean_vec.
    rewrite (nth_map_lt _ _ _ 0) by exact Hi.
    rewrite (nth_map_lt _ _ _ O) by (rewrite length_seq; lia).
    rewrite seq_nth by lia. cbn [Nat.add].
    f_equal.
    destruct (Hw i) as (w' & Hfold' & _ & Hnth).
    rewrite Hfold in Hfold'. inversion Hfold'; subst w'.
    rewrite Hnth. unfold c0.
    rewrite add_into_nth by (rewrite repeat_length; reflexivity).
    rewrite repeat_zero_nth. unfold sum_cells. cbn. lra.
Qed.

(** The mean does not depend on the order in which the vectors arrive. *)
Lemma sum_cells_perm vs vs' i : Permutation vs vs' -> sum_cells vs i = sum_cells vs' i.
Proof.
  intros H. unfold sum_cells. induction H; cbn; try lra.
Qed.

Lemma mean_vec_perm vs vs' d : Permutation vs vs' -> mean_vec vs d = mean_vec vs' d.
Proof.
  intros H. unfold mean_vec. rewrite (Permutation_length H).
  apply map_ext. intros i. rewrite (sum_cells_perm vs vs' i H). reflexivity.
Qed.

Lemma mean_vec_single vec : mean_vec [vec] (List.length vec) = vec.
Proof.
  apply nth_ext with (d := 0) (d' := 0).
  - unfold mean_vec. rewrite length_map, length_seq. reflexivity.
  - intros i Hi. unfold mean_vec in *. rewrite length_map, length_seq in Hi.
    rewrite (nth_map_lt _ _ _ O) by (rewrite length_seq; lia).
    rewrite seq_nth by lia. unfold sum_cells. cbn. lra.
Qed.

(** ** A cache build of a centroid server *)

(** The loop of a pool is the run described by [pool_successes], with the
    vectors folded into the sum as they come. *)
Lemma fold_embeds_run E fname queue c n (s : Centroid.St) :
  Centroid.fold_embeds E fname queue c n s
  = (inr (fold_left fold_step (fst (pool_successes E fname queue s)) c,
          (n + List.length (fst (pool_successes E fname queue s)))%nat),
     snd (pool_successes E fname queue s)).
Proof.
  revert c n s. induction queue as [|u rest IH]; intros c n s.
  - cbn. rewrite Nat.add_0_r. reflexivity.
  - cbn [Centroid.fold_embeds pool_successes].
    unfold bind at 1, try_catch, bind at 1, Centroid.embedOne, bind at 1, get_state.
    unfold bind at 1, record, modify. cbn [history console clusters embedCache].
    destruct (embed_reply E (history s) (resized_url u)) as [e|vec].
    + unfold throw at 1. unfold bind at 1, console_error, modify, ret.
      cbn [history console clusters embedCache].
      rewrite IH. reflexivity.
    + unfold ret at 1 2. rewrite IH. unfold after_embed.
      destruct (pool_successes E fname rest _) as [vs s'].
      cbn [fst snd fold_left List.length]. rewrite Nat.add_succ_r. reflexivity.
Qed.

Lemma run_pool_run E cfg fname urls (s : Centroid.St) :
  Centroid.run_pool E cfg fname urls s
  = (inr (fold_left fold_step (fst (pool_successes E fname (pool_queue E cfg urls) s)) None,
          List.length (fst (pool_successes E fname (pool_queue E cfg urls) s))),
     snd (pool_successes E fname (pool_queue E cfg urls) s)).
Proof.
  unfold Centroid.run_pool, pool_queue.
  destruct (Nat.min (MAX_EMBEDS_CONCURRENCY cfg) (List.length urls)).
  - reflexivity.
  - apply fold_embeds_run.
Qed.

Lemma fold_step_some vs c : exists w, fold_left fold_step vs (Some c) = Some w.
Proof.
  revert c. induction vs as [|vec vs IH]; intros c.
  - exists c. reflexivity.
  - cbn. apply IH.
Qed.

Lemma group_of_cases fname vs :
  (vs = [] /\ group_of fname vs = []) \/
  (vs <> [] /\ exists w, fold_left fold_step vs None = Some w /\
     group_of fname vs
     = [Centroid.mkCluster fname (inferGenderFromFolder fname) (List.length vs)
                           (div_all w (List.length vs))]).
Proof.
  destruct vs as [|v0 vs].
  - left. split; reflexivity.
  - right. split; [discriminate|].
    unfold group_of. cbn [fold_left List.length]. unfold fold_step at 2 4.
    destruct (fold_step_some vs (add_into (repeat 0 (List.length v0)) v0)) as [w Hw].
    exists w. rewrite Hw. split; reflexivity.
Qed.

(** The work on one folder: abort when the listing fails; otherwise run
    the pool over the first [MAX_REFS_PER_FOLDER] urls and append the
    group it leaves, if any. *)
Lemma build_folder_run E cfg fname out (s : Centroid.St) :
  Centroid.build_folder E cfg fname out s
  = match Centroid.searchFolderAssets E fname s with
    | (inl e, s1) => (inl e, s1)
    | (inr urlsAll, s1) =>
        let run := pool_successes E fname
                     (pool_queue E cfg (firstn (MAX_REFS_PER_FOLDER cfg) urlsAll)) s1 in
        (inr (out ++ group_of fname (fst run))%list, snd run)
    end.
Proof.
  unfold Centroid.build_folder. unfold bind at 1.
  destruct (Centroid.searchFolderAssets E fname s) as [[e|urlsAll] s1]; [reflexivity|].
  destruct urlsAll as [|u0 urls0].
  - cbn. unfold pool_queue. rewrite firstn_nil. cbn [List.length].
    rewrite Nat.min_0_r. cbn. rewrite app_nil_r. reflexivity.
  - unfold bind. rewrite run_pool_run. cbv zeta.
    set (run := pool_successes E fname _ s1).
    destruct (group_of_cases fname (fst run)) as [[Hnil Hg]|[Hne (w & Hw & Hg)]].
    + rewrite Hg, Hnil, app_nil_r. reflexivity.
    + rewrite Hg, Hw. destruct (fst run) as [|v0 vs]; [contradiction|]. reflexivity.
Qed.

Lemma build_folder_groups E cfg fname out (s : Centroid.St) out' s' :
  Forall (fun c => (1 <= Centroid.size c)%nat /\ built_from E cfg c) out ->
  Centroid.build_folder E cfg fname out s = (inr out', s') ->
  Forall (fun c => (1 <= Centroid.size c)%nat /\ built_from E cfg c) out'.
Proof.
  intros Hout Hrun. rewrite build_folder_run in Hrun.
  destruct (Centroid.searchFolderAssets E fname s) as [[e|urlsAll] s1] eqn:Hsearch;
    [discriminate|].
  cbv zeta in Hrun.
  set (run := pool_successes E fname
                (pool_queue E cfg (firstn (MAX_REFS_PER_FOLDER cfg) urlsAll)) s1) in *.
  inversion Hrun; subst out' s'. clear Hrun.
  apply Forall_app. split; [exact Hout|].
  destruct (group_of_cases fname (fst run)) as [[Hnil Hg]|[Hne (w & Hw & Hg)]];
    rewrite Hg; [constructor|].
  constructor; [|constructor].
  cbn [Centroid.size]. split.
  - destruct (fst run); [contradiction|]. cbn. lia.
  - exists s, s1, (snd run), urlsAll, (fst run). cbn [Centroid.label].
    split; [exact Hsearch|].
    split; [apply surjective_pairing|].
    split; [exact Hne|].
    split; [reflexivity|].
    split; [reflexivity|].
    intros d Hall. cbn [Centroid.centroid].
    destruct (streamed_mean (fst run) d Hne Hall) as (w' & Hw' & Hmean).
    rewrite Hw in Hw'. inversion Hw'; subst w'. exact Hmean.
Qed.

Lemma build_folders_groups E cfg names out (s : Centroid.St) out' s' :
  Forall (fun c => (1 <= Centroid.size c)%nat /\ built_from E cfg c) out ->
  Centroid.build_folders E cfg names out s = (inr out', s') ->
  Forall (fun c => (1 <= Centroid.size c)%nat /\ built_from E cfg c) out'.
Proof.
  revert out s. induction names as [|fname rest IH]; intros out s Hout Hrun.
  - cbn in Hrun. inversion Hrun; subst. exact Hout.
  - cbn [Centroid.build_folders] in Hrun. unfold bind in Hrun.
    destruct (Centroid.build_folder E cfg fname out s) as [[e|out1] s1] eqn:Hf;
      [discriminate|].
    apply (IH out1 s1); [|exact Hrun].
    apply (build_folder_groups E cfg fname out s out1 s1 Hout Hf).
Qed.

(** What [loadClusters] publishes is the list its loop has built. *)
Lemma loadClusters_publishes E cfg (s s' : Centroid.St) :
  Centroid.loadClusters E cfg s = (inr tt, s') ->
  exists names s1 s2,
    Centroid.discoverReferenceFolders E cfg s = (inr names, s1) /\
    Centroid.build_folders E cfg names [] s1 = (inr (clusters s'), s2).
Proof.
  unfold Centroid.loadClusters. intros H.
  destruct (negb (nonempty (CLOUDINARY_CLOUD_NAME cfg))
            || negb (nonempty (CLOUDINARY_API_KEY cfg))
            || negb (nonempty (CLOUDINARY_API_SECRET cfg))); [discriminate|].
  unfold bind at 1 in H.
  destruct (Centroid.discoverReferenceFolders E cfg s) as [[e|names] s1]; [discriminate|].
  unfold bind at 1 in H.
  destruct (Centroid.build_folders E cfg names [] s1) as [[e|out] s2] eqn:Hb; [discriminate|].
  exists names, s1, s2. split; [reflexivity|].
  unfold bind, replace_clusters, console_log, modify in H. cbn in H.
  inversion H; subst s'. cbn [clusters]. exact Hb.
Qed.

(** The hosted-inference server keeps the vectors themselves. *)
Lemma hf_build_folder_groups E cfg fname out (s : HF.St) out' s' :
  Forall (fun c => HF.vecs c <> []) out ->
  HF.build_folder E cfg fname out s = (inr out', s') ->
  Forall (fun c => HF.vecs c <> []) out'.
Proof.
  intros Hout Hrun. unfold HF.build_folder in Hrun. unfold bind at 1 in Hrun.
  destruct (HF.searchFolderAssets E fname s) as [[e|us] s1]; [discriminate|].
  destruct us as [|u0 us]; [inversion Hrun; subst; exact Hout|].
  unfold bind in Hrun.
  destruct (hf_embed_all_total E cfg "embed_fail" [fname] (u0 :: us) s1) as (vs & s2 & Hvs).
  rewrite Hvs in Hrun.
  destruct vs as [|v0 vs]; inversion Hrun; subst; [exact Hout|].
  apply Forall_app. split; [exact Hout|].
  constructor; [cbn; discriminate|constructor].
Qed.

Lemma hf_build_folders_groups E cfg names out (s : HF.St) out' s' :
  Forall (fun c => HF.vecs c <> []) out ->
  HF.build_folders E cfg names out s = (inr out', s') ->
  Forall (fun c => HF.vecs c <> []) out'.
Proof.
  revert out s. induction names as [|fname rest IH]; intros out s Hout Hrun.
  - cbn in Hrun. inversion Hrun; subst. exact Hout.
  - cbn [HF.build_folders] in Hrun. unfold bind in Hrun.
    destruct (HF.build_folder E cfg fname out s) as [[e|out1] s1] eqn:Hf; [discriminate|].
    apply (IH out1 s1); [|exact Hrun].
    apply (hf_build_folder_groups E cfg fname out s out1 s1 Hout Hf).
Qed.

Lemma hf_loadClusters_groups E cfg (s s' : HF.St) :
  HF.loadClusters E cfg s = (inr tt, s') ->
  Forall (fun c => HF.vecs c <> []) (clusters s').
Proof.
  unfold HF.loadClusters. intros H.
  destruct (negb (nonempty (CLOUDINARY_CLOUD_NAME cfg))
            || negb (nonempty (CLOUDINARY_API_KEY cfg))
            || negb (nonempty (CLOUDINARY_API_SECRET cfg))); [discriminate|].
  unfold bind at 1 in H.
  destruct (HF.discoverReferenceFolders E cfg s) as [[e|names] s1]; [discriminate|].
  unfold bind at 1 in H.
  destruct (HF.build_folders E cfg names [] s1) as [[e|out] s2] eqn:Hb; [discriminate|].
  unfold bind, replace_clusters, console_log, modify in H. cbn in H.
  inversion H; subst s'. cbn [clusters].
  apply (hf_build_folders_groups E cfg names [] s1 out s2); [constructor|exact Hb].
Qed.

(** C7.  After a cache build that ran to its end, every group in the
    published cache of a centroid server (part_000, part_002) was built
    from a listed folder: its sample count is the number of its images
    that embedded, which is at least 1, and its centroid is the vector sum
    of their embeddings divided by that count, cell by cell, whenever they
    have one dimension.  A folder none of whose images embeds adds no
    group.  In the hosted-inference server (part_001), which keeps the
    vectors and no centroid, every published group holds at least one. *)
Theorem published_groups_are_means (E : Env) (cfg : Config) :
  (forall s s' : Centroid.St,
     Centroid.loadClusters E cfg s = (inr tt, s') ->
     Forall (fun c => (1 <= Centroid.size c)%nat /\ built_from E cfg c) (clusters s')) /\
  (forall fname out (s0 s1 s2 : Centroid.St) urlsAll,
     Centroid.searchFolderAssets E fname s0 = (inr urlsAll, s1) ->
     pool_successes E fname (pool_queue E cfg (firstn (MAX_REFS_PER_FOLDER cfg) urlsAll)) s1
       = ([], s2) ->
     Centroid.build_folder E cfg fname out s0 = (inr out, s2)) /\
  (forall s s' : HF.St,
     HF.loadClusters E cfg s = (inr tt, s') ->
     Forall (fun c => (1 <= List.length (HF.vecs c))%nat) (clusters s')).
Proof.
  split; [|split].
  - intros s s' H.
    destruct (loadClusters_publishes E cfg s s' H) as (names & s1 & s2 & _ & Hb).
    apply (build_folders_groups E cfg names [] s1 (clusters s') s2); [constructor|exact Hb].
  - intros fname out s0 s1 s2 urlsAll Hsearch Hpool.
    rewrite build_folder_run, Hsearch. cbv zeta. rewrite Hpool. cbn.
    rewrite app_nil_r. reflexivity.
  - intros s s' H. pose proof (hf_loadClusters_groups E cfg s s' H) as Hall.
    eapply Forall_impl; [|exact Hall].
    intros c Hc. cbn beta in Hc. destruct (HF.vecs c); [contradiction|cbn; lia].
Qed.

(** Scenario 4 of the specification: the folder "Reference Female A" has
    two images, one of which does not embed.  The build ends, the cache
    holds one group of size 1 whose centroid is the one vector that came
    back, and [published_groups_are_means] applies to it. *)
Lemma scenario4_cache :
  exists s',
    Centroid.loadClusters scenario4_env scenario4_config init_state = (inr tt, s') /\
    (exists c, clusters s' = [c] /\
               Centroid.label c = "Reference Female A"%string /\
               Centroid.gender_tag c = Female /\
               Centroid.size c = 1%nat /\
               Centroid.centroid c = [0.6; 0.8]) /\
    console s'
      = [LogError "embed_fail" ["Reference Female A"; "https://cdn.example/a2.jpg";
                                "image_fetch_failed:404"]%string;
         LogLoaded [("Reference Female A"%string, 1%nat)]] /\
    Forall (fun c => (1 <= Centroid.size c)%nat /\ built_from scenario4_env scenario4_config c)
           (clusters s').
Proof.
  eexists. split; [reflexivity|].
  split.
  - eexists. split; [reflexivity|]. cbn.
    repeat split; try reflexivity. repeat f_equal; lra.
  - split; [reflexivity|].
    apply (proj1 (published_groups_are_means scenario4_env scenario4_config) init_state).
    reflexivity.
Defined.

(** ** Failures during a cache build *)

Lemma pool_successes_effects E fname queue (s : Centroid.St) :
  let run := pool_successes E fname queue s in
  history (snd run)
    = (history s ++ map (fun u => EvEmbed (resized_url u)) queue)%list /\
  clusters (snd run) = clusters s /\
  exists fails,
    console (snd run) = (console s ++ fails)%list /\
    Forall (fun l => exists u e, In u queue /\ l = LogError "embed_fail" [fname; u; e]) fails /\
    (List.length fails + List.length (fst run) = List.length queue)%nat.
Proof.
  cbv zeta. revert s. induction queue as [|u rest IH]; intros s.
  - cbn. rewrite app_nil_r. repeat split. exists []. rewrite app_nil_r.
    repeat split. constructor.
  - cbn [pool_successes].
    destruct (embed_reply E (history s) (resized_url u)) as [e|vec].
    + set (s1 := mkState _ _ _ _).
      destruct (IH s1) as (Hh & Hc & fails & Hcon & Hall & Hlen).
      rewrite Hh, Hc. cbn [history clusters s1]. rewrite <- app_assoc.
      split; [reflexivity|]. split; [reflexivity|].
      exists (LogError "embed_fail" [fname; u; e] :: fails).
      rewrite Hcon. cbn [console s1]. rewrite <- app_assoc.
      split; [reflexivity|]. split.
      * constructor.
        -- exists u, e. split; [left; reflexivity|reflexivity].
        -- eapply Forall_impl; [|exact Hall].
           intros l (u' & e' & Hin & Hl). exists u', e'. split; [right; exact Hin|exact Hl].
      * cbn [List.length]. lia.
    + destruct (IH (after_embed u s)) as (Hh & Hc & fails & Hcon & Hall & Hlen).
      destruct (pool_successes E fname rest (after_embed u s)) as [vs s'].
      cbn [fst snd] in *. rewrite Hh, Hc. unfold after_embed. cbn [history clusters].
      rewrite <- app_assoc.
      split; [reflexivity|]. split; [reflexivity|].
      exists fails. rewrite Hcon. cbn [console].
      split; [reflexivity|]. split.
      * eapply Forall_impl; [|exact Hall].
        intros l (u' & e' & Hin & Hl). exists u', e'. split; [right; exact Hin|exact Hl].
      * cbn [List.length]. lia.
Qed.

Lemma searchFolderAssets_cases E fname (s : Centroid.St) :
  let s1 := mkState (history s ++ [EvSearch fname]) (console s) (clusters s) (embedCache s) in
  Centroid.searchFolderAssets E fname s
  = match search_reply E (history s) fname with
    | inl e => (inl ("cloudinary_search_failed:" ++ e)%string, s1)
    | inr urls => (inr urls, s1)
    end.
Proof.
  cbv zeta. unfold Centroid.searchFolderAssets, bind, get_state, record, modify.
  destruct (search_reply E (history s) fname); reflexivity.
Qed.

Lemma build_folder_clusters E cfg fname out (s : Centroid.St) :
  clusters (snd (Centroid.build_folder E cfg fname out s)) = clusters s.
Proof.
  rewrite build_folder_run, searchFolderAssets_cases.
  destruct (search_reply E (history s) fname) as [e|urlsAll]; [reflexivity|].
  cbv zeta. cbn [snd].
  rewrite (proj1 (proj2 (pool_successes_effects E fname _ _))). reflexivity.
Qed.

Lemma build_folders_clusters E cfg names out (s : Centroid.St) :
  clusters (snd (Centroid.build_folders E cfg names out s)) = clusters s.
Proof.
  revert out s. induction names as [|fname rest IH]; intros out s; [reflexivity|].
  cbn [Centroid.build_folders]. unfold bind.
  pose proof (build_folder_clusters E cfg fname out s) as Hf.
  destruct (Centroid.build_folder E cfg fname out s) as [[e|out1] s1]; cbn [snd] in *.
  - exact Hf.
  - rewrite IH. exact Hf.
Qed.

Lemma discover_clusters E cfg (s : Centroid.St) :
  clusters (snd (Centroid.discoverReferenceFolders E cfg s)) = clusters s.
Proof.
  unfold Centroid.discoverReferenceFolders.
  destruct (REFERENCE_FOLDERS_JSON cfg); try reflexivity.
  unfold bind at 1, Centroid.listRootFolders, bind, get_state, record, modify.
  destruct (folders_reply E (history s)); reflexivity.
Qed.

(** A build that throws leaves the cache as it was. *)
Lemma loadClusters_failure_keeps_cache E cfg (s : Centroid.St) e s' :
  Centroid.loadClusters E cfg s = (inl e, s') -> clusters s' = clusters s.
Proof.
  unfold Centroid.loadClusters. intros H.
  destruct (negb (nonempty (CLOUDINARY_CLOUD_NAME cfg))
            || negb (nonempty (CLOUDINARY_API_KEY cfg))
            || negb (nonempty (CLOUDINARY_API_SECRET cfg))).
  { inversion H; subst. reflexivity. }
  unfold bind at 1 in H.
  pose proof (discover_clusters E cfg s) as Hd.
  destruct (Centroid.discoverReferenceFolders E cfg s) as [[e1|names] s1]; cbn [snd] in Hd.
  { inversion H; subst. exact Hd. }
  unfold bind at 1 in H.
  pose proof (build_folders_clusters E cfg names [] s1) as Hb.
  destruct (Centroid.build_folders E cfg names [] s1) as [[e2|out] s2]; cbn [snd] in Hb.
  { inversion H; subst. rewrite Hb. exact Hd. }
  unfold bind, replace_clusters, console_log, modify in H. cbn in H. discriminate.
Qed.

(** C8, as amended.  In a cache build of a centroid server: the pool
    never throws; it tries every url of its queue whatever failed before,
    writes one "embed_fail" line per image that does not embed and counts
    the others; a folder whose listing succeeds never aborts the build,
    also when none of its images embeds.  A folder whose listing fails is
    not contained: the build stops there with the listing error, no later
    folder is visited, and the cache keeps its previous groups. *)
Theorem build_contains_image_failures_only (E : Env) (cfg : Config) :
  (forall fname urls (s : Centroid.St),
     exists c n s',
       Centroid.run_pool E cfg fname urls s = (inr (c, n), s') /\
       history s' = (history s
                     ++ map (fun u => EvEmbed (resized_url u)) (pool_queue E cfg urls))%list /\
       exists fails,
         console s' = (console s ++ fails)%list /\
         Forall (fun l => exists u e, In u (pool_queue E cfg urls) /\
                                     l = LogError "embed_fail" [fname; u; e]) fails /\
         (List.length fails + n = List.length (pool_queue E cfg urls))%nat) /\
  (forall fname out (s s1 : Centroid.St) urlsAll,
     Centroid.searchFolderAssets E fname s = (inr urlsAll, s1) ->
     exists out' s', Centroid.build_folder E cfg fname out s = (inr out', s')) /\
  (forall fname rest out (s : Centroid.St) e,
     search_reply E (history s) fname = inl e ->
     Centroid.build_folders E cfg (fname :: rest) out s
     = (inl ("cloudinary_search_failed:" ++ e)%string,
        mkState (history s ++ [EvSearch fname]) (console s) (clusters s) (embedCache s))) /\
  (forall (s : Centroid.St) e s',
     Centroid.loadClusters E cfg s = (inl e, s') -> clusters s' = clusters s).
Proof.
  split; [|split; [|split]].
  - intros fname urls s. rewrite run_pool_run.
    destruct (pool_successes_effects E fname (pool_queue E cfg urls) s)
      as (Hh & _ & fails & Hcon & Hall & Hlen).
    eexists _, _, _. split; [reflexivity|]. split; [exact Hh|].
    exists fails. repeat split; assumption.
  - intros fname out s s1 urlsAll Hsearch.
    rewrite build_folder_run, Hsearch. cbv zeta. eexists _, _. reflexivity.
  - intros fname rest out s e Hfail.
    cbn [Centroid.build_folders]. unfold bind.
    rewrite build_folder_run, searchFolderAssets_cases, Hfail. reflexivity.
  - intros s e s'. apply loadClusters_failure_keeps_cache.
Qed.

(** C8, counterexample.  The storage fails to list "Reference Female A",
    the first of two folders.  The build throws the listing error, the
    only call it has made is that listing, "Reference Male A" is never
    visited, the cache keeps the group it had, and the reload request is
    answered with the error. *)
Lemma listing_failure_aborts_build :
  let s1 := mkState [EvSearch "Reference Female A"] [] (clusters centroid_loaded) [] in
  Centroid.loadClusters listing_fails_env (test_config false) centroid_loaded
    = (inl "cloudinary_search_failed:Rate limit exceeded"%string, s1) /\
  search_reply listing_fails_env (history s1) "Reference Male A"
    = inr ["https://cdn.example/m1.jpg"%string] /\
  ~ In (EvSearch "Reference Male A") (history s1) /\
  clusters s1 = clusters centroid_loaded /\
  fst (Centroid.reload_refs listing_fails_env (test_config false) Part000 "admin"
                            centroid_loaded)
    = inr (AdminError "cloudinary_search_failed:Rate limit exceeded").
Proof.
  cbv zeta. split; [reflexivity|]. split; [reflexivity|]. split.
  - cbn. intros [H|[]]. discriminate.
  - split; reflexivity.
Qed.

(** ** Reload requests that overlap *)

Lemma arrive_keeps_cache cfg v l token :
  clusters (EventLoop.st (EventLoop.arrive cfg v l token)) = clusters (EventLoop.st l) /\
  EventLoop.finished (EventLoop.arrive cfg v l token) = EventLoop.finished l.
Proof.
  unfold EventLoop.arrive.
  destruct (negb (String.eqb token (ADMIN_TOKEN cfg))); [split; reflexivity|].
  destruct (Centroid.light cfg v); [split; reflexivity|].
  destruct (EventLoop.credentials_missing cfg); split; reflexivity.
Qed.

Lemma continue_build_cache l i (s : Centroid.St) remaining out :
  clusters s = last (EventLoop.finished l) [] ->
  clusters (EventLoop.st (EventLoop.continue_build l i s remaining out))
  = last (EventLoop.finished (EventLoop.continue_build l i s remaining out)) [].
Proof.
  intros H. unfold EventLoop.continue_build.
  destruct remaining; cbn [EventLoop.st EventLoop.finished].
  - rewrite last_last. reflexivity.
  - exact H.
Qed.

(** After any schedule the cache is the output of the build that ended
    last, whole; it is never a part of a build. *)
Lemma cache_is_last_finished E cfg v acts l :
  EventLoop.run E cfg v EventLoop.boot acts = Some l ->
  clusters (EventLoop.st l) = last (EventLoop.finished l) [].
Proof.
  assert (Hgen : forall acts l0 l,
            clusters (EventLoop.st l0) = last (EventLoop.finished l0) [] ->
            EventLoop.run E cfg v l0 acts = Some l ->
            clusters (EventLoop.st l) = last (EventLoop.finished l) []).
  { clear acts l. induction acts as [|a acts IH]; intros l0 l Hinv Hrun.
    - cbn in Hrun. inversion Hrun; subst. exact Hinv.
    - cbn [EventLoop.run] in Hrun.
      destruct (EventLoop.step E cfg v l0 a) as [l1|] eqn:Hstep; [|discriminate].
      apply (IH l1 l); [|exact Hrun]. clear IH Hrun.
      destruct a as [token|i]; cbn [EventLoop.step] in Hstep.
      + inversion Hstep; subst l1.
        destruct (arrive_keeps_cache cfg v l0 token) as [Hc Hf].
        rewrite Hc, Hf. exact Hinv.
      + unfold EventLoop.resume in Hstep.
        destruct (nth_error (EventLoop.tasks l0) i) as [[|remaining out]|]; [| |discriminate].
        * pose proof (discover_clusters E cfg (EventLoop.st l0)) as Hd.
          destruct (Centroid.discoverReferenceFolders E cfg (EventLoop.st l0))
            as [[e|names] s]; cbn [snd] in Hd; injection Hstep as Hl1; subst l1.
          -- cbn. rewrite Hd. exact Hinv.
          -- apply continue_build_cache. rewrite Hd. exact Hinv.
        * destruct remaining as [|fname rest].
          -- injection Hstep as Hl1; subst l1.
             exact (continue_build_cache l0 i (EventLoop.st l0) [] out Hinv).
          -- pose proof (build_folder_clusters E cfg fname out (EventLoop.st l0)) as Hb.
             destruct (Centroid.build_folder E cfg fname out (EventLoop.st l0))
               as [[e|out'] s]; cbn [snd] in Hb; injection Hstep as Hl1; subst l1.
             ++ cbn. rewrite Hb. exact Hinv.
             ++ apply continue_build_cache. rewrite Hb. exact Hinv. }
  apply Hgen. reflexivity.
Qed.

(** A build that nothing interleaves with does what [build_folders] does. *)
Lemma lone_build_loop E cfg v names out (s : Centroid.St) fin :
  names <> [] ->
  exists n,
    EventLoop.run E cfg v (EventLoop.mkLoop s [EventLoop.Building names out] fin)
                  (repeat (EventLoop.Resume 0) n)
    = Some (match Centroid.build_folders E cfg names out s with
            | (inr out', s1) =>
                EventLoop.mkLoop (snd (EventLoop.publish out' s1)) [] (fin ++ [out'])
            | (inl e, s1) =>
                EventLoop.mkLoop (snd (console_error "error" [e] s1)) [] fin
            end).
Proof.
  revert out s. induction names as [|fname rest IH]; intros out s Hne; [contradiction|].
  cbn [Centroid.build_folders]. unfold bind.
  destruct rest as [|g rest].
  - exists 1%nat. cbn [repeat EventLoop.run EventLoop.step].
    unfold EventLoop.resume. cbn [nth_error EventLoop.tasks EventLoop.st].
    destruct (Centroid.build_folder E cfg fname out s) as [[e|out'] s1]; reflexivity.
  - destruct (Centroid.build_folder E cfg fname out s) as [[e|out'] s1] eqn:Hf.
    + exists 1%nat. cbn [repeat EventLoop.run EventLoop.step].
      unfold EventLoop.resume. cbn [nth_error EventLoop.tasks EventLoop.st].
      rewrite Hf. reflexivity.
    + destruct (IH out' s1 ltac:(discriminate)) as [n Hn].
      exists (S n). cbn [repeat EventLoop.run EventLoop.step].
      unfold EventLoop.resume at 1. cbn [nth_error EventLoop.tasks EventLoop.st].
      rewrite Hf. exact Hn.
Qed.

(** A reload request that is served alone leaves the process in the state
    in which the handler [reload_refs], run in one piece, leaves it. *)
Lemma lone_reload_is_handler E cfg v token (s : Centroid.St) fin :
  exists n l,
    EventLoop.run E cfg v (EventLoop.mkLoop s [] fin)
                  (EventLoop.Arrive token :: repeat (EventLoop.Resume 0) n) = Some l /\
    EventLoop.st l = snd (Centroid.reload_refs E cfg v token s) /\
    EventLoop.tasks l = [].
Proof.
  unfold Centroid.reload_refs.
  cbn [EventLoop.run EventLoop.step]. unfold EventLoop.arrive.
  cbn [EventLoop.st EventLoop.tasks EventLoop.finished].
  destruct (negb (String.eqb token (ADMIN_TOKEN cfg))).
  { exists 0%nat. eexists. split; [reflexivity|]. split; reflexivity. }
  destruct (Centroid.light cfg v).
  { exists 0%nat. eexists. split; [reflexivity|]. split; reflexivity. }
  unfold try_catch, Centroid.loadClusters, EventLoop.credentials_missing.
  destruct (negb (nonempty (CLOUDINARY_CLOUD_NAME cfg))
            || negb (nonempty (CLOUDINARY_API_KEY cfg))
            || negb (nonempty (CLOUDINARY_API_SECRET cfg))).
  { exists 0%nat. eexists. split; [reflexivity|]. split; reflexivity. }
  cbn [app].
  unfold bind at 1. unfold bind at 1.
  destruct (Centroid.discoverReferenceFolders E cfg s) as [[e|names] s1] eqn:Hd.
  { exists 1%nat. eexists. cbn [repeat EventLoop.run EventLoop.step].
    unfold EventLoop.resume. cbn [nth_error EventLoop.tasks EventLoop.st]. rewrite Hd.
    split; [reflexivity|]. split; reflexivity. }
  destruct names as [|fname rest].
  { exists 1%nat. eexists. cbn [repeat EventLoop.run EventLoop.step].
    unfold EventLoop.resume. cbn [nth_error EventLoop.tasks EventLoop.st]. rewrite Hd.
    split; [reflexivity|]. split; reflexivity. }
  destruct (lone_build_loop E cfg v (fname :: rest) [] s1 fin ltac:(discriminate)) as [n Hn].
  exists (S n). cbn [repeat EventLoop.run EventLoop.step].
  unfold EventLoop.resume at 1. cbn [nth_error EventLoop.tasks EventLoop.st]. rewrite Hd.
  unfold EventLoop.continue_build. cbn [EventLoop.replace_nth EventLoop.tasks EventLoop.finished].
  rewrite Hn. eexists. split; [reflexivity|].
  unfold bind at 1.
  destruct (Centroid.build_folders E cfg (fname :: rest) [] s1) as [[e|out] s2];
    split; reflexivity.
Qed.

(** C3, as amended.  Cache builds are not serialised.  An authorized
    reload request (LIGHT_MODE off, credentials present) starts its build
    at once, whatever builds are in flight: it is neither rejected nor
    queued, and the builds in flight are one more.  A build served alone
    behaves as the handler run in one piece.  Builds that overlap each
    fill a list of their own, and the cache is replaced in one step at the
    end of a build: after every schedule the cache is the whole output of
    the build that ended last (or empty, if none has), never a mix. *)
Theorem reload_builds_overlap (E : Env) (cfg : Config) (v : Variant) :
  (forall l token,
     String.eqb token (ADMIN_TOKEN cfg) = true ->
     Centroid.light cfg v = false ->
     EventLoop.credentials_missing cfg = false ->
     EventLoop.step E cfg v l (EventLoop.Arrive token)
     = Some (EventLoop.mkLoop (EventLoop.st l)
                              (EventLoop.tasks l ++ [EventLoop.Discovering])
                              (EventLoop.finished l)) /\
     EventLoop.builds_in_flight (EventLoop.arrive cfg v l token)
     = S (EventLoop.builds_in_flight l)) /\
  (forall token (s : Centroid.St) fin,
     exists n l,
       EventLoop.run E cfg v (EventLoop.mkLoop s [] fin)
                     (EventLoop.Arrive token :: repeat (EventLoop.Resume 0) n) = Some l /\
       EventLoop.st l = snd (Centroid.reload_refs E cfg v token s) /\
       EventLoop.tasks l = []) /\
  (forall acts l,
     EventLoop.run E cfg v EventLoop.boot acts = Some l ->
     clusters (EventLoop.st l) = last (EventLoop.finished l) []).
Proof.
  split; [|split].
  - intros l token Htok Hlight Hcred.
    cbn [EventLoop.step]. unfold EventLoop.arrive, EventLoop.builds_in_flight.
    rewrite Htok, Hlight, Hcred. cbn [negb EventLoop.tasks].
    split; [reflexivity|]. rewrite length_app. cbn. lia.
  - intros token s fin. apply lone_reload_is_handler.
  - intros acts l. apply cache_is_last_finished.
Qed.

(** C3, counterexample.  Part_000 with two reference folders.  A reload
    request arrives and its build works through the first folder; while it
    waits for the listing of the second, another reload request arrives
    and its build starts: two builds are in flight.  Their steps then
    interleave, both run to the end, and the cache is replaced twice. *)
Lemma two_builds_in_flight :
  let cfg := test_config false in
  let first := [EventLoop.Arrive "admin"; EventLoop.Resume 0; EventLoop.Resume 0;
                EventLoop.Arrive "admin"; EventLoop.Resume 1] in
  let rest := [EventLoop.Resume 1; EventLoop.Resume 0; EventLoop.Resume 0] in
  exists l l' groupA,
    EventLoop.run scenario4_env cfg Part000 EventLoop.boot first = Some l /\
    EventLoop.builds_in_flight l = 2%nat /\
    EventLoop.tasks l
    = [EventLoop.Building ["Reference Male A"%string] [groupA];
       EventLoop.Building ["Reference Female A"; "Reference Male A"]%string []] /\
    clusters (EventLoop.st l) = [] /\
    EventLoop.run scenario4_env cfg Part000 EventLoop.boot (first ++ rest) = Some l' /\
    EventLoop.tasks l' = [] /\
    List.length (EventLoop.finished l') = 2%nat /\
    List.length (clusters (EventLoop.st l')) = 2%nat.
Proof.
  cbv zeta.
  match goal with
  | |- context [EventLoop.run ?E ?c ?v ?b (?f ++ ?r)] =>
      let x := eval vm_compute in (EventLoop.run E c v b f) in
      let y := eval vm_compute in (EventLoop.run E c v b (f ++ r)) in
      match x with
      | Some ?l =>
          match y with
          | Some ?l' =>
              match eval vm_compute in (EventLoop.tasks l) with
              | [EventLoop.Building _ [?g]; _] => exists l, l', g
              end
          end
      end
  end.
  repeat split; vm_compute; reflexivity.
Qed.

(** ** The statements above on concrete inputs *)

(** [inferGenderFromFolder_cases] on three folder names. *)
Lemma inferGenderFromFolder_cases_on_names :
  includes "female" (toLowerCase "Reference Female A") = true /\
  inferGenderFromFolder "Reference Female A" = Female /\
  includes "female" (toLowerCase "Reference MALE Classic") = false /\
  includes "male" (toLowerCase "Reference MALE Classic") = true /\
  inferGenderFromFolder "Reference MALE Classic" = Male /\
  includes "male" (toLowerCase "reference kids") = false /\
  inferGenderFromFolder "reference kids" = Unknown.
Proof.
  destruct (inferGenderFromFolder_cases "Reference Female A") as (Hf & _).
  destruct (inferGenderFromFolder_cases "Reference MALE Classic") as (_ & Hm & _).
  destruct (inferGenderFromFolder_cases "reference kids") as (_ & _ & Hu & _).
  split; [reflexivity|]. split; [apply Hf; reflexivity|].
  split; [reflexivity|]. split; [reflexivity|].
  split; [apply Hm; reflexivity|].
  split; [reflexivity|]. apply Hu. reflexivity.
Defined.

(** [provider_retry_and_fallback] on a route that refuses the key: the
    failure is not transient, so the back end is left after one post. *)
Lemma provider_retry_on_refusal :
  classify (post_reply refusing_env (history (@init_state HF.Cluster)) "https://api/models/m")
    = Fatal /\
  is_inl (fst (HF.tryEmbed refusing_env "https://api/models/m" init_state)) /\
  history (snd (HF.tryEmbed refusing_env "https://api/models/m" init_state))
    = [EvPost "https://api/models/m"].
Proof.
  destruct (provider_retry_and_fallback refusing_env (test_config false)
              "https://api/models/m" "https://cdn.example/p1.jpg" init_state)
    as (_ & Hfatal & _).
  split; [reflexivity|]. apply Hfatal. reflexivity.
Defined.

(** [build_contains_image_failures_only] on the storage that fails to
    list the first folder. *)
Lemma build_stops_at_failed_listing :
  search_reply listing_fails_env (history centroid_loaded) "Reference Female A"
    = inl "Rate limit exceeded"%string /\
  Centroid.build_folders listing_fails_env (test_config false)
                         ["Reference Female A"; "Reference Male A"]%string []
                         centroid_loaded
  = (inl "cloudinary_search_failed:Rate limit exceeded"%string,
     mkState [EvSearch "Reference Female A"] [] (clusters centroid_loaded) []).
Proof.
  destruct (build_contains_image_failures_only listing_fails_env (test_config false))
    as (_ & _ & Habort & _).
  split; [reflexivity|].
  exact (Habort "Reference Female A"%string ["Reference Male A"%string] []
                centroid_loaded "Rate limit exceeded"%string eq_refl).
Defined.

(** [reload_builds_overlap] on a process with one build in flight: the
    next authorized request starts a second one. *)
Lemma reload_starts_second_build :
  let l := EventLoop.mkLoop init_state [EventLoop.Discovering] [] in
  String.eqb "admin" (ADMIN_TOKEN (test_config false)) = true /\
  Centroid.light (test_config false) Part000 = false /\
  EventLoop.credentials_missing (test_config false) = false /\
  EventLoop.step dead_env (test_config false) Part000 l (EventLoop.Arrive "admin")
  = Some (EventLoop.mkLoop init_state [EventLoop.Discovering; EventLoop.Discovering] []) /\
  EventLoop.builds_in_flight (EventLoop.arrive (test_config false) Part000 l "admin") = 2%nat.
Proof.
  cbv zeta.
  destruct (reload_builds_overlap dead_env (test_config false) Part000) as (Harrive & _).
  split; [reflexivity|]. split; [reflexivity|]. split; [reflexivity|].
  exact (Harrive (EventLoop.mkLoop init_state [EventLoop.Discovering] []) "admin"%string
                 eq_refl eq_refl eq_refl).
Defined.

(** ** The scenarios of the specification, run on the model *)

(** Evaluate the integers under [IZR]. *)
Ltac norm_IZR :=
  repeat match goal with
         | |- context [IZR ?z] =>
             lazymatch z with
             | Z0 => fail
             | Zpos _ => fail
             | Zneg _ => fail
             | _ => let z' := eval vm_compute in z in change (IZR z) with (IZR z')
             end
         end.

Lemma tok_value_int z : tok_value (mkTok z 0 0) = IZR z.
Proof. unfold tok_value. cbn. lra. Qed.

Example parseMeas_dashes :
  exists m, parseMeas (Some "82-60-88"%string) = Some m /\
            m_b m = 82 /\ m_w m = 60 /\ m_h m = 88.
Proof.
  eexists. split; [reflexivity|]. cbn [m_b m_w m_h].
  rewrite !tok_value_int. repeat split; reflexivity.
Qed.

Example parseMeas_decimals :
  exists m, parseMeas (Some "bust 82.5, waist 60 / hip 88.25cm"%string) = Some m /\
            m_b m = 82.5 /\ m_w m = 60 /\ m_h m = 88.25.
Proof.
  eexists. split; [reflexivity|]. cbn [m_b m_w m_h].
  unfold tok_value. cbn [tok_int tok_frac tok_scale]. norm_IZR. repeat split; lra.
Qed.

Example parseMeas_too_few : parseMeas (Some "82-60"%string) = None.
Proof. reflexivity. Qed.

Lemma heightScore_female_at_target : heightScoreFactory female_height (Some 177) = 0.65.
Proof.
  change (heightScoreFactory female_height (Some 177)) with (heightScoreAt female_height 177).
  rewrite (heightScore_inside female_height female_height_wf) by (simpl; lra).
  unfold height_s, height_bonus. cbn [h_min h_max h_target female_height].
  replace (- ((177 - 177) / ((182 - 172) / 2 / 2)) ^ 2) with 0 by (field; lra).
  rewrite exp_0. rewrite clamp01_id; lra.
Qed.

Lemma decide_proceed c : 0.70 <= c -> decide c = proceed.
Proof. intros H. unfold decide. destruct (Rle_dec 0.70 c); [reflexivity|lra]. Qed.

Lemma decide_review c : 0.45 <= c < 0.70 -> decide c = review.
Proof.
  intros H. unfold decide. destruct (Rle_dec 0.70 c); [lra|].
  destruct (Rle_dec 0.45 c); [reflexivity|lra].
Qed.

Lemma decide_reject c : c < 0.45 -> decide c = reject.
Proof.
  intros H. unfold decide. destruct (Rle_dec 0.70 c); [lra|].
  destruct (Rle_dec 0.45 c); [lra|reflexivity].
Qed.

(** The thresholds of the decision are exact. *)
Example decide_thresholds :
  decide 0.70 = proceed /\ decide 0.6999 = review /\
  decide 0.45 = review /\ decide 0.4499 = reject.
Proof.
  repeat split;
    [apply decide_proceed|apply decide_review|apply decide_review|apply decide_reject]; lra.
Qed.

Lemma measScore_000_female_target m :
  m_b m = 82 -> m_w m = 60 -> m_h m = 88 -> measScore Part000 Female (Some m) = 1.
Proof.
  intros Hb Hw Hh. cbn [measScore measScore_000 PREFS meas_bands meas_target meas_tol m_b m_w m_h].
  rewrite Hb, Hw, Hh, !Rminus_diag, Rabs_R0.
  unfold Rdiv at 2 3 4. rewrite !Rmult_0_l, !Rminus_0_r. rewrite clamp01_id; lra.
Qed.

(** Scenario 1 on part_000 (LIGHT_MODE off, empty cache): three photos,
    female, 177 cm, "82-60-88".  The height score is 0.65 (half the ramp
    plus the full bonus), the measurement score 1, the face similarity the
    neutral 0.5, the photo bonus 0.04 and the tie-break 0.006; the
    confidence is 0.7885 and the decision "proceed". *)
Example scenario1_on_part000 :
  exists body s',
    Centroid.evaluate dead_env (test_config false) Part000 scenario1_request init_state
      = (inr (Ok body), s') /\
    confidence body = 0.7885 /\
    decision body = proceed /\
    face_similarity body = 0.5 /\
    face_cluster body = "none"%string /\
    reason body
      = "height within range; measurements in ideal window; no reference faces loaded (none)"%string.
Proof.
  destruct parseMeas_dashes as (m & Hm & Hb & Hw & Hh).
  assert (Hconf : blend (measScore Part000 Female (Some m))
                        (heightScoreFactory female_height (Some 177)) 0.5 3
                        (tinyNoise dead_env (photos scenario1_request)) = 0.7885).
  { rewrite (measScore_000_female_target m Hb Hw Hh), heightScore_female_at_target.
    unfold blend. rewrite photoBoost_three.
    unfold tinyNoise. cbn [dead_env sha256_prefix photo_term].
    change (Z.of_N (4660 mod 100)) with 60%Z. rewrite clamp01_id; lra. }
  unfold Centroid.evaluate.
  change (auth_fails (EVALUATOR_API_KEY (test_config false))
                     (authorization scenario1_request)) with false.
  cbn [photos scenario1_request gender measurements height_cm Centroid.light test_config
       LIGHT_MODE].
  change (GEN_of (Some "female"%string)) with Female.
  rewrite Hm. cbn [PREFS p_height].
  unfold try_catch, Centroid.face_block, try_catch, bind, get_state.
  cbn [clusters init_state ret faceScore faceCluster List.length].
  change (photos scenario1_request)
    with ["https://cdn.example/p1.jpg"; "https://cdn.example/p2.jpg";
          "https://cdn.example/p3.jpg"]%string in Hconf.
  rewrite Hconf.
  eexists _, _. split; [reflexivity|]. cbn [confidence decision face_similarity face_cluster reason].
  split; [reflexivity|]. split; [apply decide_proceed; lra|].
  split; [apply toFixed3_half|]. split; [reflexivity|].
  unfold Centroid.reasons, height_reason, meas_reason.
  cbn [height_cm photos scenario1_request].
  rewrite heightScore_female_at_target, (measScore_000_female_target m Hb Hw Hh).
  destruct (Req_dec_T 177 0); [lra|].
  destruct (Rle_dec 0.75 0.65); [lra|]. destruct (Rle_dec 0.45 0.65); [|lra].
  destruct (Rle_dec 0.75 1); [|lra]. reflexivity.
Qed.

Lemma clamp01_nonpos x : x <= 0 -> clamp01 x = 0.
Proof.
  intros Hx. unfold clamp01, clamp, Rmax, Rmin.
  destruct (Rle_dec 1 x); destruct (Rle_dec 0 _); lra.
Qed.

(** A measurement more than a tolerance above its target scores 0. *)
Lemma target_term_far x t tol : 0 < tol -> t + tol <= x -> 1 - Rabs (x - t) / tol <= 0.
Proof.
  intros Htol Hx. rewrite Rabs_pos_eq by lra.
  assert (1 <= (x - t) / tol).
  { apply Rmult_le_reg_r with tol; [exact Htol|].
    unfold Rdiv. rewrite Rmult_assoc, Rinv_l; lra. }
  lra.
Qed.

Lemma target_blend_far m t tol :
  0 < m_b tol -> 0 < m_w tol -> 0 < m_h tol ->
  m_b t + m_b tol <= m_b m -> m_w t + m_w tol <= m_w m -> m_h t + m_h tol <= m_h m ->
  target_blend m t tol = 0.
Proof.
  intros Tb Tw Th Hb Hw Hh. unfold target_blend. cbv zeta.
  rewrite (clamp01_nonpos (1 - Rabs (m_b m - m_b t) / m_b tol))
    by (apply target_term_far; assumption).
  rewrite (clamp01_nonpos (1 - Rabs (m_w m - m_w t) / m_w tol))
    by (apply target_term_far; assumption).
  rewrite (clamp01_nonpos (1 - Rabs (m_h m - m_h t) / m_h tol))
    by (apply target_term_far; assumption).
  apply clamp01_nonpos. lra.
Qed.

Lemma band_blend_far m bs :
  b_max (bands_b bs) <= m_b m -> b_max (bands_w bs) <= m_w m ->
  b_max (bands_h bs) <= m_h m ->
  band_blend m bs = 0.
Proof.
  intros Hb Hw Hh. unfold band_blend.
  rewrite !bandScore_outside by (right; assumption).
  apply clamp01_nonpos. lra.
Qed.

(** Scenario 3: "200-200-200" is far outside every band and tolerance;
    the measurement score is 0 in every server and for both genders. *)
Example scenario3_measurements_far_off :
  forall v g, measScore v g (Some (mkMeas 200 200 200)) = 0.
Proof.
  assert (Hlean : leanBonus (mkMeas 200 200 200) male_bands = 0).
  { unfold leanBonus. cbn [m_w male_bands bands_w b_ideal1].
    destruct (Rle_dec 200 77); [lra|reflexivity]. }
  assert (Hband : band_blend (mkMeas 200 200 200) male_bands = 0).
  { apply band_blend_far; simpl; lra. }
  assert (Htarget : forall t tol,
            (t = mkMeas 82 60 88 /\ tol = mkMeas 6 4 6) \/
            (t = mkMeas 96 76 94 /\ tol = mkMeas 8 6 8) ->
            target_blend (mkMeas 200 200 200) t tol = 0).
  { intros t tol [[-> ->]|[-> ->]]; apply target_blend_far; simpl; lra. }
  assert (Hraw : clamp01 ((1 - Rabs (200 - 82) / 6 + 1.2 * (1 - Rabs (200 - 60) / 4)
                           + (1 - Rabs (200 - 88) / 6)) / 3.2) = 0).
  { pose proof (target_term_far 200 82 6 ltac:(lra) ltac:(lra)).
    pose proof (target_term_far 200 60 4 ltac:(lra) ltac:(lra)).
    pose proof (target_term_far 200 88 6 ltac:(lra) ltac:(lra)).
    apply clamp01_nonpos. lra. }
  intros v g.
  destruct v, g;
    cbn [measScore measScore_000 measScore_001 measScore_old PREFS PREFS_old
         meas_bands meas_target meas_tol m_b m_w m_h];
    rewrite ?Hband, ?Hlean;
    try exact Hraw;
    try (apply Htarget; auto);
    try reflexivity;
    apply clamp01_nonpos; lra.
Qed.

(** A status of the 5xx range outside 500, 502, 503 and 504 is not
    transient for [tryEmbed]: the back end is left after one post. *)
Example tryEmbed_not_implemented :
  HF.transient 501 = false /\ classify (Resp 501 JInvalid "Not Implemented") = Fatal.
Proof. split; reflexivity. Qed.

(* ================================================================== *)
(** * Further properties of the code *)
(* ================================================================== *)

(** ** The key check *)

Lemma startsWith_app p r : startsWith p (p ++ r) = true.
Proof.
  induction p as [|a p IH]; simpl.
  - reflexivity.
  - rewrite Ascii.eqb_refl. exact IH.
Qed.

Lemma startsWith_split p s : startsWith p s = true -> exists r, s = (p ++ r)%string.
Proof.
  revert s. induction p as [|a p IH]; intros s H.
  - exists s. reflexivity.
  - destruct s as [|b s]; simpl in H; [discriminate|].
    apply andb_prop in H as [Hab Hps].
    apply Ascii.eqb_eq in Hab. subst b.
    destruct (IH s Hps) as [r ->]. exists r. reflexivity.
Qed.

Lemma substring_whole s : substring 0 (String.length s) s = s.
Proof. induction s as [|c s IH]; simpl; [reflexivity | now rewrite IH]. Qed.

Lemma substring_after p r :
  substring (String.length p) (String.length (p ++ r) - String.length p) (p ++ r) = r.
Proof.
  induction p as [|a p IH].
  - simpl. rewrite Nat.sub_0_r. apply substring_whole.
  - simpl. exact IH.
Qed.

(** X1.  The key check of [POST /evaluate] passes exactly when a key is
    configured and the header is ["Bearer "] followed by that key: with no
    key configured every request is refused, and nothing but the exact
    header passes. *)
Theorem key_check_exact (key auth : string) :
  auth_fails key auth = false <-> key <> ""%string /\ auth = ("Bearer " ++ key)%string.
Proof.
  unfold auth_fails. split.
  - intros H.
    apply orb_false_elim in H as [H Heq].
    apply orb_false_elim in H as [Hk Hb].
    apply negb_false_iff in Hk, Hb, Heq.
    split.
    + intros ->. discriminate.
    + destruct (startsWith_split _ _ Hb) as [r ->].
      assert (Hs : substring 7 (String.length ("Bearer " ++ r) - 7) ("Bearer " ++ r) = r)
        by exact (substring_after "Bearer " r).
      rewrite Hs in Heq.
      apply String.eqb_eq in Heq. now subst.
  - intros [Hk ->].
    assert (Hs : substring 7 (String.length ("Bearer " ++ key) - 7) ("Bearer " ++ key) = key)
      by exact (substring_after "Bearer " key).
    rewrite Hs, String.eqb_refl, startsWith_app.
    destruct key; [congruence | reflexivity].
Qed.

(** ** Cosine similarity *)

Lemma fold_left_sum {A} (f : A -> R) (l : list A) (a : R) :
  fold_left (fun acc p => acc + f p) l a = a + sum_over f l.
Proof.
  revert a. induction l as [|x l IH]; intros a; simpl.
  - lra.
  - rewrite IH. lra.
Qed.

Lemma sum_squares_nonneg {A} (f : A -> R) (l : list A) :
  0 <= sum_over (fun p => f p * f p) l.
Proof.
  induction l as [|x l IH]; simpl; [lra|].
  pose proof (Rle_0_sqr (f x)) as H. unfold Rsqr in H. lra.
Qed.

Lemma le_of_squares t u : 0 <= u -> t * t <= u * u -> t <= u.
Proof.
  intros Hu H. destruct (Rle_dec t u) as [|Hn]; [assumption|].
  exfalso. assert (Hlt : u < t) by lra.
  assert (u * u < t * t) by nra. lra.
Qed.

Lemma cauchy_schwarz (ps : list (R * R)) :
  let dot := sum_over (fun p => fst p * snd p) ps in
  let na := sum_over (fun p => fst p * fst p) ps in
  let nb := sum_over (fun p => snd p * snd p) ps in
  dot * dot <= na * nb.
Proof.
  induction ps as [|[x y] ps IH]; simpl.
  - lra.
  - simpl in IH.
    set (D := sum_over (fun p => fst p * snd p) ps) in *.
    set (A := sum_over (fun p => fst p * fst p) ps) in *.
    set (B := sum_over (fun p => snd p * snd p) ps) in *.
    assert (HA : 0 <= A) by apply (sum_squares_nonneg fst).
    assert (HB : 0 <= B) by apply (sum_squares_nonneg snd).
    assert (Hx : 0 <= x * x) by (pose proof (Rle_0_sqr x) as H; unfold Rsqr in H; lra).
    assert (Hy : 0 <= y * y) by (pose proof (Rle_0_sqr y) as H; unfold Rsqr in H; lra).
    assert (Hu : 0 <= A * (y * y) + B * (x * x)).
    { pose proof (Rmult_le_pos _ _ HA Hy). pose proof (Rmult_le_pos _ _ HB Hx). lra. }
    assert (Hmix : 2 * D * (x * y) <= A * (y * y) + B * (x * x)).
    { apply le_of_squares; [exact Hu|].
      assert (H1 : (2 * D * (x * y)) * (2 * D * (x * y)) = 4 * (D * D) * ((x * x) * (y * y)))
        by ring.
      assert (H2 : 4 * (D * D) * ((x * x) * (y * y)) <= 4 * (A * B) * ((x * x) * (y * y))).
      { apply Rmult_le_compat_r; [apply Rmult_le_pos; assumption | lra]. }
      assert (H3 : 0 <= (A * (y * y) - B * (x * x)) * (A * (y * y) - B * (x * x))).
      { pose proof (Rle_0_sqr (A * (y * y) - B * (x * x))) as H. unfold Rsqr in H. lra. }
      assert (H4 : (A * (y * y) + B * (x * x)) * (A * (y * y) + B * (x * x))
                   = (A * (y * y) - B * (x * x)) * (A * (y * y) - B * (x * x))
                     + 4 * (A * B) * ((x * x) * (y * y))) by ring.
      lra. }
    assert (Hexp : (x * y + D) * (x * y + D)
                   = D * D + 2 * D * (x * y) + (x * x) * (y * y)) by ring.
    assert (Hexp2 : (x * x + A) * (y * y + B)
                    = A * B + (A * (y * y) + B * (x * x)) + (x * x) * (y * y)) by ring.
    lra.
Qed.

(** [cosine] in terms of the three sums over the overlap. *)
Lemma cosine_sums a b :
  cosine a b =
  match overlap a b with
  | None => 0
  | Some ps =>
      let dot := sum_over (fun p => fst p * snd p) ps in
      let na := sum_over (fun p => fst p * fst p) ps in
      let nb := sum_over (fun p => snd p * snd p) ps in
      if truthy na && truthy nb then dot / sqrt (na * nb) else 0
  end.
Proof.
  unfold cosine. destruct (overlap a b) as [ps|]; [|reflexivity].
  cbv zeta. rewrite !fold_left_sum, !Rplus_0_l. reflexivity.
Qed.

Lemma truthy_true x : truthy x = true <-> x <> 0.
Proof. unfold truthy. destruct (Req_dec_T x 0); split; congruence. Qed.

Lemma truthy_false x : truthy x = false <-> x = 0.
Proof. unfold truthy. destruct (Req_dec_T x 0); split; congruence. Qed.

Lemma cosine_bounds (a b : NVec) : -1 <= cosine a b <= 1.
Proof.
  rewrite cosine_sums. destruct (overlap a b) as [ps|]; [|lra].
  cbv zeta.
  set (D := sum_over (fun p => fst p * snd p) ps).
  set (A := sum_over (fun p => fst p * fst p) ps).
  set (B := sum_over (fun p => snd p * snd p) ps).
  destruct (truthy A && truthy B) eqn:Ht; [|lra].
  apply andb_prop in Ht as [HA HB].
  apply truthy_true in HA, HB.
  assert (HA0 : 0 <= A) by apply (sum_squares_nonneg fst).
  assert (HB0 : 0 <= B) by apply (sum_squares_nonneg snd).
  assert (HAB : 0 < A * B) by (apply Rmult_lt_0_compat; lra).
  assert (Hs : 0 < sqrt (A * B)) by (apply sqrt_lt_R0; exact HAB).
  assert (Hss : sqrt (A * B) * sqrt (A * B) = A * B) by (apply sqrt_sqrt; lra).
  pose proof (cauchy_schwarz ps) as Hcs. cbv zeta in Hcs. fold D A B in Hcs.
  assert (Hup : D <= sqrt (A * B)) by (apply le_of_squares; lra).
  assert (Hlo : - D <= sqrt (A * B)).
  { apply le_of_squares; [lra|]. replace (- D * - D) with (D * D) by ring. lra. }
  split.
  - apply Rmult_le_reg_r with (sqrt (A * B)); [exact Hs|].
    unfold Rdiv. rewrite Rmult_assoc, Rinv_l by lra. lra.
  - apply Rmult_le_reg_r with (sqrt (A * B)); [exact Hs|].
    unfold Rdiv. rewrite Rmult_assoc, Rinv_l by lra. lra.
Qed.

(** X2.  [cosine] never leaves [-1, 1], whatever the two arrays hold:
    their sizes may differ, cells may be [NaN], a vector may be zero.
    The face score [(s + 1) / 2] read off a similarity [s] is therefore
    within [0, 1] before it is clamped. *)
Theorem cosine_range (a b : NVec) :
  -1 <= cosine a b <= 1 /\
  clamp01 ((cosine a b + 1) / 2) = (cosine a b + 1) / 2.
Proof.
  pose proof (cosine_bounds a b) as H.
  split; [exact H|]. apply clamp01_id. lra.
Qed.

Lemma sum_over_map {A B} (f : B -> R) (g : A -> B) (l : list A) :
  sum_over f (map g l) = sum_over (fun x => f (g x)) l.
Proof. induction l as [|x l IH]; simpl; [reflexivity | now rewrite IH]. Qed.

Lemma sum_over_ext {A} (f g : A -> R) (l : list A) :
  (forall x, f x = g x) -> sum_over f l = sum_over g l.
Proof. intros H. induction l as [|x l IH]; simpl; [reflexivity | now rewrite IH, H]. Qed.

Lemma sum_over_scal {A} (k : R) (f : A -> R) (l : list A) :
  sum_over (fun x => k * f x) l = k * sum_over f l.
Proof. induction l as [|x l IH]; simpl; [lra | rewrite IH; lra]. Qed.

Lemma overlap_swap a b :
  overlap b a = option_map (map (fun p => (snd p, fst p))) (overlap a b).
Proof.
  revert b. induction a as [|x a IH]; intros [|y b]; simpl; try reflexivity.
  rewrite IH.
  destruct y as [y|], x as [x|]; try reflexivity;
    destruct (overlap a b); reflexivity.
Qed.

Lemma cosine_comm a b : cosine a b = cosine b a.
Proof.
  rewrite !cosine_sums, (overlap_swap a b).
  destruct (overlap a b) as [ps|]; simpl; [|reflexivity].
  rewrite !sum_over_map. cbn [fst snd].
  rewrite (sum_over_ext (fun x => snd x * fst x) (fun p => fst p * snd p))
    by (intros; ring).
  rewrite (Rmult_comm (sum_over (fun p => snd p * snd p) ps)), andb_comm.
  reflexivity.
Qed.

Lemma overlap_firstn a b :
  overlap (firstn (Nat.min (List.length a) (List.length b)) a)
          (firstn (Nat.min (List.length a) (List.length b)) b) = overlap a b.
Proof.
  revert b. induction a as [|x a IH]; intros [|y b]; simpl; try reflexivity.
  rewrite IH. reflexivity.
Qed.

(** X3.  [cosine] is symmetric, and it reads the two arrays up to the
    length of the shorter one only: the cells of the longer array past
    that length never count. *)
Theorem cosine_symmetric_on_overlap (a b : NVec) :
  cosine a b = cosine b a /\
  cosine a b = cosine (firstn (Nat.min (List.length a) (List.length b)) a)
                      (firstn (Nat.min (List.length a) (List.length b)) b).
Proof.
  split; [apply cosine_comm|].
  unfold cosine. rewrite overlap_firstn. reflexivity.
Qed.

Lemma overlap_scale k a b :
  overlap (lift_vec (scale_vec k a)) b
  = option_map (map (fun p => (k * fst p, snd p))) (overlap (lift_vec a) b).
Proof.
  revert b. induction a as [|x a IH]; intros [|y b]; simpl; try reflexivity.
  unfold lift_vec, scale_vec in *. rewrite IH.
  destruct y as [y|]; [|reflexivity].
  destruct (overlap (map Some a) b); reflexivity.
Qed.

Lemma cosine_scale_left k a b :
  0 < k -> cosine (lift_vec (scale_vec k a)) b = cosine (lift_vec a) b.
Proof.
  intros Hk. rewrite !cosine_sums, overlap_scale.
  destruct (overlap (lift_vec a) b) as [ps|]; simpl; [|reflexivity].
  rewrite !sum_over_map. cbn [fst snd].
  set (D := sum_over (fun p => fst p * snd p) ps).
  set (A := sum_over (fun p => fst p * fst p) ps).
  set (B := sum_over (fun p => snd p * snd p) ps).
  rewrite (sum_over_ext (fun x => k * fst x * snd x) (fun p => k * (fst p * snd p)))
    by (intros; ring).
  rewrite (sum_over_ext (fun x => k * fst x * (k * fst x))
                        (fun p => (k * k) * (fst p * fst p))) by (intros; ring).
  rewrite !sum_over_scal. fold D A B.
  assert (HA0 : 0 <= A) by apply (sum_squares_nonneg fst).
  assert (HB0 : 0 <= B) by apply (sum_squares_nonneg snd).
  assert (Hkk : 0 < k * k) by (apply Rmult_lt_0_compat; assumption).
  assert (Ht : truthy (k * k * A) = truthy A).
  { destruct (truthy A) eqn:HA.
    - apply truthy_true in HA. apply truthy_true.
      apply Rmult_integral_contrapositive_currified; lra.
    - apply truthy_false in HA. apply truthy_false. rewrite HA. ring. }
  rewrite Ht.
  destruct (truthy A && truthy B) eqn:HAB; [|reflexivity].
  apply andb_prop in HAB as [HA HB]. apply truthy_true in HA, HB.
  assert (Hpos : 0 < A * B) by (apply Rmult_lt_0_compat; lra).
  assert (Hs : 0 < sqrt (A * B)) by (apply sqrt_lt_R0; exact Hpos).
  replace (k * k * A * B) with ((k * k) * (A * B)) by ring.
  rewrite sqrt_mult by lra.
  replace (k * k) with (k²) by reflexivity.
  rewrite sqrt_Rsqr by lra.
  field. split; lra.
Qed.

(** X4.  [cosine] does not see the length of a vector: scaling either
    argument by a positive factor leaves the similarity unchanged.  In
    particular the division of a centroid by the number of its images
    does not change any similarity. *)
Theorem cosine_scale_invariant (k : R) (a : Vec) (b : NVec) (n : nat) :
  0 < k ->
  cosine (lift_vec (scale_vec k a)) b = cosine (lift_vec a) b /\
  cosine b (lift_vec (scale_vec k a)) = cosine b (lift_vec a) /\
  cosine b (lift_vec (div_all a (S n))) = cosine b (lift_vec a).
Proof.
  intros Hk. split; [|split].
  - apply cosine_scale_left, Hk.
  - rewrite (cosine_comm b), (cosine_comm b (lift_vec a)). apply cosine_scale_left, Hk.
  - assert (Hn : 0 < / INR (S n)) by (apply Rinv_0_lt_compat, lt_0_INR; lia).
    assert (Hd : div_all a (S n) = scale_vec (/ INR (S n)) a).
    { unfold div_all, scale_vec. apply map_ext. intros x. unfold Rdiv. ring. }
    rewrite Hd, (cosine_comm b), (cosine_comm b (lift_vec a)).
    apply cosine_scale_left, Hn.
Qed.

Lemma cosine_scale_witness :
  cosine (lift_vec (scale_vec 2 [3; 4])) [Some 1; Some 0] = cosine (lift_vec [3; 4]) [Some 1; Some 0].
Proof. apply (cosine_scale_invariant 2 [3; 4] [Some 1; Some 0] 0). lra. Defined.

Lemma overlap_self a : overlap (lift_vec a) (lift_vec a) = Some (map (fun x => (x, x)) a).
Proof.
  induction a as [|x a IH]; simpl; [reflexivity|].
  unfold lift_vec in *. rewrite IH. reflexivity.
Qed.

Lemma sum_squares_zero (a : Vec) :
  sum_over (fun x => x * x) a = 0 -> forall x, In x a -> x = 0.
Proof.
  induction a as [|y a IH]; simpl; intros H x Hin; [contradiction|].
  pose proof (sum_squares_nonneg (fun x : R => x) a) as Hs.
  assert (Hy : 0 <= y * y) by (pose proof (Rle_0_sqr y) as Hq; unfold Rsqr in Hq; lra).
  assert (Hy0 : y * y = 0) by lra.
  destruct Hin as [<-|Hin].
  - destruct (Rmult_integral _ _ Hy0); assumption.
  - apply IH; [lra | assumption].
Qed.

Lemma sum_squares_of_zeros (a : Vec) :
  (forall x, In x a -> x = 0) -> sum_over (fun x => x * x) a = 0.
Proof.
  induction a as [|y a IH]; simpl; intros H; [reflexivity|].
  rewrite IH by (intros; apply H; now right).
  rewrite (H y) by now left. ring.
Qed.

Lemma overlap_zero_left (a : Vec) (b : NVec) ps :
  (forall x, In x a -> x = 0) ->
  overlap (lift_vec a) b = Some ps -> sum_over (fun p => fst p * fst p) ps = 0.
Proof.
  unfold lift_vec. revert b ps.
  induction a as [|x a IH]; intros b ps Hz Ho.
  - simpl in Ho. injection Ho as <-. reflexivity.
  - destruct b as [|y b]; simpl in Ho.
    + injection Ho as <-. reflexivity.
    + destruct y as [y|]; [|discriminate].
      destruct (overlap (map Some a) b) as [r|] eqn:Hr; [|discriminate].
      injection Ho as <-. simpl.
      rewrite (IH b r (fun z Hz' => Hz z (or_intror Hz')) Hr).
      rewrite (Hz x (or_introl eq_refl)). ring.
Qed.

(** X5.  A vector with a non-zero cell has similarity 1 with itself; a
    vector of zeros (or an empty one) has similarity 0 with everything,
    itself included: the guard on the two norms keeps [cosine] from
    dividing by zero. *)
Theorem cosine_self_and_zero (a : Vec) (b : NVec) :
  ((exists x, In x a /\ x <> 0) -> cosine (lift_vec a) (lift_vec a) = 1) /\
  ((forall x, In x a -> x = 0) -> cosine (lift_vec a) b = 0 /\ cosine b (lift_vec a) = 0).
Proof.
  split.
  - intros (x & Hin & Hx).
    rewrite cosine_sums, overlap_self. cbv zeta.
    rewrite !sum_over_map. cbn [fst snd].
    set (A := sum_over (fun x => x * x) a).
    assert (HA0 : 0 <= A) by apply (sum_squares_nonneg (fun x : R => x)).
    assert (HA : A <> 0).
    { intros H0. apply Hx. exact (sum_squares_zero a H0 x Hin). }
    assert (Ht : truthy A = true) by (apply truthy_true; exact HA).
    rewrite Ht. simpl.
    replace (A * A) with (A²) by reflexivity.
    rewrite sqrt_Rsqr by lra. field. exact HA.
  - intros Hz.
    assert (Hl : cosine (lift_vec a) b = 0).
    { rewrite cosine_sums.
      destruct (overlap (lift_vec a) b) as [ps|] eqn:Ho; [|reflexivity].
      cbv zeta.
      assert (Hna : sum_over (fun p => fst p * fst p) ps = 0)
        by exact (overlap_zero_left a b ps Hz Ho).
      rewrite Hna.
      assert (Ht : truthy 0 = false) by (apply truthy_false; reflexivity).
      rewrite Ht. reflexivity. }
    split; [exact Hl|]. rewrite cosine_comm. exact Hl.
Qed.

Lemma cosine_self_and_zero_witness :
  cosine (lift_vec [3; 4]) (lift_vec [3; 4]) = 1 /\
  cosine (lift_vec [0; 0]) [Some 1; Some 2] = 0.
Proof.
  destruct (cosine_self_and_zero [3; 4] []) as [Hself _].
  destruct (cosine_self_and_zero [0; 0] [Some 1; Some 2]) as [_ Hzero].
  split.
  - apply Hself. exists 3. split; [now left | lra].
  - apply Hzero. intros x [<-|[<-|[]]]; reflexivity.
Defined.

(** ** Measurements *)

Lemma scan_skip pre rest :
  digit_free pre = true -> scan_numbers Outside (pre ++ rest) = scan_numbers Outside rest.
Proof.
  induction pre as [|c pre IH]; simpl; intros H; [reflexivity|].
  apply andb_prop in H as [Hc Hpre]. apply negb_true_iff in Hc.
  rewrite Hc. simpl. apply IH, Hpre.
Qed.

Lemma scan_int_digit i c r :
  is_digit c = true ->
  scan_numbers (InInt i) (String c r) = scan_numbers (InInt (10 * i + digit_val c)) r.
Proof. intros H. cbn [scan_numbers]. rewrite H. reflexivity. Qed.

Lemma scan_out_digit c r :
  is_digit c = true ->
  scan_numbers Outside (String c r) = scan_numbers (InInt (digit_val c)) r.
Proof. intros H. cbn [scan_numbers]. rewrite H. reflexivity. Qed.

Ltac digit_value :=
  match goal with
  | |- context [digit_val ?c] =>
      let dv := fresh "dv" in
      set (dv := digit_val c); vm_compute in dv; subst dv
  end.

Lemma scan_digits d acc rest :
  scan_numbers (InInt (Z.of_nat acc)) (NilEmpty.string_of_uint d ++ rest)
  = scan_numbers (InInt (Z.of_nat (Nat.of_uint_acc d acc))) rest.
Proof.
  revert acc. induction d; intros acc;
    cbn [NilEmpty.string_of_uint append Nat.of_uint_acc]; try reflexivity;
    rewrite <- IHd, scan_int_digit by reflexivity; f_equal; f_equal;
    rewrite Nat.tail_mul_spec; digit_value; lia.
Qed.

Lemma scan_first d rest :
  d <> Decimal.Nil ->
  scan_numbers Outside (NilEmpty.string_of_uint d ++ rest)
  = scan_numbers (InInt (Z.of_nat (Nat.of_uint d))) rest.
Proof.
  intros Hd. unfold Nat.of_uint.
  destruct d; [congruence| ..];
    cbn [NilEmpty.string_of_uint append Nat.of_uint_acc];
    rewrite <- scan_digits, scan_out_digit by reflexivity; f_equal; f_equal;
    rewrite Nat.tail_mul_spec; digit_value; lia.
Qed.

Lemma scan_end i rest :
  closes_number rest = true ->
  scan_numbers (InInt i) rest = mkTok i 0 0 :: scan_numbers Outside rest.
Proof.
  destruct rest as [|c r]; simpl; intros H; [reflexivity|].
  unfold ends_number in H. apply andb_prop in H as [Hd Hdot].
  apply negb_true_iff in Hd, Hdot. rewrite Hd, Hdot. reflexivity.
Qed.

Lemma to_uint_nonnil n : Nat.to_uint n <> Decimal.Nil.
Proof.
  rewrite Unsigned.to_uint_alt. intros H. apply DecimalFacts.rev_nil_inv in H.
  destruct n as [|n].
  - discriminate H.
  - rewrite Unsigned.to_lu_succ in H.
    destruct (Unsigned.to_lu n); discriminate H.
Qed.

(** The printed digits of [n], then something that ends the number. *)
Lemma scan_show_nat n rest :
  closes_number rest = true ->
  scan_numbers Outside (HF.show_nat n ++ rest)
  = mkTok (Z.of_nat n) 0 0 :: scan_numbers Outside rest.
Proof.
  intros H. unfold HF.show_nat.
  rewrite scan_first by apply to_uint_nonnil.
  rewrite Unsigned.of_to. apply scan_end, H.
Qed.

Lemma separates_closes sep rest :
  separates sep = true -> closes_number (sep ++ rest) = true.
Proof.
  destruct sep as [|c r]; simpl; [discriminate|].
  intros H. apply andb_prop in H as [H _]. exact H.
Qed.

Lemma separates_digit_free sep : separates sep = true -> digit_free sep = true.
Proof.
  destruct sep as [|c r]; [discriminate|].
  unfold separates. intros H. apply andb_prop in H as [_ H]. exact H.
Qed.

Lemma tok_value_nat n : tok_value (mkTok (Z.of_nat n) 0 0) = INR n.
Proof.
  unfold tok_value. simpl. rewrite INR_IZR_INZ. unfold Rdiv. rewrite Rmult_0_l. ring.
Qed.

(** X6.  [parseMeas] reads back three whole numbers printed in decimal,
    whatever stands around them: a prefix without digits, separators
    without digits that do not begin with a dot, and any rest after the
    third number that does not continue it.  Numbers after the third are
    ignored. *)
Theorem parseMeas_reads_first_three (pre sep1 sep2 post : string) (b w h : nat) :
  digit_free pre = true ->
  separates sep1 = true ->
  separates sep2 = true ->
  closes_number post = true ->
  parseMeas (Some (pre ++ HF.show_nat b ++ sep1 ++ HF.show_nat w ++ sep2
                       ++ HF.show_nat h ++ post)%string)
  = Some (mkMeas (INR b) (INR w) (INR h)).
Proof.
  intros Hpre H1 H2 Hpost. unfold parseMeas.
  rewrite scan_skip by exact Hpre.
  rewrite scan_show_nat by (apply separates_closes, H1).
  rewrite scan_skip by (apply separates_digit_free, H1).
  rewrite scan_show_nat by (apply separates_closes, H2).
  rewrite scan_skip by (apply separates_digit_free, H2).
  rewrite scan_show_nat by exact Hpost.
  rewrite !tok_value_nat. reflexivity.
Qed.

Lemma parseMeas_reads_first_three_witness :
  parseMeas (Some "B82-60 / 88cm, shoe 41"%string) = Some (mkMeas (INR 82) (INR 60) (INR 88)).
Proof.
  exact (parseMeas_reads_first_three "B" "-" " / " "cm, shoe 41" 82 60 88
           eq_refl eq_refl eq_refl eq_refl).
Defined.

Lemma digit_val_nonneg c : (0 <= digit_val c)%Z.
Proof. unfold digit_val. lia. Qed.

Lemma scan_numbers_nonneg st s :
  match st with
  | Outside => True
  | InInt i | AfterDot i => (0 <= i)%Z
  | InFrac i f _ => (0 <= i)%Z /\ (0 <= f)%Z
  end ->
  Forall (fun t => (0 <= tok_int t)%Z /\ (0 <= tok_frac t)%Z) (scan_numbers st s).
Proof.
  revert st. induction s as [|c r IH]; intros st Hst.
  - destruct st; simpl; repeat constructor; simpl; try tauto; lia.
  - pose proof (digit_val_nonneg c) as Hc.
    cbn [scan_numbers]. destruct (is_digit c).
    + destruct st; apply IH; lazy beta iota in *; lia.
    + destruct st.
      * simpl. apply IH. exact I.
      * destruct (Ascii.eqb c "."); [apply IH; exact Hst|].
        constructor; [simpl; lia | apply IH; exact I].
      * simpl. constructor; [simpl; lia | apply IH; exact I].
      * simpl. constructor; [simpl; tauto | apply IH; exact I].
Qed.

Lemma tok_value_nonneg t :
  (0 <= tok_int t)%Z /\ (0 <= tok_frac t)%Z -> 0 <= tok_value t.
Proof.
  intros [Hi Hf]. unfold tok_value.
  apply IZR_le in Hi, Hf.
  assert (Hp : (0 < 10 ^ Z.of_nat (tok_scale t))%Z) by (apply Z.pow_pos_nonneg; lia).
  apply IZR_lt in Hp.
  assert (Hq : 0 <= IZR (tok_frac t) / IZR (10 ^ Z.of_nat (tok_scale t))).
  { unfold Rdiv. apply Rmult_le_pos; [exact Hf|].
    apply Rlt_le, Rinv_0_lt_compat, Hp. }
  lra.
Qed.

(** X7.  [parseMeas] never reads a sign: the three numbers it returns
    are never negative (a minus before a number is a separator). *)
Theorem parseMeas_never_negative (mStr : option string) (m : Meas) :
  parseMeas mStr = Some m -> 0 <= m_b m /\ 0 <= m_w m /\ 0 <= m_h m.
Proof.
  unfold parseMeas. destruct mStr as [s|]; [|discriminate].
  pose proof (scan_numbers_nonneg Outside s I) as H.
  destruct (scan_numbers Outside s) as [|b [|w [|h rest]]]; try discriminate.
  intros Hm. injection Hm as <-.
  inversion H as [|? ? Hb H1]; subst.
  inversion H1 as [|? ? Hw H2]; subst.
  inversion H2 as [|? ? Hh H3]; subst.
  cbn [m_b m_w m_h]. repeat split; apply tok_value_nonneg; assumption.
Qed.

Lemma parseMeas_never_negative_witness :
  exists m, parseMeas (Some "-82, -60.5, -88"%string) = Some m /\
            0 <= m_b m /\ 0 <= m_w m /\ 0 <= m_h m.
Proof.
  eexists. split; [reflexivity|].
  exact (parseMeas_never_negative (Some "-82, -60.5, -88"%string) _ eq_refl).
Defined.

(** ** Band and target scores *)

Lemma div_pos_lt_1 a d : 0 < a -> a < d -> 0 < a / d < 1.
Proof.
  intros Ha Had. assert (Hd : 0 < d) by lra.
  split.
  - apply Rdiv_lt_0_compat; assumption.
  - apply Rmult_lt_reg_r with d; [exact Hd|].
    unfold Rdiv. rewrite Rmult_assoc, Rinv_l by lra. lra.
Qed.

Lemma div_le_mono a b d : 0 < d -> a <= b -> a / d <= b / d.
Proof.
  intros Hd Hab. unfold Rdiv. apply Rmult_le_compat_r; [|exact Hab].
  apply Rlt_le, Rinv_0_lt_compat, Hd.
Qed.

(** X8.  On a band with [min < ideal[0] <= ideal[1] < max], [bandScore]
    stays within [0, 1], is 1 exactly on the inner range, is 0 exactly at
    or outside the two outer bounds, rises up to the inner range and
    falls after it. *)
Theorem bandScore_shape (band : Band) (x y : R) :
  wf_band band ->
  0 <= bandScore x band <= 1 /\
  (bandScore x band = 1 <-> b_ideal0 band <= x <= b_ideal1 band) /\
  (bandScore x band = 0 <-> x <= b_min band \/ b_max band <= x) /\
  (x <= y -> y <= b_ideal1 band -> bandScore x band <= bandScore y band) /\
  (x <= y -> b_ideal0 band <= x -> bandScore y band <= bandScore x band).
Proof.
  intros (H1 & H2 & H3).
  assert (Hup : forall v, b_min band < v < b_ideal0 band ->
                          0 < (v - b_min band) / (b_ideal0 band - b_min band) < 1).
  { intros v Hv. apply div_pos_lt_1; lra. }
  assert (Hdown : forall v, b_ideal1 band < v < b_max band ->
                            0 < (b_max band - v) / (b_max band - b_ideal1 band) < 1).
  { intros v Hv. apply div_pos_lt_1; lra. }
  assert (Hupm : forall v w, v <= w ->
                   (v - b_min band) / (b_ideal0 band - b_min band)
                   <= (w - b_min band) / (b_ideal0 band - b_min band)).
  { intros v w Hvw. apply div_le_mono; lra. }
  assert (Hdownm : forall v w, v <= w ->
                     (b_max band - w) / (b_max band - b_ideal1 band)
                     <= (b_max band - v) / (b_max band - b_ideal1 band)).
  { intros v w Hvw. apply div_le_mono; lra. }
  unfold bandScore.
  split; [|split; [|split; [|split]]].
  - destruct (Rle_dec x (b_min band)); [lra|].
    destruct (Rle_dec (b_max band) x); [lra|].
    destruct (Rle_dec (b_ideal0 band) x).
    + destruct (Rle_dec x (b_ideal1 band)); [lra|].
      pose proof (Hdown x ltac:(lra)). lra.
    + pose proof (Hup x ltac:(lra)). lra.
  - destruct (Rle_dec x (b_min band)); [split; intros; lra|].
    destruct (Rle_dec (b_max band) x); [split; intros; lra|].
    destruct (Rle_dec (b_ideal0 band) x).
    + destruct (Rle_dec x (b_ideal1 band)); [split; intros; lra|].
      pose proof (Hdown x ltac:(lra)). split; intros; lra.
    + pose proof (Hup x ltac:(lra)). split; intros; lra.
  - destruct (Rle_dec x (b_min band)); [split; intros; [now left | reflexivity]|].
    destruct (Rle_dec (b_max band) x); [split; intros; [now right | reflexivity]|].
    destruct (Rle_dec (b_ideal0 band) x).
    + destruct (Rle_dec x (b_ideal1 band)); [split; [intros; lra | intros [|]; lra]|].
      pose proof (Hdown x ltac:(lra)). split; [intros; lra | intros [|]; lra].
    + pose proof (Hup x ltac:(lra)). split; [intros; lra | intros [|]; lra].
  - intros Hxy Hy.
    destruct (Rle_dec x (b_min band)).
    + destruct (Rle_dec y (b_min band)); [lra|].
      destruct (Rle_dec (b_max band) y); [lra|].
      destruct (Rle_dec (b_ideal0 band) y).
      * destruct (Rle_dec y (b_ideal1 band)); lra.
      * pose proof (Hup y ltac:(lra)). lra.
    + destruct (Rle_dec (b_max band) x); [lra|].
      destruct (Rle_dec y (b_min band)); [lra|].
      destruct (Rle_dec (b_max band) y); [lra|].
      destruct (Rle_dec (b_ideal0 band) x).
      * destruct (Rle_dec x (b_ideal1 band)); [|lra].
        destruct (Rle_dec (b_ideal0 band) y); [|lra].
        destruct (Rle_dec y (b_ideal1 band)); lra.
      * destruct (Rle_dec (b_ideal0 band) y).
        -- destruct (Rle_dec y (b_ideal1 band)); [|lra].
           pose proof (Hup x ltac:(lra)). lra.
        -- apply Hupm, Hxy.
  - intros Hxy Hx.
    destruct (Rle_dec y (b_min band)); [lra|].
    destruct (Rle_dec (b_max band) y).
    + destruct (Rle_dec x (b_min band)); [lra|].
      destruct (Rle_dec (b_max band) x); [lra|].
      destruct (Rle_dec (b_ideal0 band) x); [|lra].
      destruct (Rle_dec x (b_ideal1 band)); [lra|].
      pose proof (Hdown x ltac:(lra)). lra.
    + destruct (Rle_dec x (b_min band)); [lra|].
      destruct (Rle_dec (b_max band) x); [lra|].
      destruct (Rle_dec (b_ideal0 band) x); [|lra].
      destruct (Rle_dec (b_ideal0 band) y); [|lra].
      destruct (Rle_dec x (b_ideal1 band)).
      * destruct (Rle_dec y (b_ideal1 band)); [lra|].
        pose proof (Hdown y ltac:(lra)). lra.
      * destruct (Rle_dec y (b_ideal1 band)); [lra|].
        apply Hdownm, Hxy.
Qed.

Lemma bandScore_shape_waist :
  0 <= bandScore 72 (bands_w male_bands) <= 1 /\
  (bandScore 72 (bands_w male_bands) = 1 <-> 73 <= 72 <= 77) /\
  (bandScore 72 (bands_w male_bands) = 0 <-> 72 <= 71 \/ 82 <= 72) /\
  (72 <= 75 -> 75 <= 77 ->
   bandScore 72 (bands_w male_bands) <= bandScore 75 (bands_w male_bands)) /\
  (72 <= 75 -> 73 <= 72 ->
   bandScore 75 (bands_w male_bands) <= bandScore 72 (bands_w male_bands)).
Proof.
  apply (bandScore_shape (bands_w male_bands) 72 75).
  unfold wf_band, male_bands; simpl. lra.
Defined.

Lemma clamp01_ge x : x <= 1 -> x <= clamp01 x.
Proof.
  intros H. unfold clamp01, clamp, Rmax, Rmin.
  destruct (Rle_dec 1 x); destruct (Rle_dec 0 _); lra.
Qed.

Lemma clamp01_one_iff x : clamp01 x = 1 <-> 1 <= x.
Proof.
  unfold clamp01, clamp, Rmax, Rmin.
  destruct (Rle_dec 1 x); destruct (Rle_dec 0 _); split; intros; lra.
Qed.

Lemma dx_nonneg x t tol : 0 < tol -> 0 <= Rabs (x - t) / tol.
Proof.
  intros H. unfold Rdiv. apply Rmult_le_pos; [apply Rabs_pos|].
  apply Rlt_le, Rinv_0_lt_compat, H.
Qed.

Lemma dx_zero x t tol : 0 < tol -> Rabs (x - t) / tol <= 0 -> x = t.
Proof.
  intros H H0.
  assert (Ha : Rabs (x - t) <= 0).
  { apply Rmult_le_reg_r with (/ tol); [apply Rinv_0_lt_compat, H|].
    unfold Rdiv in H0. lra. }
  pose proof (Rabs_pos (x - t)) as Hp.
  assert (Hz : Rabs (x - t) = 0) by lra.
  destruct (Req_dec (x - t) 0) as [He|Hne]; [lra|].
  apply Rabs_no_R0 in Hne. contradiction.
Qed.

(** The blend over target and tolerance of part_000, whose terms are not
    clamped one by one, is never above the blend of part_001. *)
Lemma target_blend_unclamped_le m t tol :
  0 < m_b tol -> 0 < m_w tol -> 0 < m_h tol ->
  clamp01 ((1 - Rabs (m_b m - m_b t) / m_b tol
            + 1.2 * (1 - Rabs (m_w m - m_w t) / m_w tol)
            + (1 - Rabs (m_h m - m_h t) / m_h tol)) / 3.2)
  <= target_blend m t tol.
Proof.
  intros Hb Hw Hh. unfold target_blend. cbv zeta.
  pose proof (dx_nonneg (m_b m) (m_b t) _ Hb) as Db.
  pose proof (dx_nonneg (m_w m) (m_w t) _ Hw) as Dw.
  pose proof (dx_nonneg (m_h m) (m_h t) _ Hh) as Dh.
  set (dB := Rabs (m_b m - m_b t) / m_b tol) in *.
  set (dW := Rabs (m_w m - m_w t) / m_w tol) in *.
  set (dH := Rabs (m_h m - m_h t) / m_h tol) in *.
  pose proof (clamp01_ge (1 - dB) ltac:(lra)).
  pose proof (clamp01_ge (1 - dW) ltac:(lra)).
  pose proof (clamp01_ge (1 - dH) ltac:(lra)).
  apply clamp01_mono. unfold Rdiv. lra.
Qed.

Lemma measScore_hip_far_off :
  measScore Part000 Female (Some (mkMeas 82 60 100)) = 0.375 /\
  measScore Part001 Female (Some (mkMeas 82 60 100)) = 0.6875.
Proof.
  cbn [measScore measScore_000 measScore_001 PREFS meas_bands meas_target meas_tol
       m_b m_w m_h].
  unfold target_blend. cbn [m_b m_w m_h].
  replace (82 - 82) with 0 by lra. replace (60 - 60) with 0 by lra.
  replace (100 - 88) with 12 by lra.
  rewrite Rabs_R0, (Rabs_right 12) by lra.
  replace (1 - 0 / 6) with 1 by lra. replace (1 - 0 / 4) with 1 by lra.
  replace (1 - 12 / 6) with (-1) by lra.
  rewrite (clamp01_id 1) by lra. rewrite (clamp01_nonpos (-1)) by lra.
  split; rewrite clamp01_id; lra.
Qed.

(** X9.  For the same submission the measurement score of part_000 is
    never above the one of part_001 and part_002: the later servers add
    the lean bonus to the band blend, and clamp every term of the target
    blend, which part_000 lets go negative.  With the hip 12 cm over the
    female target ("82-60-100") part_000 scores 0.375 and the later
    servers 0.6875. *)
Theorem measScore_part000_le_later (g : Gender) (m : option Meas) :
  measScore Part000 g m <= measScore Part001 g m /\
  measScore Part001 g m = measScore Part002 g m /\
  measScore Part000 Female (Some (mkMeas 82 60 100)) = 0.375 /\
  measScore Part001 Female (Some (mkMeas 82 60 100)) = 0.6875.
Proof.
  split; [|split; [reflexivity | apply measScore_hip_far_off]].
  destruct m as [m|]; [|rewrite !measScore_none; lra].
  destruct g; cbn [measScore measScore_000 measScore_001 PREFS meas_bands meas_target meas_tol].
  - apply target_blend_unclamped_le; simpl; lra.
  - pose proof (clamp01_bounds
                  ((bandScore (m_b m) (bands_b male_bands)
                    + 1.3 * bandScore (m_w m) (bands_w male_bands)
                    + bandScore (m_h m) (bands_h male_bands)) / 3.3)) as Hb.
    fold (band_blend m male_bands) in Hb.
    pose proof (leanBonus_range m male_bands) as Hl.
    rewrite <- (clamp01_id (band_blend m male_bands)) at 1 by exact Hb.
    apply clamp01_mono. lra.
  - apply target_blend_unclamped_le; simpl; lra.
Qed.

Lemma target_blend_one_iff m t tol :
  0 < m_b tol -> 0 < m_w tol -> 0 < m_h tol ->
  (target_blend m t tol = 1 <-> m_b m = m_b t /\ m_w m = m_w t /\ m_h m = m_h t).
Proof.
  intros Hb Hw Hh. split.
  - unfold target_blend. cbv zeta. intros H.
    apply clamp01_one_iff in H.
    pose proof (dx_nonneg (m_b m) (m_b t) _ Hb) as Db.
    pose proof (dx_nonneg (m_w m) (m_w t) _ Hw) as Dw.
    pose proof (dx_nonneg (m_h m) (m_h t) _ Hh) as Dh.
    pose proof (dx_zero (m_b m) (m_b t) _ Hb) as Zb.
    pose proof (dx_zero (m_w m) (m_w t) _ Hw) as Zw.
    pose proof (dx_zero (m_h m) (m_h t) _ Hh) as Zh.
    set (dB := Rabs (m_b m - m_b t) / m_b tol) in *.
    set (dW := Rabs (m_w m - m_w t) / m_w tol) in *.
    set (dH := Rabs (m_h m - m_h t) / m_h tol) in *.
    pose proof (clamp01_bounds (1 - dB)) as Bb.
    pose proof (clamp01_bounds (1 - dW)) as Bw.
    pose proof (clamp01_bounds (1 - dH)) as Bh.
    assert (Eb : clamp01 (1 - dB) = 1) by (unfold Rdiv in H; lra).
    assert (Ew : clamp01 (1 - dW) = 1) by (unfold Rdiv in H; lra).
    assert (Eh : clamp01 (1 - dH) = 1) by (unfold Rdiv in H; lra).
    apply clamp01_one_iff in Eb, Ew, Eh.
    repeat split; [apply Zb | apply Zw | apply Zh]; lra.
  - intros (Eb & Ew & Eh). destruct m as [b w h], t as [tb tw th]. simpl in *. subst.
    apply (target_blend_at_target (mkMeas tb tw th) tol).
Qed.

Lemma unclamped_blend_one_iff m t tol :
  0 < m_b tol -> 0 < m_w tol -> 0 < m_h tol ->
  (clamp01 ((1 - Rabs (m_b m - m_b t) / m_b tol
             + 1.2 * (1 - Rabs (m_w m - m_w t) / m_w tol)
             + (1 - Rabs (m_h m - m_h t) / m_h tol)) / 3.2) = 1
   <-> m_b m = m_b t /\ m_w m = m_w t /\ m_h m = m_h t).
Proof.
  intros Hb Hw Hh. split.
  - intros H. apply clamp01_one_iff in H.
    pose proof (dx_nonneg (m_b m) (m_b t) _ Hb) as Db.
    pose proof (dx_nonneg (m_w m) (m_w t) _ Hw) as Dw.
    pose proof (dx_nonneg (m_h m) (m_h t) _ Hh) as Dh.
    pose proof (dx_zero (m_b m) (m_b t) _ Hb) as Zb.
    pose proof (dx_zero (m_w m) (m_w t) _ Hw) as Zw.
    pose proof (dx_zero (m_h m) (m_h t) _ Hh) as Zh.
    set (dB := Rabs (m_b m - m_b t) / m_b tol) in *.
    set (dW := Rabs (m_w m - m_w t) / m_w tol) in *.
    set (dH := Rabs (m_h m - m_h t) / m_h tol) in *.
    unfold Rdiv in H.
    repeat split; [apply Zb | apply Zw | apply Zh]; lra.
  - intros (Eb & Ew & Eh). rewrite Eb, Ew, Eh, !Rminus_diag, Rabs_R0.
    unfold Rdiv at 2 3 4. rewrite !Rmult_0_l, !Rminus_0_r.
    apply clamp01_one_iff. lra.
Qed.

(** X10.  Under a profile with target and tolerance the measurement
    score is 1 at the target and nowhere else: for the female profile of
    every server, and for the male profile of the older server. *)
Theorem measScore_one_only_at_target (v : Variant) (m : Meas) :
  (measScore v Female (Some m) = 1 <-> m_b m = 82 /\ m_w m = 60 /\ m_h m = 88) /\
  (measScore Part002Old Male (Some m) = 1 <-> m_b m = 96 /\ m_w m = 76 /\ m_h m = 94).
Proof.
  split.
  - destruct v;
      cbn [measScore measScore_000 measScore_001 measScore_old PREFS PREFS_old
           meas_bands meas_target meas_tol].
    + apply (unclamped_blend_one_iff m (mkMeas 82 60 88) (mkMeas 6 4 6)); simpl; lra.
    + apply (target_blend_one_iff m (mkMeas 82 60 88) (mkMeas 6 4 6)); simpl; lra.
    + apply (target_blend_one_iff m (mkMeas 82 60 88) (mkMeas 6 4 6)); simpl; lra.
    + apply (target_blend_one_iff m (mkMeas 82 60 88) (mkMeas 6 4 6)); simpl; lra.
  - cbn [measScore measScore_old PREFS_old meas_target meas_tol].
    apply (target_blend_one_iff m (mkMeas 96 76 94) (mkMeas 8 6 8)); simpl; lra.
Qed.

(** ** The embedding cache of the hosted-inference server *)

Lemma cache_get_set_same url vec (cache : list (string * NVec)) :
  HF.cache_get url
    ((url, vec) :: filter (fun kv => negb (String.eqb (fst kv) url)) cache) = Some vec.
Proof. unfold HF.cache_get. simpl. rewrite String.eqb_refl. reflexivity. Qed.

Lemma find_filter_other (url u : string) (cache : list (string * NVec)) :
  u <> url ->
  find (fun kv => String.eqb (fst kv) u)
       (filter (fun kv => negb (String.eqb (fst kv) url)) cache)
  = find (fun kv => String.eqb (fst kv) u) cache.
Proof.
  intros Hne. induction cache as [|[k w] cache IH]; simpl; [reflexivity|].
  destruct (String.eqb k url) eqn:Hk; simpl.
  - apply String.eqb_eq in Hk. subst k.
    assert (Hu : String.eqb url u = false) by (apply String.eqb_neq; congruence).
    rewrite Hu. exact IH.
  - destruct (String.eqb k u); [reflexivity | exact IH].
Qed.

Lemma cache_get_set_other url u vec (cache : list (string * NVec)) :
  u <> url ->
  HF.cache_get u
    ((url, vec) :: filter (fun kv => negb (String.eqb (fst kv) url)) cache)
  = HF.cache_get u cache.
Proof.
  intros Hne. unfold HF.cache_get. simpl.
  assert (Hu : String.eqb url u = false) by (apply String.eqb_neq; congruence).
  rewrite Hu, find_filter_other by exact Hne. reflexivity.
Qed.

Lemma tryEmbed_keeps E route (s : HF.St) :
  console (snd (HF.tryEmbed E route s)) = console s /\
  clusters (snd (HF.tryEmbed E route s)) = clusters s /\
  embedCache (snd (HF.tryEmbed E route s)) = embedCache s.
Proof.
  destruct (tryEmbed_shape E route s) as (k & _ & _ & Hc & Hcl & He & _).
  repeat split; assumption.
Qed.

(** What a walk over the back ends leaves in the cache. *)
Lemma try_backends_cache E bs url last (s : HF.St) :
  clusters (snd (HF.try_backends E bs url last s)) = clusters s /\
  match fst (HF.try_backends E bs url last s) with
  | inr vec =>
      HF.cache_get url (embedCache (snd (HF.try_backends E bs url last s))) = Some vec /\
      forall u, u <> url ->
        HF.cache_get u (embedCache (snd (HF.try_backends E bs url last s)))
        = HF.cache_get u (embedCache s)
  | inl _ => embedCache (snd (HF.try_backends E bs url last s)) = embedCache s
  end.
Proof.
  revert last s. induction bs as [|[model route] rest IH]; intros last s.
  - simpl. split; reflexivity.
  - destruct (tryEmbed_keeps E route s) as (_ & Hcl & Hec).
    destruct (HF.tryEmbed E route s) as [[e|vec] s1] eqn:Ht; cbn [snd] in Hcl, Hec.
    + rewrite (try_backends_next E model route rest url last s s1 e Ht).
      set (s2 := mkState (history s1) (console s1 ++ [LogError "hf_try_fail" [model; e]])
                         (clusters s1) (embedCache s1)).
      destruct (IH (Some e) s2) as [I1 I2].
      assert (Hcl2 : clusters s2 = clusters s) by exact Hcl.
      assert (Hec2 : embedCache s2 = embedCache s) by exact Hec.
      split; [rewrite I1; exact Hcl2|].
      destruct (fst (HF.try_backends E rest url (Some e) s2)).
      * rewrite I2. exact Hec2.
      * destruct I2 as [Hget Hother]. split; [exact Hget|].
        intros u Hu. rewrite (Hother u Hu), Hec2. reflexivity.
    + rewrite (try_backends_done E model route rest url last s s1 vec Ht).
      cbn [fst snd clusters embedCache]. rewrite Hec.
      split; [exact Hcl|]. split.
      * apply cache_get_set_same.
      * intros u Hu. apply cache_get_set_other, Hu.
Qed.

Lemma fetchImageBuffer_keeps E url (s : HF.St) :
  console (snd (HF.fetchImageBuffer E url s)) = console s /\
  clusters (snd (HF.fetchImageBuffer E url s)) = clusters s /\
  embedCache (snd (HF.fetchImageBuffer E url s)) = embedCache s.
Proof.
  unfold HF.fetchImageBuffer, bind, get_state, record, modify, ret, throw.
  destruct (image_reply E (history s) (resized_url url)); repeat split; reflexivity.
Qed.

Lemma getEmbedding_hit E cfg url vec (s : HF.St) :
  HF.cache_get url (embedCache s) = Some vec -> HF.getEmbedding E cfg url s = (inr vec, s).
Proof.
  intros H. unfold HF.getEmbedding, bind, get_state. rewrite H. reflexivity.
Qed.

Lemma getEmbedding_miss E cfg url (s : HF.St) :
  HF.cache_get url (embedCache s) = None ->
  HF.getEmbedding E cfg url s
  = if negb (nonempty (HUGGINGFACE_API_KEY cfg))
    then (inl "HUGGINGFACE_API_KEY missing"%string, s)
    else match HF.fetchImageBuffer E url s with
         | (inl e, s1) => (inl e, s1)
         | (inr _, s1) => HF.try_backends E (HF.backends cfg) url None s1
         end.
Proof.
  intros H. unfold HF.getEmbedding, bind, get_state. rewrite H.
  destruct (negb (nonempty (HUGGINGFACE_API_KEY cfg))); reflexivity.
Qed.

Lemma getEmbedding_cache E cfg url (s : HF.St) :
  clusters (snd (HF.getEmbedding E cfg url s)) = clusters s /\
  match fst (HF.getEmbedding E cfg url s) with
  | inr vec =>
      HF.cache_get url (embedCache (snd (HF.getEmbedding E cfg url s))) = Some vec /\
      forall u, u <> url ->
        HF.cache_get u (embedCache (snd (HF.getEmbedding E cfg url s)))
        = HF.cache_get u (embedCache s)
  | inl _ => embedCache (snd (HF.getEmbedding E cfg url s)) = embedCache s
  end.
Proof.
  destruct (HF.cache_get url (embedCache s)) as [vec|] eqn:Hc.
  - rewrite (getEmbedding_hit E cfg url vec s Hc). cbn [fst snd].
    split; [reflexivity|]. split; [exact Hc | reflexivity].
  - rewrite (getEmbedding_miss E cfg url s Hc).
    destruct (negb (nonempty (HUGGINGFACE_API_KEY cfg))).
    + cbn [fst snd]. split; reflexivity.
    + destruct (fetchImageBuffer_keeps E url s) as (_ & Hcl & Hec).
      destruct (HF.fetchImageBuffer E url s) as [[e|buf] s1]; cbn [snd] in Hcl, Hec.
      * cbn [fst snd]. split; assumption.
      * pose proof (try_backends_cache E (HF.backends cfg) url None s1) as [Hcl2 H2].
        rewrite Hcl in Hcl2. split; [exact Hcl2|].
        destruct (fst (HF.try_backends E (HF.backends cfg) url None s1)).
        -- rewrite H2. exact Hec.
        -- destruct H2 as [Hget Hother]. split; [exact Hget|].
           intros u Hu. rewrite (Hother u Hu), Hec. reflexivity.
Qed.

(** X11.  [getEmbedding] memoises by url: once it has returned a vector
    for a url, every later call for that url returns the same vector
    without touching the network, the inference key or the state, in any
    world; the entries of other urls are kept.  A call that fails stores
    nothing, so the next call tries again.  The reference cache is never
    touched. *)
Theorem getEmbedding_memoises (E : Env) (cfg : Config) (url : string) (s : HF.St) :
  clusters (snd (HF.getEmbedding E cfg url s)) = clusters s /\
  match HF.getEmbedding E cfg url s with
  | (inr vec, s') =>
      (forall E' cfg', HF.getEmbedding E' cfg' url s' = (inr vec, s')) /\
      (forall u, u <> url ->
         HF.cache_get u (embedCache s') = HF.cache_get u (embedCache s))
  | (inl _, s') => embedCache s' = embedCache s
  end.
Proof.
  pose proof (getEmbedding_cache E cfg url s) as [Hcl H].
  split; [exact Hcl|].
  destruct (HF.getEmbedding E cfg url s) as [[e|vec] s']; cbn [fst snd] in H.
  - exact H.
  - destruct H as [Hget Hother]. split; [|exact Hother].
    intros E' cfg'. apply getEmbedding_hit, Hget.
Qed.

Lemma embed_all_cached E cfg tag ctx us (s : HF.St) :
  (forall u, In u us -> HF.cache_get u (embedCache s) <> None) ->
  HF.embed_all E cfg tag ctx us s
  = (inr (map (fun u => match HF.cache_get u (embedCache s) with
                        | Some vec => vec
                        | None => []
                        end) us), s).
Proof.
  induction us as [|u rest IH]; intros H; [reflexivity|].
  cbn [HF.embed_all map].
  destruct (HF.cache_get u (embedCache s)) as [vec|] eqn:Hu;
    [|exfalso; apply (H u); [now left | exact Hu]].
  unfold bind at 1, try_catch, bind at 1.
  rewrite (getEmbedding_hit E cfg u vec s Hu). cbn [ret].
  unfold bind at 1. rewrite IH by (intros u' Hin; apply H; now right).
  reflexivity.
Qed.

(** X12.  Embedding a list of urls that are all in the cache costs
    nothing: the cached vectors come back in order, and neither the
    network nor the console nor any cache is touched.  A reload (or an
    evaluation) thus pays only for the urls it has not embedded before. *)
Theorem embed_all_cached_is_free (E : Env) (cfg : Config) (tag : string)
    (ctx us : list string) (s : HF.St) :
  (forall u, In u us -> HF.cache_get u (embedCache s) <> None) ->
  exists vs,
    HF.embed_all E cfg tag ctx us s = (inr vs, s) /\
    Forall2 (fun u vec => HF.cache_get u (embedCache s) = Some vec) us vs.
Proof.
  intros H. eexists. split; [apply embed_all_cached, H|].
  clear E cfg tag ctx.
  induction us as [|u rest IH]; [constructor|].
  cbn [map]. constructor.
  - destruct (HF.cache_get u (embedCache s)) eqn:Hu; [reflexivity|].
    exfalso. apply (H u); [now left | exact Hu].
  - apply IH. intros u' Hin. apply H. now right.
Qed.

Lemma embed_all_cached_is_free_witness :
  exists vs,
    HF.embed_all dead_env (test_config false) "app_embed_fail" []
                 ["https://cdn.example/p1.jpg"; "https://cdn.example/p1.jpg"]%string hf_warm
    = (inr vs, hf_warm) /\
    Forall2 (fun u vec => HF.cache_get u (embedCache hf_warm) = Some vec)
            ["https://cdn.example/p1.jpg"; "https://cdn.example/p1.jpg"]%string vs.
Proof.
  apply (embed_all_cached_is_free dead_env (test_config false)).
  intros u [<-|[<-|[]]]; discriminate.
Defined.

(** ** [GET /admin/test_embed] *)

Lemma embedOne_run E u (s : Centroid.St) :
  Centroid.embedOne E u s
  = (match embed_reply E (history s) (resized_url u) with
     | inl e => inl e
     | inr vec => inr vec
     end,
     mkState (history s ++ [EvEmbed (resized_url u)]) (console s) (clusters s)
             (embedCache s)).
Proof.
  unfold Centroid.embedOne, bind, get_state, record, modify, ret, throw.
  destruct (embed_reply E (history s) (resized_url u)); reflexivity.
Qed.

(** X13.  The embedding probe of the centroid servers never throws and
    never touches the reference cache or the console.  Without the admin
    token, under [LIGHT_MODE] (part_000) or without a url it calls
    nothing; otherwise it embeds the url exactly once and answers the
    dimension of the vector, or 500 with the embedder's message. *)
Theorem centroid_test_embed_probe (E : Env) (cfg : Config) (v : Variant)
    (token : string) (url : option string) (s : Centroid.St) :
  exists r s',
    CentroidAdmin.test_embed E cfg v token url s = (inr r, s') /\
    clusters s' = clusters s /\ console s' = console s /\
    match r with
    | TestUnauthorized => token <> ADMIN_TOKEN cfg /\ s' = s
    | TestSkipped => Centroid.light cfg v = true /\ s' = s
    | TestMissingUrl => (url = None \/ url = Some EmptyString) /\ s' = s
    | TestOk dim =>
        exists u vec, url = Some u /\
          embed_reply E (history s) (resized_url u) = inr vec /\
          dim = List.length vec /\
          history s' = (history s ++ [EvEmbed (resized_url u)])%list
    | TestError msg =>
        exists u, url = Some u /\
          embed_reply E (history s) (resized_url u) = inl msg /\
          history s' = (history s ++ [EvEmbed (resized_url u)])%list
    end.
Proof.
  unfold CentroidAdmin.test_embed.
  destruct (String.eqb token (ADMIN_TOKEN cfg)) eqn:Ht; cbn [negb].
  2:{ eexists _, _. split; [reflexivity|]. repeat split.
      apply String.eqb_neq, Ht. }
  destruct (Centroid.light cfg v) eqn:Hl.
  { eexists _, _. split; [reflexivity|]. repeat split. }
  destruct url as [[|c u]|].
  - eexists _, _. split; [reflexivity|]. repeat split. now right.
  - unfold try_catch, bind. rewrite embedOne_run.
    destruct (embed_reply E (history s) (resized_url (String c u))) as [e|vec] eqn:Hr.
    + eexists _, _. split; [reflexivity|]. repeat split.
      exists (String c u). repeat split. exact Hr.
    + eexists _, _. split; [reflexivity|]. repeat split.
      exists (String c u), vec. repeat split. exact Hr.
  - eexists _, _. split; [reflexivity|]. repeat split. now left.
Qed.

(** X14.  The embedding probe of the hosted-inference server never
    throws and never touches the reference cache.  When it answers a
    dimension, the vector is in the embedding cache from then on: every
    later [getEmbedding] of that url returns a vector of that dimension
    without a call. *)
Theorem hf_test_embed_warms_cache (E : Env) (cfg : Config)
    (token : string) (url : option string) (s : HF.St) :
  exists r s',
    HFAdmin.test_embed E cfg token url s = (inr r, s') /\
    clusters s' = clusters s /\
    match r with
    | TestOk dim =>
        exists u vec, url = Some u /\ List.length vec = dim /\
          forall E' cfg', HF.getEmbedding E' cfg' u s' = (inr vec, s')
    | TestError _ => embedCache s' = embedCache s
    | _ => s' = s
    end.
Proof.
  unfold HFAdmin.test_embed.
  destruct (String.eqb token (ADMIN_TOKEN cfg)); cbn [negb].
  2:{ eexists _, _. repeat split. }
  destruct url as [[|c u]|].
  - eexists _, _. repeat split.
  - pose proof (getEmbedding_cache E cfg (String c u) s) as [Hcl H].
    unfold try_catch, bind.
    destruct (HF.getEmbedding E cfg (String c u) s) as [[e|vec] s1];
      cbn [fst snd] in Hcl, H.
    + eexists _, _. split; [reflexivity|]. split; [exact Hcl | exact H].
    + eexists _, _. split; [reflexivity|]. split; [exact Hcl|].
      exists (String c u), vec. repeat split.
      intros E' cfg'. apply getEmbedding_hit, H.
  - eexists _, _. repeat split.
Qed.

(** ** What an evaluation calls *)

Lemma centroid_embed_photos_effects E urls (s : Centroid.St) :
  exists vs s',
    Centroid.embed_photos E urls s = (inr vs, s') /\
    history s' = (history s ++ map (fun u => EvEmbed (resized_url u)) urls)%list /\
    clusters s' = clusters s /\
    (List.length vs <= List.length urls)%nat.
Proof.
  revert s. induction urls as [|u rest IH]; intros s.
  - eexists _, _. split; [reflexivity|]. cbn. rewrite app_nil_r. repeat split. lia.
  - cbn [Centroid.embed_photos].
    unfold bind at 1, try_catch, bind at 1. rewrite embedOne_run.
    destruct (embed_reply E (history s) (resized_url u)) as [e|vec].
    + unfold bind at 1, console_error, modify, ret at 1 2.
      cbn [history console clusters embedCache].
      match goal with |- exists _ _, bind _ _ ?s1 = _ /\ _ =>
        destruct (IH s1) as (vs & s' & Hrun & Hh & Hc & Hl) end.
      rewrite (bind_inr _ _ _ _ _ Hrun). unfold ret.
      eexists _, _. split; [reflexivity|].
      cbn [history clusters] in Hh, Hc. rewrite Hh, <- app_assoc.
      repeat split; [exact Hc | cbn; lia].
    + unfold ret at 1.
      match goal with |- exists _ _, bind _ _ ?s1 = _ /\ _ =>
        destruct (IH s1) as (vs & s' & Hrun & Hh & Hc & Hl) end.
      rewrite (bind_inr _ _ _ _ _ Hrun). unfold ret.
      eexists _, _. split; [reflexivity|].
      cbn [history clusters] in Hh, Hc. rewrite Hh, <- app_assoc.
      repeat split; [exact Hc | cbn; lia].
Qed.

Lemma centroid_face_block_effects E photos (s : Centroid.St) :
  exists f s',
    Centroid.face_block E photos s = (inr f, s') /\
    clusters s' = clusters s /\
    history s'
    = (history s ++ match clusters s with
                    | [] => []
                    | _ => map (fun u => EvEmbed (resized_url u)) (firstn 5 photos)
                    end)%list.
Proof.
  unfold Centroid.face_block, try_catch, bind, get_state.
  destruct (clusters s) as [|c cs] eqn:Hc.
  - eexists _, _. split; [reflexivity|]. rewrite app_nil_r. split; [exact Hc | reflexivity].
  - destruct (centroid_embed_photos_effects E (firstn 5 photos) s)
      as (vs & s' & -> & Hh & Hcl & _).
    rewrite Hc in Hcl.
    destruct vs as [|v0 vs].
    + eexists _, _. split; [reflexivity|]. split; assumption.
    + destruct (Centroid.best_match _ _ _ _) as [maxSim bestLabel].
      eexists _, _. split; [reflexivity|]. split; assumption.
Qed.

(** X15.  An evaluation by a centroid server of a request whose fields
    have their JSON types never answers 500 and never changes the
    reference cache, whatever the embedder does.  It embeds the first
    five photos of the submission, each once and in order, and calls
    nothing else; a request that is refused (401, 400), answered by the
    mock of [LIGHT_MODE] or served from an empty cache makes no call at
    all. *)
Theorem centroid_evaluate_embeds_first_five (E : Env) (cfg : Config) (v : Variant)
    (req : Request) (s : Centroid.St) :
  exists r s',
    Centroid.evaluate E cfg v req s = (inr r, s') /\
    (forall msg, r <> ServerError msg) /\
    clusters s' = clusters s /\
    history s'
    = (history s ++
       if auth_fails (EVALUATOR_API_KEY cfg) (authorization req)
          || Centroid.light cfg v
          || match clusters s with [] => true | _ => false end
       then []
       else map (fun u => EvEmbed (resized_url u)) (firstn 5 (photos req)))%list.
Proof.
  unfold Centroid.evaluate.
  destruct (auth_fails (EVALUATOR_API_KEY cfg) (authorization req)); cbn [orb].
  { eexists _, _. split; [reflexivity|]. rewrite app_nil_r. repeat split. discriminate. }
  destruct (photos req) as [|p ps] eqn:Hp.
  { eexists _, _. split; [reflexivity|].
    destruct (_ || _); cbn [firstn map]; rewrite app_nil_r; repeat split; discriminate. }
  destruct (Centroid.light cfg v); cbn [orb].
  { eexists _, _. split; [reflexivity|]. rewrite app_nil_r. repeat split. discriminate. }
  destruct (centroid_face_block_effects E (p :: ps) s) as (f & s' & Hf & Hcl & Hh).
  unfold try_catch, bind. rewrite Hf. unfold ret.
  eexists _, _. split; [reflexivity|].
  split; [discriminate|]. split; [exact Hcl|].
  rewrite Hh. destruct (clusters s); reflexivity.
Qed.

Lemma hf_try_embedding E cfg tag (args : string -> list string) u (s : HF.St) :
  exists r s1,
    try_catch (bind (HF.getEmbedding E cfg u) (fun vec => ret (Some vec)))
              (fun e => bind (console_error tag (args e)) (fun _ => ret None)) s
    = (inr r, s1) /\
    clusters s1 = clusters s.
Proof.
  pose proof (getEmbedding_cache E cfg u s) as [Hcl _].
  unfold try_catch, bind at 1.
  destruct (HF.getEmbedding E cfg u s) as [[e|vec] s1]; cbn [snd] in Hcl.
  - eexists _, _. split; [reflexivity|]. exact Hcl.
  - eexists _, _. split; [reflexivity|]. exact Hcl.
Qed.

Lemma hf_embed_all_keeps E cfg tag ctx us (s : HF.St) :
  clusters (snd (HF.embed_all E cfg tag ctx us s)) = clusters s.
Proof.
  revert s. induction us as [|u rest IH]; intros s; [reflexivity|].
  cbn [HF.embed_all].
  destruct (hf_try_embedding E cfg tag (fun e => ctx ++ [u; e])%list u s)
    as (r & s1 & Hr & Hcl).
  rewrite (bind_inr _ _ _ _ _ Hr).
  destruct (hf_embed_all_total E cfg tag ctx rest s1) as (vs & s2 & Hvs).
  rewrite (bind_inr _ _ _ _ _ Hvs). unfold ret. cbn [snd].
  specialize (IH s1). rewrite Hvs in IH. cbn [snd] in IH. congruence.
Qed.

Lemma hf_face_block_effects E cfg GEN photos (s : HF.St) :
  exists f s',
    HF.face_block E cfg GEN photos s = (inr f, s') /\
    clusters s' = clusters s /\
    ((clusters s = [] \/ forall u, In u photos -> HF.cache_get u (embedCache s) <> None) ->
     s' = s).
Proof.
  unfold HF.face_block, try_catch, bind, get_state.
  destruct (clusters s) as [|c cs] eqn:Hc.
  - eexists _, _. split; [reflexivity|]. split; [exact Hc | reflexivity].
  - pose proof (hf_embed_all_keeps E cfg "app_embed_fail" [] photos s) as Hcl.
    rewrite Hc in Hcl.
    assert (Hfree : (forall u, In u photos -> HF.cache_get u (embedCache s) <> None) ->
                    snd (HF.embed_all E cfg "app_embed_fail" [] photos s) = s).
    { intros H. rewrite embed_all_cached by exact H. reflexivity. }
    destruct (hf_embed_all_total E cfg "app_embed_fail" [] photos s) as (vs & s' & Hrun).
    rewrite Hrun in *. cbn [snd] in *.
    destruct (HF.best_match _ _ _ _) as [maxSim bestLabel].
    destruct (Rle_dec (-1) maxSim);
      (eexists _, _; split; [reflexivity|]; split; [exact Hcl|];
       intros [Hempty|Hall]; [discriminate Hempty | apply Hfree, Hall]).
Qed.

(** X16.  An evaluation by the hosted-inference server of a request
    whose fields have their JSON types never answers 500 and never
    changes the reference cache, whatever the network does.  When the
    reference cache is empty, or when every photo of the submission has
    been embedded before, it makes no call and leaves the whole state as
    it was. *)
Theorem hf_evaluate_contains_failures (E : Env) (cfg : Config)
    (req : Request) (s : HF.St) :
  exists r s',
    HF.evaluate E cfg req s = (inr r, s') /\
    (forall msg, r <> ServerError msg) /\
    clusters s' = clusters s /\
    ((clusters s = [] \/
      forall u, In u (photos req) -> HF.cache_get u (embedCache s) <> None) ->
     s' = s).
Proof.
  unfold HF.evaluate.
  destruct (auth_fails (EVALUATOR_API_KEY cfg) (authorization req)).
  { eexists _, _. split; [reflexivity|]. repeat split. discriminate. }
  destruct (photos req) as [|p ps] eqn:Hp.
  { eexists _, _. split; [reflexivity|]. repeat split. discriminate. }
  destruct (hf_face_block_effects E cfg (GEN_of (gender req)) (p :: ps) s)
    as (f & s' & Hf & Hcl & Hfree).
  unfold try_catch, bind. rewrite Hf. unfold ret.
  eexists _, _. split; [reflexivity|].
  split; [discriminate|]. split; [exact Hcl | exact Hfree].
Qed.

(** ** The best match *)

Lemma centroid_best_match_scan avg cs m0 l0 :
  let r := Centroid.best_match avg cs m0 l0 in
  m0 <= fst r /\
  (forall c, In c cs -> group_similarity avg c <= fst r) /\
  ((fst r = m0 /\ snd r = l0) \/
   exists cs1 c cs2,
     cs = (cs1 ++ c :: cs2)%list /\
     snd r = Centroid.label c /\
     fst r = group_similarity avg c /\
     m0 < fst r /\
     forall c', In c' cs1 -> group_similarity avg c' < fst r).
Proof.
  revert m0 l0. induction cs as [|c rest IH]; intros m0 l0; cbv zeta.
  - simpl. split; [lra|]. split; [intros c []|]. left. split; reflexivity.
  - cbn [Centroid.best_match]. fold (group_similarity avg c).
    destruct (Rlt_dec m0 (group_similarity avg c)) as [Hlt|Hge].
    + specialize (IH (group_similarity avg c) (Centroid.label c)). cbv zeta in IH.
      destruct IH as (Hle & Hall & Hcase).
      split; [lra|]. split.
      * intros c' [<-|Hin]; [exact Hle | apply Hall, Hin].
      * right. destruct Hcase as [[Hm Hl]|(cs1 & c' & cs2 & Hcs & Hl & Hm & Hgt & Hbefore)].
        -- exists [], c, rest. repeat split; try assumption.
           ++ rewrite Hm. exact Hlt.
           ++ intros c' [].
        -- exists (c :: cs1), c', cs2. repeat split; try assumption.
           ++ rewrite Hcs. reflexivity.
           ++ lra.
           ++ intros c'' [<-|Hin]; [lra | apply Hbefore, Hin].
    + specialize (IH m0 l0). cbv zeta in IH.
      destruct IH as (Hle & Hall & Hcase).
      split; [exact Hle|]. split.
      * intros c' [<-|Hin]; [lra | apply Hall, Hin].
      * destruct Hcase as [Hsame|(cs1 & c' & cs2 & Hcs & Hl & Hm & Hgt & Hbefore)].
        -- left. exact Hsame.
        -- right. exists (c :: cs1), c', cs2. repeat split; try assumption.
           ++ rewrite Hcs. reflexivity.
           ++ intros c'' [<-|Hin]; [lra | apply Hbefore, Hin].
Qed.

(** X17.  The scan of the centroid servers returns the greatest
    similarity of the averaged photo vector to a reference group,
    together with the label of the first group that reaches it (a later
    group with the same similarity does not replace it).  The label is
    ["none"] only when every group sits at similarity -1.  The face score
    read off it, [(maxSim + 1) / 2], is within [0, 1] before it is
    clamped. *)
Theorem centroid_best_match_is_first_maximum (avg : NVec) (cs : list Centroid.Cluster) :
  let maxSim := fst (Centroid.best_match avg cs (-1) "none") in
  let bestLabel := snd (Centroid.best_match avg cs (-1) "none") in
  (forall c, In c cs -> group_similarity avg c <= maxSim) /\
  ((maxSim = -1 /\ bestLabel = "none"%string /\
    forall c, In c cs -> group_similarity avg c = -1) \/
   exists cs1 c cs2,
     cs = (cs1 ++ c :: cs2)%list /\
     bestLabel = Centroid.label c /\
     maxSim = group_similarity avg c /\
     forall c', In c' cs1 -> group_similarity avg c' < maxSim) /\
  clamp01 ((maxSim + 1) / 2) = (maxSim + 1) / 2.
Proof.
  cbv zeta.
  pose proof (centroid_best_match_scan avg cs (-1) "none") as H. cbv zeta in H.
  destruct H as (Hle & Hall & Hcase).
  split; [exact Hall|]. split.
  - destruct Hcase as [[Hm Hl]|(cs1 & c & cs2 & Hcs & Hl & Hm & _ & Hbefore)].
    + left. split; [exact Hm|]. split; [exact Hl|].
      intros c Hin. pose proof (Hall c Hin) as Hc.
      pose proof (cosine_bounds avg (lift_vec (Centroid.centroid c))) as Hr.
      unfold group_similarity in *. lra.
    + right. exists cs1, c, cs2. repeat split; assumption.
  - assert (Hup : fst (Centroid.best_match avg cs (-1) "none") <= 1).
    { destruct Hcase as [[Hm _]|(cs1 & c & cs2 & _ & _ & Hm & _)].
      - rewrite Hm. lra.
      - rewrite Hm. apply cosine_bounds. }
    apply clamp01_id. lra.
Qed.

Lemma hf_scan_max pv cands m0 l0 :
  let r := HF.scan_candidates pv cands m0 l0 in
  m0 <= fst r /\
  (forall c rv, In (c, rv) cands -> cosine pv rv <= fst r) /\
  ((fst r = m0 /\ snd r = l0) \/
   exists c rv, In (c, rv) cands /\ fst r = cosine pv rv /\ snd r = HF.label c).
Proof.
  revert m0 l0. induction cands as [|[c rv] rest IH]; intros m0 l0; cbv zeta.
  - simpl. split; [lra|]. split; [intros c rv []|]. left. split; reflexivity.
  - cbn [HF.scan_candidates].
    destruct (Rlt_dec m0 (cosine pv rv)) as [Hlt|Hge].
    + specialize (IH (cosine pv rv) (HF.label c)). cbv zeta in IH.
      destruct IH as (Hle & Hall & Hcase).
      split; [lra|]. split.
      * intros c' rv' [Heq|Hin]; [inversion Heq; subst; exact Hle | apply (Hall c'), Hin].
      * right. destruct Hcase as [[Hm Hl]|(c' & rv' & Hin & Hm & Hl)].
        -- exists c, rv. split; [now left|]. split; assumption.
        -- exists c', rv'. split; [now right|]. split; assumption.
    + specialize (IH m0 l0). cbv zeta in IH.
      destruct IH as (Hle & Hall & Hcase).
      split; [exact Hle|]. split.
      * intros c' rv' [Heq|Hin]; [inversion Heq; subst; lra | apply (Hall c'), Hin].
      * destruct Hcase as [Hsame|(c' & rv' & Hin & Hm & Hl)].
        -- left. exact Hsame.
        -- right. exists c', rv'. split; [now right|]. split; assumption.
Qed.

Lemma hf_best_match_max pvs pool m0 l0 :
  let r := HF.best_match pvs pool m0 l0 in
  m0 <= fst r /\
  (forall pv c rv, In pv pvs -> In (c, rv) (HF.candidates pool) -> cosine pv rv <= fst r) /\
  ((fst r = m0 /\ snd r = l0) \/
   exists pv c rv, In pv pvs /\ In (c, rv) (HF.candidates pool) /\
                   fst r = cosine pv rv /\ snd r = HF.label c).
Proof.
  revert m0 l0. induction pvs as [|pv rest IH]; intros m0 l0; cbv zeta.
  - simpl. split; [lra|]. split; [intros pv c rv []|]. left. split; reflexivity.
  - cbn [HF.best_match].
    pose proof (hf_scan_max pv (HF.candidates pool) m0 l0) as Hs. cbv zeta in Hs.
    destruct (HF.scan_candidates pv (HF.candidates pool) m0 l0) as [m1 l1].
    cbn [fst snd] in Hs. destruct Hs as (Hle1 & Hall1 & Hcase1).
    specialize (IH m1 l1). cbv zeta in IH. destruct IH as (Hle & Hall & Hcase).
    split; [lra|]. split.
    + intros pv' c rv [<-|Hin] Hc.
      * pose proof (Hall1 c rv Hc). lra.
      * apply (Hall pv' c rv Hin Hc).
    + destruct Hcase as [[Hm Hl]|(pv' & c & rv & Hin & Hc & Hm & Hl)].
      * destruct Hcase1 as [[Hm1 Hl1]|(c & rv & Hc & Hm1 & Hl1)].
        -- left. split; congruence.
        -- right. exists pv, c, rv. split; [now left|]. split; [exact Hc|].
           split; congruence.
      * right. exists pv', c, rv. split; [now right|]. repeat split; assumption.
Qed.

(** X18.  The three nested loops of the hosted-inference server return
    the greatest similarity over all pairs of an embedded photo and a
    reference vector of the candidate pool (photos are compared one by
    one, not averaged), with the label of a group that reaches it.  With
    no photo, an empty pool, or all pairs at -1, the similarity stays -1
    and the label ["none"]. *)
Theorem hf_best_match_is_maximum (photoVecs : list NVec) (pool : list HF.Cluster) :
  let maxSim := fst (HF.best_match photoVecs pool (-1) "none") in
  let bestLabel := snd (HF.best_match photoVecs pool (-1) "none") in
  -1 <= maxSim <= 1 /\
  (forall pv c rv, In pv photoVecs -> In c pool -> In rv (HF.vecs c) ->
                   cosine pv rv <= maxSim) /\
  ((maxSim = -1 /\ bestLabel = "none"%string) \/
   exists pv c rv, In pv photoVecs /\ In c pool /\ In rv (HF.vecs c) /\
                   maxSim = cosine pv rv /\ bestLabel = HF.label c).
Proof.
  cbv zeta.
  pose proof (hf_best_match_max photoVecs pool (-1) "none") as H. cbv zeta in H.
  destruct H as (Hle & Hall & Hcase).
  split; [|split].
  - split; [exact Hle|].
    destruct Hcase as [[Hm _]|(pv & c & rv & _ & _ & Hm & _)].
    + rewrite Hm. lra.
    + rewrite Hm. apply cosine_bounds.
  - intros pv c rv Hpv Hc Hrv. apply (Hall pv c rv Hpv).
    apply candidates_in. split; assumption.
  - destruct Hcase as [Hsame|(pv & c & rv & Hpv & Hc & Hm & Hl)].
    + left. exact Hsame.
    + right. apply candidates_in in Hc as [Hc Hrv].
      exists pv, c, rv. repeat split; assumption.
Qed.

(** ** The demo server *)

Lemma demo_decide_mono x y :
  x <= y -> (decision_rank (Demo.demo_decide x) <= decision_rank (Demo.demo_decide y))%nat.
Proof.
  intros H. unfold Demo.demo_decide.
  destruct (Rle_dec 0.65 x), (Rle_dec 0.65 y), (Rle_dec 0.35 x), (Rle_dec 0.35 y);
    simpl; try lia; lra.
Qed.

(** X19.  The score of the demo server is a number in [0, 1) read off
    the hash of the urls.  The two nudges never move a decision down: a
    height of 175 or more lifts the score to at least 0.35, so that such
    a submission is never rejected, and an age below 19 adds 0.05 up to
    the cap of 0.99, which can lower a score above 0.99 but leaves it at
    "proceed".  Without a nudge the score is the hashed number itself. *)
Theorem demo_nudges_never_hurt (E : Env) (req : Request) :
  let c0 := IZR (Z.of_N (sha256_prefix E 8 (join "|" (photos req)) mod 10000)) / 10000 in
  let c := Demo.demo_confidence E req in
  0 <= c < 1 /\
  Rmin c0 0.99 <= c /\
  (decision_rank (Demo.demo_decide c0) <= decision_rank (Demo.demo_decide c))%nat /\
  (Demo.tall (height_cm req) = true -> 0.35 <= c /\ Demo.demo_decide c <> reject) /\
  (Demo.tall (height_cm req) = false -> Demo.young (age req) = false -> c = c0).
Proof.
  cbv zeta. unfold Demo.demo_confidence. cbv zeta.
  set (n := (sha256_prefix E 8 (join "|" (photos req)) mod 10000)%N).
  assert (Hn : (n < 10000)%N) by (apply N.mod_lt; discriminate).
  assert (H0 : (0 <= Z.of_N n <= 9999)%Z) by lia.
  destruct H0 as [Hlo Hhi]. apply IZR_le in Hlo, Hhi.
  set (c0 := IZR (Z.of_N n) / 10000).
  assert (Hc0 : 0 <= c0 <= 0.9999) by (unfold c0; lra).
  assert (Hmin : Rmin c0 0.99 <= c0) by apply Rmin_l.
  assert (Hmin' : Rmin c0 0.99 <= 0.99) by apply Rmin_r.
  assert (Hdec : forall c, Rmin c0 0.99 <= c ->
            (decision_rank (Demo.demo_decide c0) <= decision_rank (Demo.demo_decide c))%nat).
  { intros c Hc. unfold Rmin in Hc. destruct (Rle_dec c0 0.99).
    - apply demo_decide_mono, Hc.
    - unfold Demo.demo_decide at 2.
      destruct (Rle_dec 0.65 c); [|lra].
      destruct (Demo.demo_decide c0); simpl; lia. }
  assert (Hrej : forall c, 0.35 <= c -> Demo.demo_decide c <> reject).
  { intros c Hc. unfold Demo.demo_decide.
    destruct (Rle_dec 0.65 c); [discriminate|].
    destruct (Rle_dec 0.35 c); [discriminate|lra]. }
  assert (Hfin : forall c, 0 <= c < 1 -> Rmin c0 0.99 <= c ->
            forall t y : bool,
              (t = true -> 0.35 <= c) ->
              (t = false -> y = false -> c = c0) ->
              0 <= c < 1 /\ Rmin c0 0.99 <= c /\
              (decision_rank (Demo.demo_decide c0)
               <= decision_rank (Demo.demo_decide c))%nat /\
              (t = true -> 0.35 <= c /\ Demo.demo_decide c <> reject) /\
              (t = false -> y = false -> c = c0)).
  { intros c Hr Hm t y Ht Hty.
    split; [exact Hr|]. split; [exact Hm|]. split; [apply Hdec, Hm|].
    split; [|exact Hty].
    intros Htt. split; [apply Ht, Htt | apply Hrej, Ht, Htt]. }
  destruct (Demo.tall (height_cm req)), (Demo.young (age req)).
  - assert (H1 : c0 <= Rmax c0 0.35) by apply Rmax_l.
    assert (H2 : 0.35 <= Rmax c0 0.35) by apply Rmax_r.
    assert (H3 : Rmax c0 0.35 <= 0.9999) by (apply Rmax_lub; lra).
    assert (H4 : Rmin (Rmax c0 0.35 + 0.05) 0.99 <= 0.99) by apply Rmin_r.
    assert (H5 : Rmin c0 0.99 <= Rmin (Rmax c0 0.35 + 0.05) 0.99)
      by (apply Rmin_glb; lra).
    assert (H6 : 0.35 <= Rmin (Rmax c0 0.35 + 0.05) 0.99) by (apply Rmin_glb; lra).
    apply Hfin; [lra | exact H5 | intros _; exact H6 | discriminate].
  - assert (H1 : c0 <= Rmax c0 0.35) by apply Rmax_l.
    assert (H2 : 0.35 <= Rmax c0 0.35) by apply Rmax_r.
    assert (H3 : Rmax c0 0.35 <= 0.9999) by (apply Rmax_lub; lra).
    apply Hfin; [lra | lra | intros _; exact H2 | discriminate].
  - assert (H4 : Rmin (c0 + 0.05) 0.99 <= 0.99) by apply Rmin_r.
    assert (H5 : Rmin c0 0.99 <= Rmin (c0 + 0.05) 0.99) by (apply Rmin_glb; lra).
    assert (H6 : 0 <= Rmin (c0 + 0.05) 0.99) by (apply Rmin_glb; lra).
    apply Hfin; [lra | exact H5 | discriminate | discriminate].
  - apply Hfin; [lra | exact Hmin | discriminate | reflexivity].
Qed.

(** ** What it takes to proceed *)

Lemma heightScoreFactory_range p h : 0 <= heightScoreFactory p h <= 1.
Proof.
  destruct h as [x|]; [exact (heightScore_range p x) | simpl; lra].
Qed.

Lemma photo_term_range n : 0 <= photo_term n <= 0.6.
Proof. destruct n; simpl; lra. Qed.

Lemma rule_only_ok E cfg req (s : RuleOnly.St) body s' :
  RuleOnly.evaluate E cfg req s = (inr (Ok body), s') ->
  let P := PREFS_old (GEN_of (gender req)) in
  let conf := blend_old (measScore Part002Old (GEN_of (gender req))
                                   (parseMeas (measurements req)))
                        (heightScoreFactory (p_height P) (height_cm req))
                        (List.length (photos req)) (tinyNoise E (photos req)) in
  rule_confidence body = conf /\ rule_decision body = decide conf.
Proof.
  unfold RuleOnly.evaluate.
  destruct (auth_fails (EVALUATOR_API_KEY cfg) (authorization req)); [discriminate|].
  destruct (photos req) as [|p ps]; [discriminate|].
  unfold bind, record, modify, ret. intros H. injection H as <- _.
  cbv zeta. split; reflexivity.
Qed.

(** X20.  The older rule-only server never answers "proceed" to a
    submission whose measurements do not parse: its confidence stays
    below 0.54.  With no height either the confidence stays below 0.19
    and the answer is "reject", however many photos come along. *)
Theorem rule_only_needs_measurements (E : Env) (cfg : Config) (req : Request)
    (s s' : RuleOnly.St) (body : RuleBody) :
  RuleOnly.evaluate E cfg req s = (inr (Ok body), s') ->
  parseMeas (measurements req) = None ->
  rule_confidence body < 0.54 /\
  rule_decision body <> proceed /\
  (height_cm req = None ->
   rule_confidence body < 0.19 /\ rule_decision body = reject).
Proof.
  intros Hrun Hm.
  destruct (rule_only_ok E cfg req s body s' Hrun) as [Hc Hd]. cbv zeta in Hc, Hd.
  rewrite Hm, measScore_none in Hc, Hd.
  unfold blend_old in Hc, Hd.
  pose proof (tinyNoise_range E (photos req)) as Hn.
  pose proof (photoBoost_range (List.length (photos req))) as Hb.
  pose proof (photo_term_range (List.length (photos req))) as Ht.
  set (P := PREFS_old (GEN_of (gender req))) in *.
  assert (Hh : 0 <= heightScoreFactory (p_height P) (height_cm req) <= 1).
  { apply heightScoreFactory_range. }
  set (hs := heightScoreFactory (p_height P) (height_cm req)) in *.
  set (z := tinyNoise E (photos req)) in *.
  set (pb := photoBoost (List.length (photos req))) in *.
  set (pt := photo_term (List.length (photos req))) in *.
  pose proof (clamp01_bounds (0.55 * 0 + 0.35 * hs + 0.10 * pt + pb + z)) as Hcl.
  assert (Hid : clamp01 (0.55 * 0 + 0.35 * hs + 0.10 * pt + pb + z)
                = 0.55 * 0 + 0.35 * hs + 0.10 * pt + pb + z)
    by (apply clamp01_id; lra).
  rewrite Hid in Hc, Hd.
  split; [lra|]. split.
  - rewrite Hd. unfold decide. destruct (Rle_dec 0.70 _); [lra|].
    destruct (Rle_dec 0.45 _); discriminate.
  - intros Hnone.
    assert (Hz : hs = 0) by (unfold hs; rewrite Hnone; reflexivity).
    split; [lra|]. rewrite Hd. apply decide_reject. lra.
Qed.

Lemma rule_only_needs_measurements_witness :
  exists body s',
    RuleOnly.evaluate dead_env (test_config false) bare_request init_state
    = (inr (Ok body), s') /\
    rule_confidence body < 0.54 /\
    rule_decision body <> proceed /\
    (height_cm bare_request = None ->
     rule_confidence body < 0.19 /\ rule_decision body = reject).
Proof.
  eexists _, _. split; [reflexivity|].
  apply (rule_only_needs_measurements dead_env (test_config false) bare_request
           init_state _ _ eq_refl eq_refl).
Defined.

Lemma decide_mono x y :
  x <= y -> (decision_rank (decide x) <= decision_rank (decide y))%nat.
Proof.
  intros H. unfold decide.
  destruct (Rle_dec 0.70 x), (Rle_dec 0.70 y), (Rle_dec 0.45 x), (Rle_dec 0.45 y);
    simpl; try lia; lra.
Qed.

Lemma blend_mono ms ms' hs hs' fs fs' n z :
  ms <= ms' -> hs <= hs' -> fs <= fs' -> blend ms hs fs n z <= blend ms' hs' fs' n z.
Proof. intros. unfold blend. apply clamp01_mono. lra. Qed.

Lemma blend_old_mono ms ms' hs hs' n z :
  ms <= ms' -> hs <= hs' -> blend_old ms hs n z <= blend_old ms' hs' n z.
Proof. intros. unfold blend_old. apply clamp01_mono. lra. Qed.

Lemma prefs_height_wf g : wf_height (p_height (PREFS g)).
Proof. destruct g; [apply female_height_wf | apply male_height_wf | apply female_height_wf]. Qed.

Lemma prefs_old_height_wf g : wf_height (p_height (PREFS_old g)).
Proof.
  destruct g; [apply female_height_wf | apply male_height_old_wf | apply female_height_wf].
Qed.

Lemma heightScoreFactory_mono p h h' :
  wf_height p -> h <= h' ->
  heightScoreFactory p (Some h) <= heightScoreFactory p (Some h').
Proof. intros Hwf H. exact (heightScore_mono p Hwf h h' H). Qed.

Lemma centroid_face_score_range E photos (s : Centroid.St) f s' :
  Centroid.face_block E photos s = (inr f, s') -> 0 <= faceScore f <= 1.
Proof.
  unfold Centroid.face_block, try_catch, bind, get_state.
  destruct (clusters s) as [|c cs].
  - intros H. injection H as <- _. simpl. lra.
  - destruct (centroid_embed_photos_total E (firstn 5 photos) s) as (vs & s1 & ->).
    destruct vs as [|v0 vs].
    + intros H. injection H as <- _. simpl. lra.
    + destruct (Centroid.best_match _ _ _ _) as [maxSim bestLabel].
      intros H. injection H as <- _. simpl. apply clamp01_bounds.
Qed.

Lemma hf_face_score_range E cfg GEN photos (s : HF.St) f s' :
  HF.face_block E cfg GEN photos s = (inr f, s') -> 0 <= faceScore f <= 1.
Proof.
  unfold HF.face_block, try_catch, bind, get_state.
  destruct (clusters s) as [|c cs].
  - intros H. injection H as <- _. simpl. lra.
  - destruct (hf_embed_all_total E cfg "app_embed_fail" [] photos s) as (vs & s1 & ->).
    destruct (HF.best_match _ _ _ _) as [maxSim bestLabel].
    destruct (Rle_dec (-1) maxSim); intros H; injection H as <- _; simpl;
      [apply clamp01_bounds | lra].
Qed.

(** The answer of a centroid server to a request that gets through. *)
Lemma centroid_evaluate_ok E cfg v req (s : Centroid.St) body s' :
  Centroid.evaluate E cfg v req s = (inr (Ok body), s') ->
  Centroid.light cfg v = false ->
  exists f,
    Centroid.face_block E (photos req) s = (inr f, s') /\
    let GEN := GEN_of (gender req) in
    let conf := blend (measScore v GEN (parseMeas (measurements req)))
                      (heightScoreFactory (p_height (PREFS GEN)) (height_cm req))
                      (faceScore f) (List.length (photos req))
                      (tinyNoise E (photos req)) in
    confidence body = conf /\ decision body = decide conf /\
    face_similarity body = toFixed3 (faceScore f) /\
    face_cluster body = faceCluster f.
Proof.
  unfold Centroid.evaluate. intros H Hl. rewrite Hl in H.
  destruct (auth_fails (EVALUATOR_API_KEY cfg) (authorization req)); [discriminate|].
  destruct (photos req) as [|p ps] eqn:Hp; [discriminate|].
  destruct (centroid_face_block_total E (p :: ps) s) as (f & s1 & Hf).
  unfold try_catch, bind in H. rewrite Hf in H. unfold ret in H.
  injection H as <- <-.
  exists f. split; [exact Hf|]. cbv zeta. repeat split.
Qed.

(** The answer of the hosted-inference server to a request that gets
    through. *)
Lemma hf_evaluate_ok E cfg req (s : HF.St) body s' :
  HF.evaluate E cfg req s = (inr (Ok body), s') ->
  exists f,
    HF.face_block E cfg (GEN_of (gender req)) (photos req) s = (inr f, s') /\
    let GEN := GEN_of (gender req) in
    let conf := blend (measScore Part001 GEN (parseMeas (measurements req)))
                      (heightScoreFactory (p_height (PREFS GEN)) (height_cm req))
                      (faceScore f) (List.length (photos req))
                      (tinyNoise E (photos req)) in
    confidence body = conf /\ decision body = decide conf /\
    face_similarity body = toFixed3 (faceScore f) /\
    face_cluster body = faceCluster f.
Proof.
  unfold HF.evaluate. intros H.
  destruct (auth_fails (EVALUATOR_API_KEY cfg) (authorization req)); [discriminate|].
  destruct (photos req) as [|p ps] eqn:Hp; [discriminate|].
  destruct (hf_face_block_total E cfg (GEN_of (gender req)) (p :: ps) s) as (f & s1 & Hf).
  unfold try_catch, bind in H. rewrite Hf in H. unfold ret in H.
  injection H as <- <-.
  exists f. split; [exact Hf|]. cbv zeta. repeat split.
Qed.

Lemma hf_evaluate_answers E cfg req (s : HF.St) :
  auth_fails (EVALUATOR_API_KEY cfg) (authorization req) = false ->
  photos req <> [] ->
  exists body s', HF.evaluate E cfg req s = (inr (Ok body), s').
Proof.
  intros Ha Hp. unfold HF.evaluate. rewrite Ha.
  destruct (photos req) as [|p ps]; [congruence|].
  destruct (hf_face_block_total E cfg (GEN_of (gender req)) (p :: ps) s) as (f & s1 & Hf).
  unfold try_catch, bind. rewrite Hf. unfold ret.
  eexists _, _. reflexivity.
Qed.

Lemma centroid_evaluate_answers E cfg v req (s : Centroid.St) :
  auth_fails (EVALUATOR_API_KEY cfg) (authorization req) = false ->
  photos req <> [] ->
  exists body s', Centroid.evaluate E cfg v req s = (inr (Ok body), s').
Proof.
  intros Ha Hp. unfold Centroid.evaluate. rewrite Ha.
  destruct (photos req) as [|p ps]; [congruence|].
  destruct (Centroid.light cfg v); [eexists _, _; reflexivity|].
  destruct (centroid_face_block_total E (p :: ps) s) as (f & s1 & Hf).
  unfold try_catch, bind. rewrite Hf. unfold ret.
  eexists _, _. reflexivity.
Qed.

Lemma blend_without_rules fs n z :
  0 <= fs <= 1 -> 0 <= z < 0.01 -> blend 0 0 fs n z < 0.46.
Proof.
  intros Hf Hz. unfold blend.
  pose proof (photoBoost_range n) as Hb.
  pose proof (photo_term_range n) as Ht.
  rewrite clamp01_id; lra.
Qed.

(** X21.  The servers with face similarity never answer "proceed" to a
    submission that brings neither a height nor measurements that parse:
    the photos alone, however many and however similar to a reference
    group, keep the confidence below 0.46 (the mock of [LIGHT_MODE]
    answers "review" with its fixed 0.75). *)
Theorem photos_alone_never_proceed (E : Env) (cfg : Config) (req : Request) :
  height_cm req = None ->
  parseMeas (measurements req) = None ->
  (forall v s s' body,
     Centroid.evaluate E cfg v req s = (inr (Ok body), s') ->
     decision body <> proceed /\
     (Centroid.light cfg v = false -> confidence body < 0.46)) /\
  (forall s s' body,
     HF.evaluate E cfg req s = (inr (Ok body), s') ->
     confidence body < 0.46 /\ decision body <> proceed).
Proof.
  intros Hh Hm.
  assert (Hdec : forall c, c < 0.46 -> decide c <> proceed).
  { intros c Hc. unfold decide. destruct (Rle_dec 0.70 c); [lra|].
    destruct (Rle_dec 0.45 c); discriminate. }
  pose proof (tinyNoise_range E (photos req)) as Hz.
  split.
  - intros v s s' body Hrun.
    destruct (Centroid.light cfg v) eqn:Hl.
    + unfold Centroid.evaluate in Hrun. rewrite Hl in Hrun.
      destruct (auth_fails _ _); [discriminate|].
      destruct (photos req); [discriminate|].
      injection Hrun as <- _. split; discriminate.
    + destruct (centroid_evaluate_ok E cfg v req s body s' Hrun Hl) as (f & Hf & H).
      cbv zeta in H. destruct H as (Hc & Hd & _).
      rewrite Hm, measScore_none, Hh in Hc, Hd. cbn [heightScoreFactory] in Hc, Hd.
      pose proof (centroid_face_score_range E _ s f s' Hf) as Hfs.
      pose proof (blend_without_rules (faceScore f) (List.length (photos req)) _ Hfs Hz).
      split; [rewrite Hd; apply Hdec; assumption | intros _; lra].
  - intros s s' body Hrun.
    destruct (hf_evaluate_ok E cfg req s body s' Hrun) as (f & Hf & H).
    cbv zeta in H. destruct H as (Hc & Hd & _).
    rewrite Hm, measScore_none, Hh in Hc, Hd. cbn [heightScoreFactory] in Hc, Hd.
    pose proof (hf_face_score_range E cfg _ _ s f s' Hf) as Hfs.
    pose proof (blend_without_rules (faceScore f) (List.length (photos req)) _ Hfs Hz).
    split; [lra|]. rewrite Hd. apply Hdec. assumption.
Qed.

Lemma photos_alone_never_proceed_witness :
  exists body s',
    HF.evaluate dead_env (test_config false) bare_request hf_loaded = (inr (Ok body), s') /\
    confidence body < 0.46 /\ decision body <> proceed.
Proof.
  destruct (hf_evaluate_answers dead_env (test_config false) bare_request
              hf_loaded eq_refl ltac:(discriminate)) as (body & s' & Hrun).
  exists body, s'. split; [exact Hrun|].
  exact (proj2 (photos_alone_never_proceed dead_env (test_config false) bare_request
                  eq_refl eq_refl) hf_loaded s' body Hrun).
Defined.

(** X22.  All else equal, a greater height never lowers the confidence
    and never moves the decision down, in the centroid servers, the
    hosted-inference server and the older rule-only server alike: the
    height score is monotone, the blend is monotone in it, and nothing
    else in an evaluation looks at the height. *)
Theorem taller_never_hurts (E : Env) (cfg : Config) (req : Request) (h h' : R) :
  h <= h' ->
  (forall v s s1 s1' body body',
     Centroid.evaluate E cfg v (with_height req (Some h)) s = (inr (Ok body), s1) ->
     Centroid.evaluate E cfg v (with_height req (Some h')) s = (inr (Ok body'), s1') ->
     confidence body <= confidence body' /\
     (decision_rank (decision body) <= decision_rank (decision body'))%nat /\
     face_similarity body = face_similarity body' /\ s1 = s1') /\
  (forall s s1 s1' body body',
     HF.evaluate E cfg (with_height req (Some h)) s = (inr (Ok body), s1) ->
     HF.evaluate E cfg (with_height req (Some h')) s = (inr (Ok body'), s1') ->
     confidence body <= confidence body' /\
     (decision_rank (decision body) <= decision_rank (decision body'))%nat /\
     face_similarity body = face_similarity body' /\ s1 = s1') /\
  (forall s s1 s1' body body',
     RuleOnly.evaluate E cfg (with_height req (Some h)) s = (inr (Ok body), s1) ->
     RuleOnly.evaluate E cfg (with_height req (Some h')) s = (inr (Ok body'), s1') ->
     rule_confidence body <= rule_confidence body' /\
     (decision_rank (rule_decision body) <= decision_rank (rule_decision body'))%nat).
Proof.
  intros Hh. split; [|split].
  - intros v s s1 s1' body body' H1 H2.
    destruct (Centroid.light cfg v) eqn:Hl.
    + unfold Centroid.evaluate in H1, H2. rewrite Hl in H1, H2.
      cbn [with_height authorization photos] in H1, H2.
      destruct (auth_fails _ _); [discriminate|].
      destruct (photos req); [discriminate|].
      injection H1 as <- <-. injection H2 as <- <-.
      repeat split; simpl; try lra; lia.
    + destruct (centroid_evaluate_ok E cfg v _ s body s1 H1 Hl) as (f & Hf & K).
      destruct (centroid_evaluate_ok E cfg v _ s body' s1' H2 Hl) as (f' & Hf' & K').
      cbn [with_height photos gender height_cm measurements] in Hf, Hf', K, K'.
      rewrite Hf in Hf'. injection Hf' as <- <-.
      cbv zeta in K, K'.
      destruct K as (Kc & Kd & Ks & _). destruct K' as (Kc' & Kd' & Ks' & _).
      assert (Hb : confidence body <= confidence body').
      { rewrite Kc, Kc'. apply blend_mono; try lra.
        apply heightScoreFactory_mono; [apply prefs_height_wf | exact Hh]. }
      repeat split; try assumption; try congruence.
      rewrite Kd, Kd', <- Kc, <- Kc'. apply decide_mono, Hb.
  - intros s s1 s1' body body' H1 H2.
    destruct (hf_evaluate_ok E cfg _ s body s1 H1) as (f & Hf & K).
    destruct (hf_evaluate_ok E cfg _ s body' s1' H2) as (f' & Hf' & K').
    cbn [with_height photos gender height_cm measurements] in Hf, Hf', K, K'.
    rewrite Hf in Hf'. injection Hf' as <- <-.
    cbv zeta in K, K'.
    destruct K as (Kc & Kd & Ks & _). destruct K' as (Kc' & Kd' & Ks' & _).
    assert (Hb : confidence body <= confidence body').
    { rewrite Kc, Kc'. apply blend_mono; try lra.
      apply heightScoreFactory_mono; [apply prefs_height_wf | exact Hh]. }
    repeat split; try assumption; try congruence.
    rewrite Kd, Kd', <- Kc, <- Kc'. apply decide_mono, Hb.
  - intros s s1 s1' body body' H1 H2.
    destruct (rule_only_ok E cfg _ s body s1 H1) as [Kc Kd].
    destruct (rule_only_ok E cfg _ s body' s1' H2) as [Kc' Kd'].
    cbn [with_height photos gender height_cm measurements] in Kc, Kd, Kc', Kd'.
    assert (Hb : rule_confidence body <= rule_confidence body').
    { rewrite Kc, Kc'. apply blend_old_mono; try lra.
      apply heightScoreFactory_mono; [apply prefs_old_height_wf | exact Hh]. }
    split; [exact Hb|].
    rewrite Kd, Kd', <- Kc, <- Kc'. apply decide_mono, Hb.
Qed.

Lemma taller_never_hurts_witness :
  exists body body' s1 s1',
    RuleOnly.evaluate dead_env (test_config false)
                      (with_height scenario1_request (Some 170)) init_state
    = (inr (Ok body), s1) /\
    RuleOnly.evaluate dead_env (test_config false)
                      (with_height scenario1_request (Some 180)) init_state
    = (inr (Ok body'), s1') /\
    rule_confidence body <= rule_confidence body' /\
    (decision_rank (rule_decision body) <= decision_rank (rule_decision body'))%nat.
Proof.
  eexists _, _, _, _. split; [reflexivity|]. split; [reflexivity|].
  exact (proj2 (proj2 (taller_never_hurts dead_env (test_config false) scenario1_request
                         170 180 ltac:(lra)))
               init_state _ _ _ _ eq_refl eq_refl).
Defined.

(** ** The photo bonus *)

(** X23.  The photo bonus is 0 up to two photos, grows by 0.04 with the
    third, fourth and fifth photo, and stays at 0.12 from five photos on;
    it never decreases with the number of photos. *)
Theorem photoBoost_steps (n m : nat) :
  ((n <= 2)%nat -> photoBoost n = 0) /\
  ((2 <= n <= 5)%nat -> photoBoost n = (INR n - 2) * 0.04) /\
  ((5 <= n)%nat -> photoBoost n = 0.12) /\
  ((n <= m)%nat -> photoBoost n <= photoBoost m).
Proof.
  assert (H2 : INR 2 = 2) by (simpl; lra).
  assert (H5 : INR 5 = 5) by (simpl; lra).
  unfold photoBoost, clamp, Rmax, Rmin.
  split; [|split; [|split]].
  - intros H. apply le_INR in H.
    destruct (Rle_dec 0.12 _); destruct (Rle_dec 0 _); lra.
  - intros [Ha Hb]. apply le_INR in Ha, Hb.
    destruct (Rle_dec 0.12 _); destruct (Rle_dec 0 _); lra.
  - intros H. apply le_INR in H.
    destruct (Rle_dec 0.12 _); destruct (Rle_dec 0 _); lra.
  - intros H. apply le_INR in H.
    destruct (Rle_dec 0.12 ((INR n - 2) * 0.04));
      destruct (Rle_dec 0.12 ((INR m - 2) * 0.04));
    repeat match goal with
           | |- context [Rle_dec ?a ?b] => destruct (Rle_dec a b)
           end; lra.
Qed.

(** ** Pooling of an inference answer *)

Lemma fold_left_cells (vs : list Vec) (j : nat) (a : R) :
  fold_left (fun (acc : R) (c : option R) =>
               acc + match c with Some x => x | None => 0 end)
            (map (fun vec : list R => Some (nth j vec 0)) vs) a
  = a + sum_cells vs j.
Proof.
  unfold sum_cells. revert a. induction vs as [|vec vs IH]; intros a; simpl.
  - lra.
  - rewrite IH. lra.
Qed.

Lemma pool_cell_finite (vs : list Vec) (d j : nat) :
  Forall (fun vec => List.length vec = d) vs -> (j < d)%nat ->
  HF.pool_cell (map lift_vec vs) j = Some (sum_cells vs j / INR (List.length vs)).
Proof.
  intros Hd Hj. unfold HF.pool_cell. cbv zeta.
  match goal with
  | |- context [forallb _ ?cells] =>
      assert (Hcells : cells = map (fun vec => Some (nth j vec 0)) vs)
  end.
  { rewrite map_map. apply map_ext_in. intros vec Hin.
    rewrite Forall_forall in Hd. unfold lift_vec.
    apply (nth_map_lt Some vec j 0 None). rewrite (Hd vec Hin). exact Hj. }
  rewrite Hcells, length_map.
  match goal with
  | |- (if ?b then _ else _) = _ => assert (Hall : b = true)
  end.
  { apply forallb_forall. intros c Hc. apply in_map_iff in Hc as (vec & <- & _). reflexivity. }
  rewrite Hall, fold_left_cells, Rplus_0_l. reflexivity.
Qed.

Lemma map_nth_seq {A B} (g : option A -> B) (row : list (option A)) :
  map (fun j => g (nth j row None)) (seq 0 (List.length row)) = map g row.
Proof.
  induction row as [|x row IH]; [reflexivity|].
  cbn [List.length seq map nth]. f_equal.
  rewrite <- seq_shift, map_map. exact IH.
Qed.

Lemma pool_cell_single (row : NVec) (j : nat) :
  HF.pool_cell [row] j = nth j row None.
Proof.
  unfold HF.pool_cell. cbn [map forallb fold_left List.length].
  match goal with
  | |- context [match ?t with Some _ => true | None => false end] =>
      change (nth j row None) with t; destruct t as [x|]
  end; cbn [andb]; [|reflexivity].
  f_equal. simpl. field.
Qed.

(** X24.  [poolToVector] averages over the rows of a matrix, cell by
    cell: for rows of one dimension it returns their dimension-wise mean,
    for a single row that row, and an answer that is a vector already
    comes back unchanged. *)
Theorem poolToVector_is_mean (vs : list Vec) (d : nat) (row cells : NVec) :
  vs <> [] ->
  Forall (fun vec => List.length vec = d) vs ->
  HF.poolToVector (JMatrix (map lift_vec vs)) = lift_vec (mean_vec vs d) /\
  HF.poolToVector (JMatrix [row]) = row /\
  HF.poolToVector (JVector cells) = cells.
Proof.
  intros Hne Hd. split; [|split].
  - destruct vs as [|first rest]; [congruence|].
    cbn [map HF.poolToVector].
    change (lift_vec first :: map lift_vec rest) with (map lift_vec (first :: rest)).
    unfold lift_vec at 2. rewrite length_map.
    assert (Hfirst : List.length first = d) by (inversion Hd; assumption).
    rewrite Hfirst. unfold mean_vec, lift_vec at 2. rewrite map_map.
    apply map_ext_in. intros j Hj. apply in_seq in Hj.
    apply (pool_cell_finite (first :: rest) d j); [exact Hd | lia].
  - cbn [HF.poolToVector].
    rewrite (map_ext _ _ (pool_cell_single row)).
    exact (eq_trans (map_nth_seq (fun c : option R => c) row) (map_id row)).
  - reflexivity.
Qed.

Lemma poolToVector_is_mean_witness :
  HF.poolToVector (JMatrix (map lift_vec [[1; 2]; [3; 4]]))
  = lift_vec (mean_vec [[1; 2]; [3; 4]] 2) /\
  HF.poolToVector (JMatrix [[Some 1; None]]) = [Some 1; None] /\
  HF.poolToVector (JVector []) = [].
Proof.
  apply (poolToVector_is_mean [[1; 2]; [3; 4]] 2 [Some 1; None] []);
    [discriminate | repeat constructor].
Defined.

(** ** The mock endpoint *)

Lemma split_on_plain sep x : has_char sep x = false -> split_on sep x = [x].
Proof.
  induction x as [|a x IH]; simpl; intros H; [reflexivity|].
  apply orb_false_elim in H as [Ha Hx]. rewrite Ha, (IH Hx). reflexivity.
Qed.

Lemma split_on_app sep x r :
  has_char sep x = false ->
  split_on sep (x ++ String sep r) = x :: split_on sep r.
Proof.
  induction x as [|a x IH]; simpl; intros H.
  - rewrite Ascii.eqb_refl. reflexivity.
  - apply orb_false_elim in H as [Ha Hx]. rewrite Ha, (IH Hx). reflexivity.
Qed.

Lemma split_on_join xs :
  xs <> [] ->
  Forall (fun x => has_char "," x = false) xs ->
  split_on "," (join "," xs) = xs.
Proof.
  induction xs as [|x rest IH]; intros Hne Hall; [congruence|].
  inversion Hall as [|? ? Hx Hrest]; subst.
  destruct rest as [|y rest'].
  - simpl. apply split_on_plain, Hx.
  - change (join "," (x :: y :: rest')) with (x ++ String "," (join "," (y :: rest')))%string.
    rewrite split_on_app by exact Hx. f_equal. apply IH; [discriminate | exact Hrest].
Qed.

(** X25.  The mock endpoints take the photos as an array or as one
    comma-separated string and treat the two alike: for urls without a
    comma, the joined string gives the answer of the array, in part_000
    always and in part_002 (which cleans the pieces of a string only)
    when the urls are trimmed and not empty.  At most two urls are
    echoed, and a field that is neither an array nor a string counts as
    no photos. *)
Theorem evaluate_mock_string_as_array (xs : list string) :
  Forall (fun x => has_char "," x = false) xs ->
  Mock.evaluate_mock_000 (Mock.PhotosString (join "," xs))
  = Mock.evaluate_mock_000 (Mock.PhotosArray xs) /\
  (Forall (fun x => trim x = x /\ x <> EmptyString) xs ->
   Mock.evaluate_mock_002 (Mock.PhotosString (join "," xs))
   = Mock.evaluate_mock_002 (Mock.PhotosArray xs)) /\
  (List.length (Mock.mock_details (Mock.evaluate_mock_000 (Mock.PhotosArray xs))) <= 2)%nat /\
  (List.length (Mock.mock_details (Mock.evaluate_mock_002 (Mock.PhotosArray xs))) <= 2)%nat /\
  Mock.evaluate_mock_000 Mock.PhotosOther = Mock.evaluate_mock_000 (Mock.PhotosArray []) /\
  Mock.evaluate_mock_002 Mock.PhotosOther = Mock.evaluate_mock_002 (Mock.PhotosArray []).
Proof.
  intros Hc.
  assert (Hclean : Mock.clean (split_on "," (join "," xs)) = Mock.clean xs).
  { destruct xs as [|x rest]; [reflexivity|].
    rewrite split_on_join; [reflexivity | discriminate | exact Hc]. }
  split; [|split; [|split; [|split; [|split]]]].
  - unfold Mock.evaluate_mock_000. cbv zeta. rewrite Hclean. reflexivity.
  - intros Htidy. unfold Mock.evaluate_mock_002. cbv zeta. rewrite Hclean.
    assert (Hid : Mock.clean xs = xs).
    { clear Hc Hclean. unfold Mock.clean.
      induction xs as [|x rest IH]; [reflexivity|].
      inversion Htidy as [|? ? [Ht Hn] Hrest]; subst.
      cbn [map filter]. rewrite Ht.
      destruct x; [congruence|]. cbn [nonempty]. f_equal. apply IH, Hrest. }
    rewrite Hid. reflexivity.
  - unfold Mock.evaluate_mock_000. cbn [Mock.mock_details]. apply firstn_le_length.
  - unfold Mock.evaluate_mock_002. cbn [Mock.mock_details]. apply firstn_le_length.
  - reflexivity.
  - reflexivity.
Qed.

Lemma evaluate_mock_string_as_array_witness :
  Mock.evaluate_mock_000 (Mock.PhotosString "https://a/1.jpg,https://a/2.jpg,https://a/3.jpg")
  = Mock.evaluate_mock_000
      (Mock.PhotosArray ["https://a/1.jpg"; "https://a/2.jpg"; "https://a/3.jpg"]%string).
Proof.
  refine (proj1 (evaluate_mock_string_as_array
                   ["https://a/1.jpg"; "https://a/2.jpg"; "https://a/3.jpg"]%string _)).
  repeat (apply Forall_cons; [reflexivity|]). apply Forall_nil.
Defined.

(** ** A failed load of the hosted-inference server *)

Lemma hf_searchFolderAssets_clusters E fname (s : HF.St) :
  clusters (snd (HF.searchFolderAssets E fname s)) = clusters s.
Proof.
  unfold HF.searchFolderAssets, bind, get_state, record, modify, ret, throw.
  destruct (search_reply E (history s) fname); reflexivity.
Qed.

Lemma hf_build_folder_clusters E cfg fname out (s : HF.St) :
  clusters (snd (HF.build_folder E cfg fname out s)) = clusters s.
Proof.
  unfold HF.build_folder.
  pose proof (hf_searchFolderAssets_clusters E fname s) as Hs.
  unfold bind at 1.
  destruct (HF.searchFolderAssets E fname s) as [[e|us] s1]; cbn [snd] in Hs; [exact Hs|].
  destruct us as [|u us]; [exact Hs|].
  pose proof (hf_embed_all_keeps E cfg "embed_fail" [fname] (u :: us) s1) as He.
  destruct (hf_embed_all_total E cfg "embed_fail" [fname] (u :: us) s1) as (vs & s2 & Hvs).
  rewrite Hvs in He. cbn [snd] in He.
  rewrite (bind_inr _ _ _ _ _ Hvs).
  destruct vs; unfold ret; cbn [snd]; congruence.
Qed.

Lemma hf_build_folders_clusters E cfg names out (s : HF.St) :
  clusters (snd (HF.build_folders E cfg names out s)) = clusters s.
Proof.
  revert out s. induction names as [|fname rest IH]; intros out s; [reflexivity|].
  cbn [HF.build_folders]. unfold bind.
  pose proof (hf_build_folder_clusters E cfg fname out s) as Hf.
  destruct (HF.build_folder E cfg fname out s) as [[e|out1] s1]; cbn [snd] in *.
  - exact Hf.
  - rewrite IH. exact Hf.
Qed.

Lemma hf_discover_clusters E cfg (s : HF.St) :
  clusters (snd (HF.discoverReferenceFolders E cfg s)) = clusters s.
Proof.
  unfold HF.discoverReferenceFolders.
  destruct (REFERENCE_FOLDERS_JSON cfg); try reflexivity.
  unfold bind at 1, HF.listRootFolders, bind, get_state, record, modify.
  destruct (folders_reply E (history s)); reflexivity.
Qed.

Lemma hf_loadClusters_failure E cfg (s : HF.St) e s' :
  HF.loadClusters E cfg s = (inl e, s') -> clusters s' = clusters s.
Proof.
  unfold HF.loadClusters. intros H.
  destruct (negb (nonempty (CLOUDINARY_CLOUD_NAME cfg))
            || negb (nonempty (CLOUDINARY_API_KEY cfg))
            || negb (nonempty (CLOUDINARY_API_SECRET cfg))).
  { inversion H; subst. reflexivity. }
  unfold bind at 1 in H.
  pose proof (hf_discover_clusters E cfg s) as Hd.
  destruct (HF.discoverReferenceFolders E cfg s) as [[e1|names] s1]; cbn [snd] in Hd.
  { inversion H; subst. exact Hd. }
  unfold bind at 1 in H.
  pose proof (hf_build_folders_clusters E cfg names [] s1) as Hb.
  destruct (HF.build_folders E cfg names [] s1) as [[e2|out] s2]; cbn [snd] in Hb.
  { inversion H; subst. rewrite Hb. exact Hd. }
  unfold bind, replace_clusters, console_log, modify in H. cbn in H. discriminate.
Qed.

(** X26.  In the hosted-inference server a cache build that fails
    leaves the reference cache as it was: a reload answered with an error
    (or refused for a wrong token) keeps the previous groups, and the
    load at boot never throws, so that after a failed initial load the
    process runs on with the cache it had and the error on the console.
    A load that runs to its end publishes groups that hold at least one
    vector each. *)
Theorem hf_failed_load_keeps_cache (E : Env) (cfg : Config) (token : string) (s : HF.St) :
  (forall e s', HF.reload_refs E cfg token s = (inr (AdminError e), s') ->
                clusters s' = clusters s) /\
  (forall s', HF.reload_refs E cfg token s = (inr AdminUnauthorized, s') -> s' = s) /\
  (exists s', HF.boot E cfg s = (inr tt, s') /\
     match HF.loadClusters E cfg s with
     | (inl e, s1) =>
         clusters s' = clusters s /\
         console s' = (console s1 ++ [LogError "Initial reference load failed:" [e]])%list
     | (inr _, s1) => s' = s1 /\ Forall (fun c => HF.vecs c <> []) (clusters s')
     end).
Proof.
  split; [|split].
  - unfold HF.reload_refs. intros e s' H.
    destruct (negb (String.eqb token (ADMIN_TOKEN cfg))); [discriminate|].
    unfold try_catch, bind at 1 in H.
    destruct (HF.loadClusters E cfg s) as [[e1|[]] s1] eqn:Hl.
    + unfold bind, console_error, modify, ret in H. injection H as _ <-.
      cbn [clusters]. exact (hf_loadClusters_failure E cfg s e1 s1 Hl).
    + unfold bind, get_state, ret in H. discriminate.
  - unfold HF.reload_refs. intros s' H.
    destruct (negb (String.eqb token (ADMIN_TOKEN cfg))).
    + injection H as <-. reflexivity.
    + unfold try_catch, bind at 1 in H.
      destruct (HF.loadClusters E cfg s) as [[e1|[]] s1].
      * unfold bind, console_error, modify, ret in H. discriminate.
      * unfold bind, get_state, ret in H. discriminate.
  - unfold HF.boot, try_catch.
    destruct (HF.loadClusters E cfg s) as [[e|[]] s1] eqn:Hl.
    + eexists. split; [reflexivity|]. cbn [clusters console]. split; [|reflexivity].
      exact (hf_loadClusters_failure E cfg s e s1 Hl).
    + eexists. split; [reflexivity|]. split; [reflexivity|].
      exact (hf_loadClusters_groups E cfg s s1 Hl).
Qed.

(** ** The gender of a submission *)

Lemma lower_is_m c : Ascii.eqb "m" (lower_ascii c) = true <-> c = "m"%char \/ c = "M"%char.
Proof.
  destruct c as [[] [] [] [] [] [] [] []]; vm_compute; split;
    try discriminate; try (intros [H|H]; discriminate H);
    try (intros _; left; reflexivity); try (intros _; right; reflexivity);
    intros _; reflexivity.
Qed.

(** X27.  The gender of a submission is never "unknown": it is "male"
    exactly when the field is a string that begins with [m] or [M], and
    "female" for every other string, the empty one included, and for a
    missing field. *)
Theorem GEN_of_cases (gender : option string) :
  GEN_of gender <> Unknown /\
  (GEN_of gender = Male <->
   exists c rest, gender = Some (String c rest) /\ (c = "m"%char \/ c = "M"%char)) /\
  (GEN_of gender <> Male -> GEN_of gender = Female).
Proof.
  unfold GEN_of.
  destruct gender as [[|c rest]|]; cbv zeta.
  - cbn. repeat split; try discriminate.
    + intros (c & rest & H & _). discriminate.
  - change (startsWith "m" (toLowerCase (String c rest)))
      with (Ascii.eqb "m" (lower_ascii c) && true).
    rewrite andb_true_r.
    destruct (Ascii.eqb "m" (lower_ascii c)) eqn:Hc.
    + apply lower_is_m in Hc. repeat split; try discriminate; try congruence.
      intros _. exists c, rest. split; [reflexivity | exact Hc].
    + repeat split; try discriminate.
      intros (c' & rest' & H & Hm). injection H as <- <-.
      apply lower_is_m in Hm. congruence.
  - cbn. repeat split; try discriminate.
    + intros (c & rest & H & _). discriminate.
Qed.

(** ** The downscaled url *)

Lemma insert_after_marked url :
  includes "/image/upload/" url = true ->
  includes "/image/upload/f_jpg"
           (insert_after "/image/upload/" "f_jpg,q_auto,w_512,c_limit/" url) = true.
Proof.
  induction url as [|c r IH]; intros H.
  - discriminate H.
  - cbn [insert_after].
    destruct (startsWith "/image/upload/" (String c r)) eqn:Hs.
    + apply includes_here. reflexivity.
    + cbn [includes] in H. rewrite Hs in H. cbn [orb] in H.
      apply includes_later, IH, H.
Qed.

(** X28.  The downscaling transform is put into a url at most once:
    [fetchImageBuffer] leaves a url alone that has no "/image/upload/"
    or carries the transform already, and the url it fetches otherwise
    carries the transform, so that resizing a resized url changes
    nothing. *)
Theorem resized_url_idempotent (url : string) :
  resized_url (resized_url url) = resized_url url /\
  (includes "/image/upload/" url = false -> resized_url url = url) /\
  (includes "/image/upload/f_jpg" url = true -> resized_url url = url) /\
  (includes "/image/upload/" url = true ->
   includes "/image/upload/f_jpg" (resized_url url) = true).
Proof.
  unfold resized_url.
  destruct (includes "/image/upload/" url) eqn:Hm;
    destruct (includes "/image/upload/f_jpg" url) eqn:Hf; cbn [andb negb].
  - rewrite Hm, Hf. cbn [andb negb].
    repeat split; intros; try discriminate; try reflexivity; assumption.
  - pose proof (insert_after_marked url Hm) as Hi.
    rewrite Hi, andb_false_r.
    repeat split; intros; try discriminate; try reflexivity; assumption.
  - rewrite Hm. cbn [andb].
    repeat split; intros; try discriminate; try reflexivity; assumption.
  - rewrite Hm. cbn [andb].
    repeat split; intros; try discriminate; try reflexivity; assumption.
Qed.

(** ** Reference folders *)

Lemma toLowerCase_app p s :
  toLowerCase (p ++ s) = (toLowerCase p ++ toLowerCase s)%string.
Proof. induction p as [|c p IH]; simpl; [reflexivity | now rewrite IH]. Qed.

Lemma toLowerCase_length s : String.length (toLowerCase s) = String.length s.
Proof. induction s as [|c s IH]; simpl; [reflexivity | now rewrite IH]. Qed.

Lemma startsWith_lower_split p n :
  startsWith p (toLowerCase n) = true ->
  exists q r, n = (q ++ r)%string /\ toLowerCase q = p.
Proof.
  revert n. induction p as [|a p IH]; intros n H.
  - exists EmptyString, n. split; reflexivity.
  - destruct n as [|c n]; [discriminate H|].
    cbn [toLowerCase startsWith] in H.
    apply andb_prop in H as [Ha Hp]. apply Ascii.eqb_eq in Ha.
    destruct (IH n Hp) as (q & r & -> & Hq).
    exists (String c q), r. split; [reflexivity|].
    cbn [toLowerCase]. rewrite Hq, <- Ha. reflexivity.
Qed.

(** X29.  A root folder is taken for a reference folder exactly when
    its name is the word "reference", in any mix of upper and lower case,
    followed by a white-space character and anything after it: the bare
    word, or the word followed by another character, does not count. *)
Theorem reference_folder_names (n : string) :
  is_reference_folder n = true <->
  exists p c r, n = (p ++ String c r)%string /\
                toLowerCase p = "reference"%string /\
                is_space c = true.
Proof.
  unfold is_reference_folder. split.
  - intros H. apply andb_prop in H as [Hs Hg].
    destruct (startsWith_lower_split _ _ Hs) as (q & r & -> & Hq).
    assert (Hlen : String.length q = 9%nat).
    { rewrite <- toLowerCase_length, Hq. reflexivity. }
    replace 9%nat with (0 + String.length q)%nat in Hg by (rewrite Hlen; reflexivity).
    rewrite <- append_correct2 in Hg.
    destruct r as [|c r]; [discriminate Hg|].
    cbn [get] in Hg. exists q, c, r. repeat split; assumption.
  - intros (p & c & r & -> & Hp & Hc).
    assert (Hlen : String.length p = 9%nat).
    { rewrite <- toLowerCase_length, Hp. reflexivity. }
    rewrite toLowerCase_app, Hp, startsWith_app. cbn [andb].
    replace 9%nat with (0 + String.length p)%nat by (rewrite Hlen; reflexivity).
    rewrite <- append_correct2. cbn [get]. exact Hc.
Qed.

Example reference_folder_examples :
  is_reference_folder "Reference Female A" = true /\
  is_reference_folder "REFERENCE male" = true /\
  is_reference_folder "reference" = false /\
  is_reference_folder "References 2024" = false /\
  is_reference_folder "My Reference A" = false.
Proof. repeat split. Qed.

(** ** Reference vectors and the embedding cache *)

Lemma getEmbedding_stable E cfg url (s : HF.St) u0 v0 :
  HF.cache_get u0 (embedCache s) = Some v0 ->
  HF.cache_get u0 (embedCache (snd (HF.getEmbedding E cfg url s))) = Some v0.
Proof.
  intros H0.
  destruct (String.eqb u0 url) eqn:Heq.
  - apply String.eqb_eq in Heq. subst u0.
    rewrite (getEmbedding_hit E cfg url v0 s H0). exact H0.
  - apply String.eqb_neq in Heq.
    pose proof (getEmbedding_cache E cfg url s) as [_ H].
    destruct (fst (HF.getEmbedding E cfg url s)).
    + rewrite H. exact H0.
    + destruct H as [_ Hother]. rewrite (Hother u0 Heq). exact H0.
Qed.

Lemma hf_embed_all_cache E cfg tag ctx us (s : HF.St) vs s' :
  HF.embed_all E cfg tag ctx us s = (inr vs, s') ->
  (forall u0 v0, HF.cache_get u0 (embedCache s) = Some v0 ->
                 HF.cache_get u0 (embedCache s') = Some v0) /\
  (forall vec, In vec vs -> exists u, In u us /\ HF.cache_get u (embedCache s') = Some vec).
Proof.
  revert s vs s'. induction us as [|u rest IH]; intros s vs s' H.
  - injection H as <- <-. split; [auto | intros vec []].
  - cbn [HF.embed_all] in H.
    pose proof (getEmbedding_cache E cfg u s) as [_ Hc].
    pose proof (fun u0 v0 => getEmbedding_stable E cfg u s u0 v0) as Hst.
    unfold bind at 1, try_catch, bind at 1 in H.
    destruct (HF.getEmbedding E cfg u s) as [[e|vec] s1]; cbn [fst snd] in Hc, Hst.
    + unfold bind at 1, console_error, modify, ret at 1 2 in H.
      match type of H with bind _ _ ?s2 = _ =>
        destruct (hf_embed_all_total E cfg tag ctx rest s2) as (vs2 & s3 & Hrun);
        destruct (IH s2 vs2 s3 Hrun) as [Hst2 Hin2]
      end.
      rewrite (bind_inr _ _ _ _ _ Hrun) in H. unfold ret in H. injection H as <- <-.
      cbn [embedCache] in Hst2. split.
      * intros u0 v0 H0. apply Hst2, Hst, H0.
      * intros v Hv. destruct (Hin2 v Hv) as (u' & Hu' & Hget).
        exists u'. split; [now right | exact Hget].
    + unfold ret at 1 in H.
      destruct (hf_embed_all_total E cfg tag ctx rest s1) as (vs2 & s3 & Hrun).
      destruct (IH s1 vs2 s3 Hrun) as [Hst2 Hin2].
      rewrite (bind_inr _ _ _ _ _ Hrun) in H. unfold ret in H. injection H as <- <-.
      destruct Hc as [Hget _]. split.
      * intros u0 v0 H0. apply Hst2, Hst, H0.
      * intros v [<-|Hv].
        -- exists u. split; [now left | apply Hst2, Hget].
        -- destruct (Hin2 v Hv) as (u' & Hu' & Hget').
           exists u'. split; [now right | exact Hget'].
Qed.

Lemma vectors_cached_stable (cache cache' : list (string * NVec)) groups :
  (forall u0 v0, HF.cache_get u0 cache = Some v0 -> HF.cache_get u0 cache' = Some v0) ->
  vectors_cached cache groups -> vectors_cached cache' groups.
Proof.
  intros Hst H c Hc vec Hv. destruct (H c Hc vec Hv) as (u & Hu & Hget).
  exists u. split; [exact Hu | apply Hst, Hget].
Qed.

Lemma hf_build_folder_cache E cfg fname out (s : HF.St) out' s' :
  HF.build_folder E cfg fname out s = (inr out', s') ->
  (forall u0 v0, HF.cache_get u0 (embedCache s) = Some v0 ->
                 HF.cache_get u0 (embedCache s') = Some v0) /\
  (vectors_cached (embedCache s) out -> vectors_cached (embedCache s') out').
Proof.
  unfold HF.build_folder. intros H.
  unfold bind at 1 in H.
  assert (Hs : embedCache (snd (HF.searchFolderAssets E fname s)) = embedCache s).
  { unfold HF.searchFolderAssets, bind, get_state, record, modify, ret, throw.
    destruct (search_reply E (history s) fname); reflexivity. }
  destruct (HF.searchFolderAssets E fname s) as [[e|us] s1]; cbn [snd] in Hs; [discriminate|].
  destruct us as [|u us].
  - unfold ret in H. injection H as <- <-. rewrite Hs. split; auto.
  - destruct (hf_embed_all_total E cfg "embed_fail" [fname] (u :: us) s1) as (vs & s2 & Hvs).
    rewrite (bind_inr _ _ _ _ _ Hvs) in H.
    destruct (hf_embed_all_cache E cfg _ _ _ s1 vs s2 Hvs) as [Hst Hin].
    rewrite Hs in Hst.
    destruct vs as [|v0 vs]; unfold ret in H; injection H as <- <-.
    + split; [exact Hst|]. apply vectors_cached_stable, Hst.
    + split; [exact Hst|]. intros Hout c Hc vec Hv.
      apply in_app_or in Hc as [Hc|[<-|[]]].
      * exact (vectors_cached_stable _ _ _ Hst Hout c Hc vec Hv).
      * cbn [HF.vecs HF.urls] in *. apply Hin, Hv.
Qed.

Lemma hf_build_folders_cache E cfg names out (s : HF.St) out' s' :
  HF.build_folders E cfg names out s = (inr out', s') ->
  vectors_cached (embedCache s) out -> vectors_cached (embedCache s') out'.
Proof.
  revert out s. induction names as [|fname rest IH]; intros out s H Hout.
  - injection H as <- <-. exact Hout.
  - cbn [HF.build_folders] in H. unfold bind in H.
    destruct (HF.build_folder E cfg fname out s) as [[e|out1] s1] eqn:Hf; [discriminate|].
    destruct (hf_build_folder_cache E cfg fname out s out1 s1 Hf) as [_ Hstep].
    exact (IH out1 s1 H (Hstep Hout)).
Qed.

(** X30.  After a cache build of the hosted-inference server that ran
    to its end, every reference vector of every published group is the
    entry of the embedding cache for one of the urls of its group: an
    evaluation that is sent a reference image gets that very vector back
    without a call. *)
Theorem published_vectors_are_cached (E : Env) (cfg : Config) (s s' : HF.St) :
  HF.loadClusters E cfg s = (inr tt, s') ->
  forall c, In c (clusters s') ->
  forall vec, In vec (HF.vecs c) ->
  exists u, In u (HF.urls c) /\
            forall E' cfg', HF.getEmbedding E' cfg' u s' = (inr vec, s').
Proof.
  unfold HF.loadClusters. intros H.
  destruct (negb (nonempty (CLOUDINARY_CLOUD_NAME cfg))
            || negb (nonempty (CLOUDINARY_API_KEY cfg))
            || negb (nonempty (CLOUDINARY_API_SECRET cfg))); [discriminate|].
  unfold bind at 1 in H.
  destruct (HF.discoverReferenceFolders E cfg s) as [[e|names] s1]; [discriminate|].
  unfold bind at 1 in H.
  destruct (HF.build_folders E cfg names [] s1) as [[e|out] s2] eqn:Hb; [discriminate|].
  unfold bind, replace_clusters, console_log, modify in H. cbn in H.
  inversion H; subst s'. cbn [clusters].
  assert (Hinv : vectors_cached (embedCache s2) out).
  { apply (hf_build_folders_cache E cfg names [] s1 out s2 Hb). intros c []. }
  intros c Hc vec Hv. destruct (Hinv c Hc vec Hv) as (u & Hu & Hget).
  exists u. split; [exact Hu|]. intros E' cfg'.
  apply getEmbedding_hit. exact Hget.
Qed.

Lemma hf_live_load :
  exists s', HF.loadClusters live_env (test_config false) init_state = (inr tt, s').
Proof. eexists. vm_compute. reflexivity. Qed.

Lemma published_vectors_are_cached_witness :
  exists s',
    HF.loadClusters live_env (test_config false) init_state = (inr tt, s') /\
    forall c, In c (clusters s') ->
    forall vec, In vec (HF.vecs c) ->
    exists u, In u (HF.urls c) /\
              forall E' cfg', HF.getEmbedding E' cfg' u s' = (inr vec, s').
Proof.
  destruct hf_live_load as [s' H]. exists s'. split; [exact H|].
  exact (published_vectors_are_cached live_env (test_config false) init_state s' H).
Defined.
